(** * libcyaml: the schema-driven YAML loader (src/load.c)

    A shallow embedding of the load engine of [src/load.c]: the event pump,
    the evaluation stack, the placement engine, the INT decoder, the
    per-state handlers, the drive loop and the two entry points, followed by
    the properties of the code that the specification states.

    C objects are modelled as follows.
    - Integers of a fixed width are [Z] with the wrap-around written out.
    - Addresses are [Z]; the heap is a byte store ([gmap Z Z]) together with
      the table of live allocations.  The allocator is libc's: every call
      takes its outcome (failure, a fresh block, growth in place) from a
      plan carried by the state, so a theorem quantified over the state
      holds for every allocator behaviour.
    - The libyaml parser is the list of results [yaml_parser_parse] has
      still to deliver.
    - The evaluation stack is the list of the entries of its backing buffer;
      [ctx->state] is an index into it.
    - A C function that returns [cyaml_err_t] and works on the load context
      is a function from the machine state to an [outcome]: it returns a
      value and a new state, or it stops (a failed [assert], an access
      through an invalid pointer, an undefined shift). *)

From Stdlib Require Import ZArith List String Ascii Bool Lia.
From stdpp Require Import base tactics option list gmap.

Set Warnings "-register-all".

Local Open Scope Z_scope.

(** ** Result codes, event kinds, schema nodes *)

(** Modelled from the spec: the result codes of [cyaml_err_t] (declared in
    cyaml.h, which is not among the sources); these are the codes the
    specification lists, under the names load.c uses. *)
Inductive cyaml_err_t : Type :=
  | CYAML_OK
  | CYAML_ERR_OOM
  | CYAML_ERR_ALIAS
  | CYAML_ERR_FILE_OPEN
  | CYAML_ERR_INVALID_KEY
  | CYAML_ERR_INVALID_VALUE
  | CYAML_ERR_INTERNAL_ERROR
  | CYAML_ERR_UNEXPECTED_EVENT
  | CYAML_ERR_BAD_TYPE_IN_SCHEMA
  | CYAML_ERR_BAD_TOP_LEVEL_TYPE
  | CYAML_ERR_BAD_PARAM_NULL_DATA
  | CYAML_ERR_BAD_PARAM_NULL_CONFIG
  | CYAML_ERR_BAD_PARAM_NULL_SCHEMA
  | CYAML_ERR_LIBYAML_PARSER_INIT
  | CYAML_ERR_LIBYAML_PARSER.

#[global] Instance cyaml_err_eq_dec : EqDecision cyaml_err_t.
Proof. solve_decision. Defined.

(** [err != CYAML_OK] *)
Definition is_err (e : cyaml_err_t) : bool :=
  match e with CYAML_OK => false | _ => true end.

(** libyaml's [yaml_event_type_t], in the order of the enumeration (the
    order of the table in [cyaml__libyaml_event_type_str]). *)
Inductive yaml_event_type_t : Type :=
  | YAML_NO_EVENT
  | YAML_STREAM_START_EVENT
  | YAML_STREAM_END_EVENT
  | YAML_DOCUMENT_START_EVENT
  | YAML_DOCUMENT_END_EVENT
  | YAML_ALIAS_EVENT
  | YAML_SCALAR_EVENT
  | YAML_SEQUENCE_START_EVENT
  | YAML_SEQUENCE_END_EVENT
  | YAML_MAPPING_START_EVENT
  | YAML_MAPPING_END_EVENT.

#[global] Instance yaml_event_type_eq_dec : EqDecision yaml_event_type_t.
Proof. solve_decision. Defined.

Definition yaml_event_type_code (t : yaml_event_type_t) : Z :=
  match t with
  | YAML_NO_EVENT => 0
  | YAML_STREAM_START_EVENT => 1
  | YAML_STREAM_END_EVENT => 2
  | YAML_DOCUMENT_START_EVENT => 3
  | YAML_DOCUMENT_END_EVENT => 4
  | YAML_ALIAS_EVENT => 5
  | YAML_SCALAR_EVENT => 6
  | YAML_SEQUENCE_START_EVENT => 7
  | YAML_SEQUENCE_END_EVENT => 8
  | YAML_MAPPING_START_EVENT => 9
  | YAML_MAPPING_END_EVENT => 10
  end.

(** A libyaml event: its kind and, for a scalar event, the text of
    [event->data.scalar.value].  The member is part of a union: an event of
    another kind has no scalar text. *)
Record yaml_event_t : Type := mk_event {
  ev_type : yaml_event_type_t;
  ev_scalar_value : option string
}.

(** [cyaml_event_t]: one bit per libyaml event kind. *)
Definition cyaml_event_t : Type := Z.

Definition CYAML_EVT_NONE : cyaml_event_t := 0.
Definition CYAML_EVT_NO_EVENT : cyaml_event_t :=
  Z.shiftl 1 (yaml_event_type_code YAML_NO_EVENT).
Definition CYAML_EVT_STREAM_START : cyaml_event_t :=
  Z.shiftl 1 (yaml_event_type_code YAML_STREAM_START_EVENT).
Definition CYAML_EVT_STREAM_END : cyaml_event_t :=
  Z.shiftl 1 (yaml_event_type_code YAML_STREAM_END_EVENT).
Definition CYAML_EVT_DOC_START : cyaml_event_t :=
  Z.shiftl 1 (yaml_event_type_code YAML_DOCUMENT_START_EVENT).
Definition CYAML_EVT_DOC_END : cyaml_event_t :=
  Z.shiftl 1 (yaml_event_type_code YAML_DOCUMENT_END_EVENT).
Definition CYAML_EVT_ALIAS : cyaml_event_t :=
  Z.shiftl 1 (yaml_event_type_code YAML_ALIAS_EVENT).
Definition CYAML_EVT_SCALAR : cyaml_event_t :=
  Z.shiftl 1 (yaml_event_type_code YAML_SCALAR_EVENT).
Definition CYAML_EVT_SEQ_START : cyaml_event_t :=
  Z.shiftl 1 (yaml_event_type_code YAML_SEQUENCE_START_EVENT).
Definition CYAML_EVT_SEQ_END : cyaml_event_t :=
  Z.shiftl 1 (yaml_event_type_code YAML_SEQUENCE_END_EVENT).
Definition CYAML_EVT_MAPPING_START : cyaml_event_t :=
  Z.shiftl 1 (yaml_event_type_code YAML_MAPPING_START_EVENT).
Definition CYAML_EVT_MAPPING_END : cyaml_event_t :=
  Z.shiftl 1 (yaml_event_type_code YAML_MAPPING_END_EVENT).

Definition cyaml__get_event_type (event : yaml_event_t) : cyaml_event_t :=
  Z.shiftl 1 (yaml_event_type_code (ev_type event)).

(** Modelled from the spec: the node kinds of [cyaml_type_e] (cyaml.h is not
    among the sources): the kinds the specification lists, and
    [CYAML__TYPE_COUNT], the count of kinds load.c sizes its decoder table
    with, which is no kind itself. *)
Inductive cyaml_type_e : Type :=
  | CYAML_INT
  | CYAML_UINT
  | CYAML_BOOL
  | CYAML_ENUM
  | CYAML_FLAGS
  | CYAML_STRING
  | CYAML_MAPPING
  | CYAML_SEQUENCE
  | CYAML_SEQUENCE_FIXED
  | CYAML_IGNORE
  | CYAML__TYPE_COUNT.

#[global] Instance cyaml_type_eq_dec : EqDecision cyaml_type_e.
Proof. solve_decision. Defined.

(** Modelled from the spec: the owning-pointer bit of a node's flags
    ([CYAML_FLAG_POINTER] of cyaml.h, which is not among the sources).  Only
    that it is one bit matters below. *)
Definition CYAML_FLAG_POINTER : Z := 2.

(** One field of a mapping: [cyaml_schema_mapping_t] over the node type. *)
Record cyaml_schema_mapping (S : Type) : Type := mk_schema_mapping {
  key : string;
  data_offset : Z;
  value : S
}.
Arguments mk_schema_mapping {S} _ _ _.
Arguments key {S} _.
Arguments data_offset {S} _.
Arguments value {S} _.

(** Modelled from the spec: a schema node, [cyaml_schema_type_t] (cyaml.h is
    not among the sources), with the members load.c reads.  The members of
    its union are laid side by side: [mapping_schema] is the array
    [schema->mapping.schema] up to its terminating entry, the one with a
    NULL key; [sequence_schema] is the pointer [schema->sequence.schema]
    ([None] for NULL). *)
Inductive cyaml_schema_type_t : Type :=
  mk_schema_type
    (type : cyaml_type_e)
    (flags : Z)
    (data_size : Z)
    (mapping_schema : list (cyaml_schema_mapping cyaml_schema_type_t))
    (sequence_schema : option cyaml_schema_type_t)
    (sequence_count_offset : Z)
    (sequence_count_size : Z).

Definition cyaml_schema_mapping_t : Type :=
  cyaml_schema_mapping cyaml_schema_type_t.

Definition type (s : cyaml_schema_type_t) : cyaml_type_e :=
  match s with mk_schema_type t _ _ _ _ _ _ => t end.
Definition flags (s : cyaml_schema_type_t) : Z :=
  match s with mk_schema_type _ f _ _ _ _ _ => f end.
Definition data_size (s : cyaml_schema_type_t) : Z :=
  match s with mk_schema_type _ _ d _ _ _ _ => d end.
Definition mapping_schema (s : cyaml_schema_type_t)
  : list cyaml_schema_mapping_t :=
  match s with mk_schema_type _ _ _ m _ _ _ => m end.
Definition sequence_schema (s : cyaml_schema_type_t)
  : option cyaml_schema_type_t :=
  match s with mk_schema_type _ _ _ _ e _ _ => e end.
Definition sequence_count_offset (s : cyaml_schema_type_t) : Z :=
  match s with mk_schema_type _ _ _ _ _ o _ => o end.
Definition sequence_count_size (s : cyaml_schema_type_t) : Z :=
  match s with mk_schema_type _ _ _ _ _ _ c => c end.

(** [schema->flags & CYAML_FLAG_POINTER] *)
Definition has_pointer_flag (s : cyaml_schema_type_t) : bool :=
  negb (Z.land (flags s) CYAML_FLAG_POINTER =? 0).

(** A scalar node, a mapping node and a sequence node, as a client writes
    them. *)
Definition scalar_node (t : cyaml_type_e) (fl size : Z) : cyaml_schema_type_t :=
  mk_schema_type t fl size [] None 0 0.
Definition mapping_node (fl size : Z) (fields : list cyaml_schema_mapping_t)
  : cyaml_schema_type_t :=
  mk_schema_type CYAML_MAPPING fl size fields None 0 0.
Definition sequence_node (t : cyaml_type_e) (fl size : Z)
    (elem : cyaml_schema_type_t) (count_offset count_size : Z)
  : cyaml_schema_type_t :=
  mk_schema_type t fl size [] (Some elem) count_offset count_size.

(** ** The load context *)

(** Identifies that no mapping schema entry was found for key. *)
Definition CYAML_SCHEMA_IDX_NONE : Z := 65535.

Inductive cyaml_state_e : Type :=
  | CYAML_STATE_START
  | CYAML_STATE_IN_STREAM
  | CYAML_STATE_IN_DOC
  | CYAML_STATE_IN_MAPPING
  | CYAML_STATE_IN_SEQUENCE.

#[global] Instance cyaml_state_e_eq_dec : EqDecision cyaml_state_e.
Proof. solve_decision. Defined.

Inductive cyaml_mapping_state_e : Type :=
  | CYAML_MAPPING_STATE_KEY
  | CYAML_MAPPING_STATE_VALUE.

(** A stack entry, [cyaml_state_t].  load.c reads the [mapping] member of
    the union only in an entry pushed for [CYAML_STATE_IN_MAPPING] and the
    [sequence] member only in one pushed for [CYAML_STATE_IN_SEQUENCE], so
    the two are kept side by side. *)
Record cyaml_state_t : Type := mk_state {
  state : cyaml_state_e;
  schema : cyaml_schema_type_t;
  st_mapping_schema : list cyaml_schema_mapping_t; (* mapping.schema *)
  st_mapping_state : cyaml_mapping_state_e;        (* mapping.state *)
  st_mapping_schema_idx : Z;                       (* mapping.schema_idx, uint16_t *)
  st_mapping_entries_count : Z;                    (* mapping.entries_count *)
  st_sequence_data : Z;                            (* sequence.data *)
  st_sequence_count_data : Z;                      (* sequence.count_data *)
  st_sequence_count : Z;                           (* sequence.count, uint32_t *)
  st_sequence_count_size : Z;                      (* sequence.count_size, uint64_t *)
  data : Z                                         (* uint8_t * *)
}.

(** Modelled from the spec: the client's configuration, [cyaml_config_t]
    (cyaml.h is not among the sources): the minimum level the log sink
    receives.  The sink itself is outside the engine: [cyaml__log] has no
    effect on the load and is left out of the handlers below. *)
Record cyaml_config_t : Type := mk_config {
  log_level : Z
}.

(** Internal YAML loading context, [cyaml_ctx_t].  [ctx_state] is the pointer
    [ctx->state], kept as the index of the entry it points to ([None] for
    NULL); [parser] holds the results [yaml_parser_parse] has still to
    deliver, [None] standing for a failed parse. *)
Record cyaml_ctx_t : Type := mk_ctx {
  config : cyaml_config_t;
  ctx_state : option Z;
  stack : list cyaml_state_t;
  stack_idx : Z;                (* uint32_t *)
  stack_max : Z;                (* uint32_t *)
  parser : list (option yaml_event_t)
}.

(** ** The machine: heap, allocator, errno *)

(** What the next call of the allocator does: it fails, it hands out a fresh
    block (moving the contents, for [realloc]), or it grows the block where
    it stands. *)
Inductive alloc_outcome : Type :=
  | AllocFail
  | AllocMove
  | AllocStay.

#[global] Instance alloc_outcome_eq_dec : EqDecision alloc_outcome.
Proof. solve_decision. Defined.

Inductive stop_reason : Type :=
  | AssertionFailed   (* a failed assert *)
  | InvalidAccess     (* an access through a pointer that is not valid *)
  | UndefinedShift    (* a shift by the width of the type or more *)
  | OutOfFuel.        (* the bound of a loop of the model was reached *)

(** What the load cannot see of its surroundings: whether
    [yaml_parser_initialize] will succeed, and for each path [fopen] can open
    the results the parser will deliver on that file. *)
Record environment : Type := mk_environment {
  parser_init_ok : bool;
  files : list (string * list (option yaml_event_t))
}.

Record machine : Type := mk_machine {
  ctx : cyaml_ctx_t;
  heap_bytes : gmap Z Z;        (* address -> byte stored there *)
  heap_blocks : gmap Z Z;       (* base of a live allocation -> its size *)
  heap_next : nat;              (* number of the next fresh block *)
  alloc_plan : list alloc_outcome;
  errno : Z;
  free_log : list (cyaml_schema_type_t * Z);  (* the calls of cyaml_free *)
  env : environment
}.

Inductive outcome (A : Type) : Type :=
  | Returns (a : A) (m : machine)
  | Stops (r : stop_reason).
Arguments Returns {A} _ _.
Arguments Stops {A} _.

(** A C function working on the machine. *)
Definition M (A : Type) : Type := machine -> outcome A.

Definition ret {A : Type} (a : A) : M A := fun m => Returns a m.

Definition bind {A B : Type} (c : M A) (k : A -> M B) : M B :=
  fun m => match c m with
           | Returns a m' => k a m'
           | Stops r => Stops r
           end.

Definition stop {A : Type} (r : stop_reason) : M A := fun _ => Stops r.

Notation "x <- c ;; k" := (bind c (fun x => k))
  (at level 100, c at next level, right associativity).

Definition get_ctx : M cyaml_ctx_t := fun m => Returns (ctx m) m.

Definition set_ctx (c : cyaml_ctx_t) (m : machine) : machine :=
  mk_machine c (heap_bytes m) (heap_blocks m) (heap_next m) (alloc_plan m)
             (errno m) (free_log m) (env m).

Definition put_ctx (c : cyaml_ctx_t) : M unit :=
  fun m => Returns tt (set_ctx c m).

Definition set_heap_bytes (b : gmap Z Z) (m : machine) : machine :=
  mk_machine (ctx m) b (heap_blocks m) (heap_next m) (alloc_plan m)
             (errno m) (free_log m) (env m).

Definition set_errno (e : Z) (m : machine) : machine :=
  mk_machine (ctx m) (heap_bytes m) (heap_blocks m) (heap_next m)
             (alloc_plan m) e (free_log m) (env m).

Definition ENOMEM : Z := 12.
Definition ERANGE : Z := 34.

(** The address of fresh block number [k]: blocks lie [BLOCK_SPAN] apart, and
    no request of the loader comes near that size.  No block lies at
    address 0, which is NULL. *)
Definition BLOCK_SPAN : Z := 2 ^ 40.
Definition block_base (k : nat) : Z := (Z.of_nat k + 1) * BLOCK_SPAN.

(** [n] bytes of [v], low-order byte first, stored from address [a]. *)
Fixpoint store_le (n : nat) (a v : Z) (b : gmap Z Z) : gmap Z Z :=
  match n with
  | O => b
  | S k => store_le k (a + 1) (v / 256) (<[a := v mod 256]> b)
  end.

(** The [n] bytes from address [a] read as an unsigned integer, low-order
    byte first; [None] when one of them was never written. *)
Fixpoint load_le (n : nat) (a : Z) (b : gmap Z Z) : option Z :=
  match n with
  | O => Some 0
  | S k =>
      match b !! a, load_le k (a + 1) b with
      | Some x, Some r => Some (x + 256 * r)
      | _, _ => None
      end
  end.

(** [memset(a, 0, n)] *)
Fixpoint zero_bytes (n : nat) (a : Z) (b : gmap Z Z) : gmap Z Z :=
  match n with
  | O => b
  | S k => zero_bytes k (a + 1) (<[a := 0]> b)
  end.

(** The first [n] bytes at [src] copied to [dst]. *)
Fixpoint copy_bytes (n : nat) (src dst : Z) (b : gmap Z Z) : gmap Z Z :=
  match n with
  | O => b
  | S k =>
      let b' := match b !! src with
                | Some x => <[dst := x]> b
                | None => delete dst b
                end in
      copy_bytes k (src + 1) (dst + 1) b'
  end.

(** The allocator takes the outcome of a call from the plan; a plan that has
    run out hands out fresh blocks. *)
Definition next_alloc (m : machine) : alloc_outcome * list alloc_outcome :=
  match alloc_plan m with
  | [] => (AllocMove, [])
  | o :: rest => (o, rest)
  end.

(** The machine after a call of the allocator: the rest of the plan is left,
    the heap is as given. *)
Definition after_alloc (m : machine) (bytes blocks : gmap Z Z) (next : nat)
    (err : Z) : machine :=
  mk_machine (ctx m) bytes blocks next (snd (next_alloc m)) err (free_log m)
             (env m).

(** libc's [realloc(p, size)]: [p] is NULL or the base of a live block. *)
Definition realloc (p size : Z) : M Z := fun m =>
  let fresh := block_base (heap_next m) in
  match fst (next_alloc m) with
  | AllocFail =>
      Returns 0 (after_alloc m (heap_bytes m) (heap_blocks m) (heap_next m)
                             ENOMEM)
  | o =>
      if p =? 0 then
        Returns fresh
          (after_alloc m (heap_bytes m) (<[fresh := size]> (heap_blocks m))
                       (S (heap_next m)) (errno m))
      else
        match heap_blocks m !! p with
        | None => Stops InvalidAccess
        | Some old =>
            match o with
            | AllocStay =>
                Returns p
                  (after_alloc m (heap_bytes m) (<[p := size]> (heap_blocks m))
                               (heap_next m) (errno m))
            | _ =>
                Returns fresh
                  (after_alloc m
                     (copy_bytes (Z.to_nat (Z.min old size)) p fresh
                                 (heap_bytes m))
                     (<[fresh := size]> (delete p (heap_blocks m)))
                     (S (heap_next m)) (errno m))
            end
        end
  end.

(** libc's [calloc(1, size)]. *)
Definition calloc (size : Z) : M Z := fun m =>
  let fresh := block_base (heap_next m) in
  match fst (next_alloc m) with
  | AllocFail =>
      Returns 0 (after_alloc m (heap_bytes m) (heap_blocks m) (heap_next m)
                             ENOMEM)
  | _ =>
      Returns fresh
        (after_alloc m (zero_bytes (Z.to_nat size) fresh (heap_bytes m))
                     (<[fresh := size]> (heap_blocks m))
                     (S (heap_next m)) (errno m))
  end.

(** [memset(a, 0, n)] on the machine. *)
Definition memset_zero (a n : Z) : M unit := fun m =>
  Returns tt (set_heap_bytes (zero_bytes (Z.to_nat n) a (heap_bytes m)) m).

(** Modelled from the spec: the data writer [cyaml_data_write] (src/data.h is
    not among the sources).  It stores an integer of [entry_size] bytes at
    the target address, honouring the target width: the low-order
    [entry_size] bytes of the 64-bit [value], low-order byte first (the
    little-endian host of the specification's scenarios).  A width it cannot
    honour, none or more than the eight bytes of [value], stores nothing and
    is reported as an internal error. *)
Definition cyaml_data_write (value entry_size data_tgt : Z) : M cyaml_err_t :=
  fun m =>
    if (1 <=? entry_size) && (entry_size <=? 8) then
      Returns CYAML_OK
        (set_heap_bytes
           (store_le (Z.to_nat entry_size) data_tgt value (heap_bytes m)) m)
    else Returns CYAML_ERR_INTERNAL_ERROR m.

(** Modelled from the spec: the companion free routine [cyaml_free] (not
    among the sources).  It walks the schema from the root it is given and
    releases the allocations of the tree; the model records the call. *)
Definition cyaml_free (sch : cyaml_schema_type_t) (root : Z) : M unit :=
  fun m =>
    Returns tt
      (mk_machine (ctx m) (heap_bytes m) (heap_blocks m) (heap_next m)
                  (alloc_plan m) (errno m) (free_log m ++ [(sch, root)])
                  (env m)).

(** ** libc's strtoll with base 0 *)

Definition char_code (c : ascii) : Z := Z.of_N (N_of_ascii c).

Definition isspace (c : ascii) : bool :=
  let n := char_code c in (n =? 32) || ((9 <=? n) && (n <=? 13)).

(** The value of a character as a digit, whatever the base. *)
Definition digit_value (c : ascii) : option Z :=
  let n := char_code c in
  if (48 <=? n) && (n <=? 57) then Some (n - 48)
  else if (97 <=? n) && (n <=? 122) then Some (n - 87)
  else if (65 <=? n) && (n <=? 90) then Some (n - 55)
  else None.

Definition is_digit_of (base : Z) (c : ascii) : bool :=
  match digit_value c with
  | Some d => d <? base
  | None => false
  end.

Fixpoint skip_spaces (s : list ascii) : nat * list ascii :=
  match s with
  | c :: rest =>
      if isspace c then let '(n, r) := skip_spaces rest in (S n, r)
      else (O, s)
  | [] => (O, [])
  end.

(** The digits of [base] at the head of [s]: their value after [acc], and
    how many there are. *)
Fixpoint read_digits (base : Z) (s : list ascii) (acc : Z) : Z * nat :=
  match s with
  | c :: rest =>
      match digit_value c with
      | Some d =>
          if d <? base then
            let '(v, n) := read_digits base rest (acc * base + d) in (v, S n)
          else (acc, O)
      | None => (acc, O)
      end
  | [] => (acc, O)
  end.

Definition LLONG_MAX : Z := 2 ^ 63 - 1.
Definition LLONG_MIN : Z := - 2 ^ 63.

(** What a call of [strtoll] yields: the value returned, how far [*endptr]
    lies from the start of the text, and whether the call sets [errno] to
    [ERANGE]. *)
Record strtoll_result : Type := mk_strtoll {
  sr_value : Z;
  sr_end : nat;
  sr_erange : bool
}.

(** [strtoll(text, &end, 0)]: white space, an optional sign, the prefix 0x or
    0X before a hexadecimal digit for base 16, a leading 0 for base 8,
    base 10 otherwise; then the digits of the base.  The value saturates at
    [LLONG_MIN] and [LLONG_MAX] with [ERANGE]; when there is no digit the
    value is 0 and [end] is the start of the text. *)
Definition strtoll (text : string) : strtoll_result :=
  let '(nsp, s1) := skip_spaces (list_ascii_of_string text) in
  let '(neg, nsign, s2) :=
    match s1 with
    | "-"%char :: r => (true, 1%nat, r)
    | "+"%char :: r => (false, 1%nat, r)
    | _ => (false, 0%nat, s1)
    end in
  let '(base, npre, s3) :=
    match s2 with
    | "0"%char :: x :: d :: r =>
        if (Ascii.eqb x "x" || Ascii.eqb x "X") && is_digit_of 16 d
        then (16, 2%nat, d :: r)
        else (8, 0%nat, s2)
    | "0"%char :: _ => (8, 0%nat, s2)
    | _ => (10, 0%nat, s2)
    end in
  let '(v, nd) := read_digits base s3 0 in
  match nd with
  | O => mk_strtoll 0 0 false
  | _ =>
      let e := (nsp + nsign + npre + nd)%nat in
      if neg then
        if 2 ^ 63 <? v then mk_strtoll LLONG_MIN e true
        else mk_strtoll (- v) e false
      else
        if LLONG_MAX <? v then mk_strtoll LLONG_MAX e true
        else mk_strtoll v e false
  end.

(** ** Access to the current stack entry *)

(** The entry [ctx->state] points to, when it points to one. *)
Definition cur_entry (c : cyaml_ctx_t) : option cyaml_state_t :=
  match ctx_state c with
  | Some i => if 0 <=? i then stack c !! Z.to_nat i else None
  | None => None
  end.

(** A read through [ctx->state]. *)
Definition deref_state : M cyaml_state_t := fun m =>
  match cur_entry (ctx m) with
  | Some f => Returns f m
  | None => Stops InvalidAccess
  end.

Definition set_stack (c : cyaml_ctx_t) (l : list cyaml_state_t) : cyaml_ctx_t :=
  mk_ctx (config c) (ctx_state c) l (stack_idx c) (stack_max c) (parser c).

(** A write through [ctx->state]: the entry becomes [f] of itself. *)
Definition update_state (f : cyaml_state_t -> cyaml_state_t) : M unit :=
  fun m =>
    match ctx_state (ctx m), cur_entry (ctx m) with
    | Some i, Some e =>
        Returns tt
          (set_ctx (set_stack (ctx m) (<[Z.to_nat i := f e]> (stack (ctx m)))) m)
    | _, _ => Stops InvalidAccess
    end.

Definition set_mapping_state (x : cyaml_mapping_state_e) (e : cyaml_state_t)
  : cyaml_state_t :=
  mk_state (state e) (schema e) (st_mapping_schema e) x
           (st_mapping_schema_idx e) (st_mapping_entries_count e)
           (st_sequence_data e) (st_sequence_count_data e)
           (st_sequence_count e) (st_sequence_count_size e) (data e).

Definition set_mapping_schema_idx (x : Z) (e : cyaml_state_t) : cyaml_state_t :=
  mk_state (state e) (schema e) (st_mapping_schema e) (st_mapping_state e)
           x (st_mapping_entries_count e)
           (st_sequence_data e) (st_sequence_count_data e)
           (st_sequence_count e) (st_sequence_count_size e) (data e).

Definition set_sequence_data (x : Z) (e : cyaml_state_t) : cyaml_state_t :=
  mk_state (state e) (schema e) (st_mapping_schema e) (st_mapping_state e)
           (st_mapping_schema_idx e) (st_mapping_entries_count e)
           x (st_sequence_count_data e)
           (st_sequence_count e) (st_sequence_count_size e) (data e).

Definition set_sequence_count (x : Z) (e : cyaml_state_t) : cyaml_state_t :=
  mk_state (state e) (schema e) (st_mapping_schema e) (st_mapping_state e)
           (st_mapping_schema_idx e) (st_mapping_entries_count e)
           (st_sequence_data e) (st_sequence_count_data e)
           x (st_sequence_count_size e) (data e).

Definition set_data (x : Z) (e : cyaml_state_t) : cyaml_state_t :=
  mk_state (state e) (schema e) (st_mapping_schema e) (st_mapping_state e)
           (st_mapping_schema_idx e) (st_mapping_entries_count e)
           (st_sequence_data e) (st_sequence_count_data e)
           (st_sequence_count e) (st_sequence_count_size e) x.

(** ** The event pump *)

(** libyaml's [yaml_parser_parse]: the next result of the parser.  Past the
    end of its stream the parser succeeds with an event of kind
    [YAML_NO_EVENT]. *)
Definition yaml_parser_parse : M (option yaml_event_t) := fun m =>
  let c := ctx m in
  match parser c with
  | [] => Returns (Some (mk_event YAML_NO_EVENT None)) m
  | r :: rest =>
      Returns r
        (set_ctx (mk_ctx (config c) (ctx_state c) (stack c) (stack_idx c)
                         (stack_max c) rest) m)
  end.

(** What [*event] holds when the pump returns an error: nothing to be used. *)
Definition no_event : yaml_event_t := mk_event YAML_NO_EVENT None.

(** Helper function to read the next YAML input event. *)
Definition cyaml_get_next_event (mask : cyaml_event_t)
  : M (cyaml_err_t * yaml_event_t) :=
  r <- yaml_parser_parse ;;
  match r with
  | None => ret (CYAML_ERR_LIBYAML_PARSER, no_event)
  | Some event =>
      if decide (ev_type event = YAML_ALIAS_EVENT) then
        ret (CYAML_ERR_ALIAS, no_event)
      else if Z.land (cyaml__get_event_type event) mask =? 0 then
        ret (CYAML_ERR_UNEXPECTED_EVENT, no_event)
      else ret (CYAML_OK, event)
  end.

(** ** The stack *)

(** Get the offset to a mapping field by key in a mapping schema array; the
    index is a [uint16_t]. *)
Fixpoint get_entry_from (mapping_schema : list cyaml_schema_mapping_t)
    (k : string) (index : Z) : Z :=
  match mapping_schema with
  | [] => CYAML_SCHEMA_IDX_NONE
  | e :: rest =>
      if String.eqb (key e) k then index
      else get_entry_from rest k ((index + 1) mod 2 ^ 16)
  end.

Definition cyaml__get_entry_from_mapping_schema
    (mapping_schema : list cyaml_schema_mapping_t) (k : string) : Z :=
  get_entry_from mapping_schema k 0.

(** An entry of the stack buffer nothing has been stored in yet. *)
Definition blank_state (sch : cyaml_schema_type_t) : cyaml_state_t :=
  mk_state CYAML_STATE_START sch [] CYAML_MAPPING_STATE_KEY 0 0 0 0 0 0 0.

(** Ensure that the CYAML load context has space for a new stack entry.  The
    buffer grows through [realloc]: the allocator's plan says whether the
    call succeeds. *)
Definition cyaml__stack_ensure : M cyaml_err_t := fun m =>
  let c := ctx m in
  let max := (stack_max c + 16) mod 2 ^ 32 in
  if stack_idx c <? stack_max c then Returns CYAML_OK m
  else
    match fst (next_alloc m) with
    | AllocFail =>
        Returns CYAML_ERR_OOM
          (after_alloc m (heap_bytes m) (heap_blocks m) (heap_next m) ENOMEM)
    | _ =>
        let m' := after_alloc m (heap_bytes m) (heap_blocks m) (heap_next m)
                              (errno m) in
        let filler := blank_state (scalar_node CYAML__TYPE_COUNT 0 0) in
        Returns CYAML_OK
          (set_ctx (mk_ctx (config c) (Some (stack_idx c - 1))
                           (resize (Z.to_nat max) filler (stack c))
                           (stack_idx c) max (parser c)) m')
    end.

(** Push a new entry onto the CYAML load context's stack. *)
Definition cyaml__stack_push (st : cyaml_state_e)
    (sch : cyaml_schema_type_t) (dat : Z) : M cyaml_err_t :=
  let s := mk_state st sch [] CYAML_MAPPING_STATE_KEY 0 0 0 0 0 0 dat in
  err <- cyaml__stack_ensure ;;
  if is_err err then ret err
  else
    filled <-
      match st with
      | CYAML_STATE_IN_MAPPING =>
          if decide (type sch = CYAML_MAPPING) then
            ret (inr (mk_state st sch (mapping_schema sch)
                               CYAML_MAPPING_STATE_KEY 0 0 0 0 0 0 dat))
          else stop AssertionFailed
      | CYAML_STATE_IN_SEQUENCE =>
          match type sch with
          | CYAML_SEQUENCE_FIXED | CYAML_SEQUENCE =>
              parent <- deref_state ;;
              ret (inr (mk_state st sch [] CYAML_MAPPING_STATE_KEY 0 0 0
                                 (data parent + sequence_count_offset sch) 0
                                 (sequence_count_size sch) dat))
          | _ => ret (inl CYAML_ERR_INTERNAL_ERROR)
          end
      | _ => ret (inr s)
      end ;;
    match filled with
    | inl e => ret e
    | inr s' =>
        c <- get_ctx ;;
        if (Z.to_nat (stack_idx c) <? length (stack c))%nat then
          _ <- put_ctx (mk_ctx (config c) (Some (stack_idx c))
                               (<[Z.to_nat (stack_idx c) := s']> (stack c))
                               ((stack_idx c + 1) mod 2 ^ 32)
                               (stack_max c) (parser c)) ;;
          ret CYAML_OK
        else stop InvalidAccess
    end.

(** Pop the current entry on the CYAML load context's stack.  The call of
    the log reads the entry [ctx->state] points to. *)
Definition cyaml__stack_pop : M cyaml_err_t :=
  c <- get_ctx ;;
  if stack_idx c =? 0 then ret CYAML_ERR_INTERNAL_ERROR
  else
    let idx := stack_idx c - 1 in
    _ <- deref_state ;;
    _ <- put_ctx (mk_ctx (config c)
                         (if idx =? 0 then None else Some (idx - 1))
                         (stack c) idx (stack_max c) (parser c)) ;;
    ret CYAML_OK.

(** Helper to check if our current state is [CYAML_STATE_IN_SEQUENCE]. *)
Definition cyaml_in_sequence : M bool := fun m =>
  match ctx_state (ctx m) with
  | None => Returns false m
  | Some _ =>
      match cur_entry (ctx m) with
      | Some f => Returns (bool_decide (state f = CYAML_STATE_IN_SEQUENCE)) m
      | None => Stops InvalidAccess
      end
  end.

(** ** The placement engine *)

(** [sizeof(value_data)]: the width of a pointer. *)
Definition POINTER_SIZE : Z := 8.

(** [strlen] of the text of a scalar event. *)
Definition strlen (s : string) : Z := Z.of_nat (String.length s).

(** Helper to make allocations for loaded YAML values.  Returns the result
    code and what [*value_data_io] holds on return. *)
Definition cyaml__data_handle_pointer (sch : cyaml_schema_type_t)
    (event : yaml_event_t) (value_data_io : Z) : M (cyaml_err_t * Z) :=
  if has_pointer_flag sch then
    delta <-
      (if decide (type sch = CYAML_STRING) then
         match ev_scalar_value event with
         | Some v => ret (strlen v + 1)
         | None => stop InvalidAccess
         end
       else ret (data_size sch)) ;;
    in_seq <- cyaml_in_sequence ;;
    place <-
      (if in_seq : bool then
         st <- deref_state ;;
         ret ((data_size sch * st_sequence_count st) mod 2 ^ 32,
              st_sequence_data st)
       else ret (0, 0)) ;;
    let offset := fst place in
    value_data <- realloc (snd place) ((offset + delta) mod 2 ^ 64) ;;
    if value_data =? 0 then ret (CYAML_ERR_OOM, value_data_io)
    else
      _ <- memset_zero (value_data + offset) delta ;;
      _ <- (if in_seq : bool then update_state (set_sequence_data value_data)
            else ret tt) ;;
      err <- cyaml_data_write (value_data mod 2 ^ 64) POINTER_SIZE
                              value_data_io ;;
      if is_err err then ret (err, value_data_io)
      else ret (CYAML_OK, value_data)
  else ret (CYAML_OK, value_data_io).

(** ** The scalar decoders *)

(** Read a value of type [CYAML_INT]. *)
Definition cyaml__read_int (sch : cyaml_schema_type_t) (text : string)
    (dat : Z) : M cyaml_err_t := fun m =>
  let r := strtoll text in
  let m := if sr_erange r then set_errno ERANGE m else m in
  let temp := sr_value r in
  let shift := (((8 - data_size sch) mod 2 ^ 32) * 8) mod 2 ^ 32 in
  if 64 <=? shift then Stops UndefinedShift
  else
    let max := Z.shiftr (2 ^ 64 - 1) shift / 2 in
    let min := - max - 1 in
    if (Nat.eqb (sr_end r) 0) || (errno m =? ERANGE)
       || (temp <? min) || (max <? temp)
    then Returns CYAML_ERR_INVALID_VALUE m
    else cyaml_data_write (temp mod 2 ^ 64) (data_size sch) dat m.

(** The table of decoders of [cyaml__read_scalar_value]: an entry for
    [CYAML_INT], NULL elsewhere. *)
Definition read_scalar_fn (t : cyaml_type_e)
  : option (cyaml_schema_type_t -> string -> Z -> M cyaml_err_t) :=
  match t with
  | CYAML_INT => Some cyaml__read_int
  | _ => None
  end.

(** Read a scalar value: [assert(fn[schema->type] != NULL)], then the call
    through the table. *)
Definition cyaml__read_scalar_value (sch : cyaml_schema_type_t) (dat : Z)
    (event : yaml_event_t) : M cyaml_err_t :=
  match read_scalar_fn (type sch) with
  | None => stop AssertionFailed
  | Some fn =>
      match ev_scalar_value event with
      | Some text => fn sch text dat
      | None => stop InvalidAccess
      end
  end.

(** ** The value handler and the sequence-append path *)

(** Handle a YAML event corresponding to a YAML data value.  The result of
    [cyaml__data_handle_pointer] is not looked at; [data] is what the call
    left in it. *)
Definition cyaml__read_value (sch : cyaml_schema_type_t) (dat : Z)
    (event : yaml_event_t) : M cyaml_err_t :=
  let cyaml_event := cyaml__get_event_type event in
  dat <-
    (if bool_decide (type sch <> CYAML_SEQUENCE)
        && bool_decide (type sch <> CYAML_SEQUENCE_FIXED)
     then placed <- cyaml__data_handle_pointer sch event dat ;;
          ret (snd placed)
     else ret dat) ;;
  match type sch with
  | CYAML_INT | CYAML_UINT | CYAML_BOOL | CYAML_ENUM | CYAML_STRING =>
      if negb (cyaml_event =? CYAML_EVT_SCALAR) then
        ret CYAML_ERR_INVALID_VALUE
      else cyaml__read_scalar_value sch dat event
  | CYAML_FLAGS => ret CYAML_OK
  | CYAML_MAPPING =>
      if negb (cyaml_event =? CYAML_EVT_MAPPING_START) then
        ret CYAML_ERR_INVALID_VALUE
      else cyaml__stack_push CYAML_STATE_IN_MAPPING sch dat
  | CYAML_SEQUENCE | CYAML_SEQUENCE_FIXED =>
      if negb (cyaml_event =? CYAML_EVT_SEQ_START) then
        ret CYAML_ERR_INVALID_VALUE
      else cyaml__stack_push CYAML_STATE_IN_SEQUENCE sch dat
  | CYAML_IGNORE => ret CYAML_OK
  | _ => ret CYAML_ERR_BAD_TYPE_IN_SCHEMA
  end.

(** The sequence-append path: [cyaml__new_sequence_entry] up to the point
    where it hands the event over to the value handler.  [sch] and [dat] are
    [state->schema] and [state->data] of the current entry; the result is the
    code so far and the address of the new slot. *)
Definition sequence_entry_append (sch : cyaml_schema_type_t) (dat : Z)
    (event : yaml_event_t) : M (cyaml_err_t * Z) :=
  placed <- cyaml__data_handle_pointer sch event dat ;;
  if is_err (fst placed) then ret (fst placed, dat)
  else
    st <- deref_state ;;
    let value_data :=
      snd placed + (data_size sch * st_sequence_count st) mod 2 ^ 32 in
    let count := (st_sequence_count st + 1) mod 2 ^ 32 in
    _ <- update_state (set_sequence_count count) ;;
    err <-
      (if bool_decide (type sch <> CYAML_SEQUENCE_FIXED) then
         cyaml_data_write count (st_sequence_count_size st)
                          (st_sequence_count_data st)
       else ret CYAML_OK) ;;
    ret (err, value_data).

(** Handle a YAML event adding a new entry to a sequence: the append path,
    then the value handler on the new slot with the schema of the
    elements. *)
Definition cyaml__new_sequence_entry (event : yaml_event_t) : M cyaml_err_t :=
  st <- deref_state ;;
  let sch := schema st in
  appended <- sequence_entry_append sch (data st) event ;;
  if is_err (fst appended) then ret (fst appended)
  else
    match sequence_schema sch with
    | None => stop InvalidAccess
    | Some elem => cyaml__read_value elem (snd appended) event
    end.

(** ** The handlers of the states *)

(** The [default] case of a handler's switch: [assert(mask & event)]. *)
Definition assert_in_mask (mask : cyaml_event_t) (event : yaml_event_t)
  : M cyaml_err_t :=
  if Z.land mask (cyaml__get_event_type event) =? 0 then stop AssertionFailed
  else ret CYAML_OK.

(** YAML loading handler for the [CYAML_STATE_START] state. *)
Definition cyaml__read_start : M cyaml_err_t :=
  let mask := CYAML_EVT_STREAM_START in
  got <- cyaml_get_next_event mask ;;
  let event := snd got in
  if is_err (fst got) then ret (fst got)
  else if cyaml__get_event_type event =? CYAML_EVT_STREAM_START then
    st <- deref_state ;;
    cyaml__stack_push CYAML_STATE_IN_STREAM (schema st) (data st)
  else assert_in_mask mask event.

(** YAML loading handler for the [CYAML_STATE_IN_STREAM] state. *)
Definition cyaml__read_stream : M cyaml_err_t :=
  let mask := Z.lor CYAML_EVT_DOC_START CYAML_EVT_STREAM_END in
  got <- cyaml_get_next_event mask ;;
  let event := snd got in
  if is_err (fst got) then ret (fst got)
  else if cyaml__get_event_type event =? CYAML_EVT_DOC_START then
    st <- deref_state ;;
    cyaml__stack_push CYAML_STATE_IN_DOC (schema st) (data st)
  else if cyaml__get_event_type event =? CYAML_EVT_STREAM_END then
    cyaml__stack_pop
  else assert_in_mask mask event.

(** YAML loading handler for the [CYAML_STATE_IN_DOC] state. *)
Definition cyaml__read_doc : M cyaml_err_t :=
  let mask := Z.lor CYAML_EVT_MAPPING_START CYAML_EVT_DOC_END in
  got <- cyaml_get_next_event mask ;;
  let event := snd got in
  if is_err (fst got) then ret (fst got)
  else if cyaml__get_event_type event =? CYAML_EVT_MAPPING_START then
    st <- deref_state ;;
    cyaml__stack_push CYAML_STATE_IN_MAPPING (schema st) (data st)
  else if cyaml__get_event_type event =? CYAML_EVT_DOC_END then
    cyaml__stack_pop
  else assert_in_mask mask event.

(** YAML loading handler for the [CYAML_MAPPING_STATE_KEY] sub-state of the
    [CYAML_STATE_IN_MAPPING] state. *)
Definition cyaml__read_mapping_key : M cyaml_err_t :=
  let mask := Z.lor CYAML_EVT_SCALAR CYAML_EVT_MAPPING_END in
  got <- cyaml_get_next_event mask ;;
  let event := snd got in
  if is_err (fst got) then ret (fst got)
  else if cyaml__get_event_type event =? CYAML_EVT_SCALAR then
    match ev_scalar_value event with
    | None => stop InvalidAccess
    | Some k =>
        st <- deref_state ;;
        let idx := cyaml__get_entry_from_mapping_schema
                     (st_mapping_schema st) k in
        _ <- update_state (set_mapping_schema_idx idx) ;;
        if idx =? CYAML_SCHEMA_IDX_NONE then ret CYAML_ERR_INVALID_KEY
        else
          _ <- update_state (set_mapping_state CYAML_MAPPING_STATE_VALUE) ;;
          ret CYAML_OK
    end
  else if cyaml__get_event_type event =? CYAML_EVT_MAPPING_END then
    cyaml__stack_pop
  else assert_in_mask mask event.

(** YAML loading handler for the [CYAML_MAPPING_STATE_VALUE] sub-state of the
    [CYAML_STATE_IN_MAPPING] state. *)
Definition cyaml__read_mapping_value : M cyaml_err_t :=
  let mask := Z.lor (Z.lor CYAML_EVT_SCALAR CYAML_EVT_SEQ_START)
                    CYAML_EVT_MAPPING_START in
  st <- deref_state ;;
  match st_mapping_schema st !! Z.to_nat (st_mapping_schema_idx st) with
  | None => stop InvalidAccess
  | Some entry =>
      let dat := data st + data_offset entry in
      got <- cyaml_get_next_event mask ;;
      if is_err (fst got) then ret (fst got)
      else
        _ <- update_state (set_mapping_state CYAML_MAPPING_STATE_KEY) ;;
        cyaml__read_value (value entry) dat (snd got)
  end.

(** YAML loading handler for the [CYAML_STATE_IN_MAPPING] state. *)
Definition cyaml__read_mapping : M cyaml_err_t :=
  st <- deref_state ;;
  match st_mapping_state st with
  | CYAML_MAPPING_STATE_KEY => cyaml__read_mapping_key
  | CYAML_MAPPING_STATE_VALUE => cyaml__read_mapping_value
  end.

(** YAML loading handler for the [CYAML_STATE_IN_SEQUENCE] state. *)
Definition cyaml__read_sequence : M cyaml_err_t :=
  let mask := Z.lor (Z.lor (Z.lor CYAML_EVT_MAPPING_START CYAML_EVT_SEQ_START)
                           CYAML_EVT_SEQ_END) CYAML_EVT_SCALAR in
  got <- cyaml_get_next_event mask ;;
  let event := snd got in
  let t := cyaml__get_event_type event in
  if is_err (fst got) then ret (fst got)
  else if (t =? CYAML_EVT_SCALAR) || (t =? CYAML_EVT_SEQ_START)
          || (t =? CYAML_EVT_MAPPING_START) then
    cyaml__new_sequence_entry event
  else if t =? CYAML_EVT_SEQ_END then cyaml__stack_pop
  else ret CYAML_ERR_INTERNAL_ERROR.

(** ** The drive loop and the entry points *)

(** The table of handlers of [cyaml__load], called on the state of the
    current entry: [fn[ctx.state->state](&ctx)]. *)
Definition read_fn (s : cyaml_state_e) : M cyaml_err_t :=
  match s with
  | CYAML_STATE_START => cyaml__read_start
  | CYAML_STATE_IN_STREAM => cyaml__read_stream
  | CYAML_STATE_IN_DOC => cyaml__read_doc
  | CYAML_STATE_IN_MAPPING => cyaml__read_mapping
  | CYAML_STATE_IN_SEQUENCE => cyaml__read_sequence
  end.

(** One round of the loop of [cyaml__load]. *)
Definition drive_step : M cyaml_err_t :=
  st <- deref_state ;;
  read_fn (state st).

(** [do { err = fn[...](&ctx); if (err != CYAML_OK) goto out; }
     while (ctx.state->state > CYAML_STATE_START);]
    run for [fuel] rounds at most. *)
Fixpoint drive_loop (fuel : nat) : M cyaml_err_t :=
  match fuel with
  | O => stop OutOfFuel
  | S k =>
      err <- drive_step ;;
      if is_err err then ret err
      else
        st <- deref_state ;;
        if bool_decide (state st <> CYAML_STATE_START) then drive_loop k
        else ret CYAML_OK
  end.

(** [while (ctx.stack_idx > 0) cyaml__stack_pop(&ctx);] *)
Fixpoint unwind_stack (fuel : nat) : M unit :=
  c <- get_ctx ;;
  if 0 <? stack_idx c then
    match fuel with
    | O => stop OutOfFuel
    | S k => _ <- cyaml__stack_pop ;; unwind_stack k
    end
  else ret tt.

(** [free(ctx.stack)] *)
Definition free_stack : M unit :=
  c <- get_ctx ;;
  put_ctx (set_stack c []).

(** [cyaml__load] from the push of the first entry to the label [out]: the
    code at the label and what [*data_out] holds there.  [dat] is the root
    the function has allocated, [data_out] what the caller's pointer holds
    on entry. *)
Definition load_body (sch : cyaml_schema_type_t) (dat data_out : Z)
    (fuel : nat) : M (cyaml_err_t * Z) :=
  err <- cyaml__stack_push CYAML_STATE_START sch dat ;;
  if is_err err then ret (err, data_out)
  else
    _ <- update_state (set_data dat) ;;
    err <- drive_loop fuel ;;
    if is_err err then ret (err, data_out)
    else
      err <- cyaml__stack_pop ;;
      if is_err err then ret (err, data_out)
      else
        c <- get_ctx ;;
        if stack_idx c =? 0 then ret (CYAML_OK, dat)
        else stop AssertionFailed.

(** The main YAML loading function.  [data_out] is what the caller's pointer
    [*data_out] holds on entry; the result is the code returned and what the
    pointer holds on return.  Every round of the loop takes one result of
    the parser, and past the end of the parser's results every handler fails:
    one round more than the parser has results is all the loop can run. *)
Definition cyaml__load (cfg : cyaml_config_t) (sch : cyaml_schema_type_t)
    (data_out : Z) (yaml_parser : list (option yaml_event_t))
  : M (cyaml_err_t * Z) :=
  _ <- put_ctx (mk_ctx cfg None [] 0 0 yaml_parser) ;;
  dat <- calloc (data_size sch) ;;
  if dat =? 0 then ret (CYAML_ERR_OOM, data_out)
  else
    res <- load_body sch dat data_out (S (length yaml_parser)) ;;
    _ <- (if is_err (fst res) then cyaml_free sch dat else ret tt) ;;
    c <- get_ctx ;;
    _ <- unwind_stack (Z.to_nat (stack_idx c)) ;;
    _ <- free_stack ;;
    ret res.

(** Check that common load params from client are valid.  A pointer is
    [None] when it is NULL. *)
Definition cyaml__validate_load_params (cfg : option cyaml_config_t)
    (sch : option cyaml_schema_type_t) (data_tgt : option Z) : cyaml_err_t :=
  match cfg with
  | None => CYAML_ERR_BAD_PARAM_NULL_CONFIG
  | Some _ =>
      match sch with
      | None => CYAML_ERR_BAD_PARAM_NULL_SCHEMA
      | Some s =>
          if bool_decide (type s <> CYAML_MAPPING) then
            CYAML_ERR_BAD_TOP_LEVEL_TYPE
          else
            match data_tgt with
            | None => CYAML_ERR_BAD_PARAM_NULL_DATA
            | Some _ => CYAML_OK
            end
      end
  end.

(** [yaml_parser_initialize]: whether it succeeds is the environment's. *)
Definition yaml_parser_initialize : M bool :=
  fun m => Returns (parser_init_ok (env m)) m.

(** [fopen(path, "r")]: the file, as the results the parser will deliver on
    it, or [None] for NULL. *)
Definition fopen (path : string) : M (option (list (option yaml_event_t))) :=
  fun m =>
    Returns (snd <$> List.find (fun f => String.eqb (fst f) path)
                               (files (env m))) m.

(** The part of the two entry points after the parameters are validated and
    the parser is set up. *)
Definition load_validated (cfg : option cyaml_config_t)
    (sch : option cyaml_schema_type_t) (data_out : option Z)
    (yaml_parser : list (option yaml_event_t))
  : M (cyaml_err_t * option Z) :=
  match cfg, sch, data_out with
  | Some c, Some s, Some d =>
      res <- cyaml__load c s d yaml_parser ;;
      ret (fst res, Some (snd res))
  | _, _, _ => stop InvalidAccess
  end.

(** Exported function [cyaml_load_file]. *)
Definition cyaml_load_file (path : string) (cfg : option cyaml_config_t)
    (sch : option cyaml_schema_type_t) (data_out : option Z)
  : M (cyaml_err_t * option Z) :=
  let err := cyaml__validate_load_params cfg sch data_out in
  if is_err err then ret (err, data_out)
  else
    file <- fopen path ;;
    match file with
    | None => ret (CYAML_ERR_FILE_OPEN, data_out)
    | Some contents =>
        ok <- yaml_parser_initialize ;;
        if ok : bool then load_validated cfg sch data_out contents
        else ret (CYAML_ERR_LIBYAML_PARSER_INIT, data_out)
    end.

(** Exported function [cyaml_load_data].  [input] stands for the bytes and
    their length: the results the parser will deliver on them. *)
Definition cyaml_load_data (input : list (option yaml_event_t))
    (cfg : option cyaml_config_t) (sch : option cyaml_schema_type_t)
    (data_out : option Z) : M (cyaml_err_t * option Z) :=
  let err := cyaml__validate_load_params cfg sch data_out in
  if is_err err then ret (err, data_out)
  else
    ok <- yaml_parser_initialize ;;
    if ok : bool then load_validated cfg sch data_out input
    else ret (CYAML_ERR_LIBYAML_PARSER_INIT, data_out).

(** ** Notions the properties are stated with *)

(** The kind [t] is one of those [mask] accepts. *)
Definition in_mask (t : yaml_event_type_t) (mask : cyaml_event_t) : bool :=
  Z.testbit mask (yaml_event_type_code t).

(** The machine with the first result of the parser taken. *)
Definition parser_advanced (m : machine) : machine :=
  let c := ctx m in
  set_ctx (mk_ctx (config c) (ctx_state c) (stack c) (stack_idx c)
                  (stack_max c) (tl (parser c))) m.

(** The next result of the parser: past the end, an event of kind
    [YAML_NO_EVENT]. *)
Definition parser_head (m : machine) : option yaml_event_t :=
  match parser (ctx m) with
  | [] => Some no_event
  | r :: _ => r
  end.

(** What a call returned, when it returned. *)
Definition result_of {A : Type} (o : outcome A) : option A :=
  match o with
  | Returns a _ => Some a
  | Stops _ => None
  end.

(** The machine a call left, when it returned. *)
Definition machine_of {A : Type} (o : outcome A) : option machine :=
  match o with
  | Returns _ m => Some m
  | Stops _ => None
  end.

(** The five scalar kinds of the value handler. *)
Definition is_scalar_kind (t : cyaml_type_e) : bool :=
  match t with
  | CYAML_INT | CYAML_UINT | CYAML_BOOL | CYAML_ENUM | CYAML_STRING => true
  | _ => false
  end.

(** ** Concrete inputs *)

(** A machine before any load: an empty heap, the allocator's plan, the
    value of [errno]. *)
Definition start_machine (plan : list alloc_outcome) (err : Z) : machine :=
  mk_machine (mk_ctx (mk_config 0) None [] 0 0 []) ∅ ∅ 0 plan err []
             (mk_environment true []).

Definition plain_event (t : yaml_event_type_t) : yaml_event_t :=
  mk_event t None.

Definition scalar_event (text : string) : yaml_event_t :=
  mk_event YAML_SCALAR_EVENT (Some text).

(** The events of a stream of one document whose root is a mapping with the
    given events between its start and its end. *)
Definition document (body : list yaml_event_t) : list (option yaml_event_t) :=
  Some <$> ([plain_event YAML_STREAM_START_EVENT;
             plain_event YAML_DOCUMENT_START_EVENT;
             plain_event YAML_MAPPING_START_EVENT]
            ++ body
            ++ [plain_event YAML_MAPPING_END_EVENT;
                plain_event YAML_DOCUMENT_END_EVENT;
                plain_event YAML_STREAM_END_EVENT]).

(** [n] rounds of the loop of [cyaml__load], whatever the state they end
    in. *)
Fixpoint drive_rounds (n : nat) : M cyaml_err_t :=
  match n with
  | O => ret CYAML_OK
  | S k =>
      err <- drive_step ;;
      if is_err err then ret err else drive_rounds k
  end.

(** [cyaml__load] from its entry to the end of the [n]-th round of its
    loop. *)
Definition load_rounds (cfg : cyaml_config_t) (sch : cyaml_schema_type_t)
    (yaml_parser : list (option yaml_event_t)) (n : nat) : M cyaml_err_t :=
  _ <- put_ctx (mk_ctx cfg None [] 0 0 yaml_parser) ;;
  dat <- calloc (data_size sch) ;;
  if dat =? 0 then ret CYAML_ERR_OOM
  else
    err <- cyaml__stack_push CYAML_STATE_START sch dat ;;
    if is_err err then ret err
    else
      _ <- update_state (set_data dat) ;;
      drive_rounds n.

(** The machine [n] rounds into the load of [yaml_parser]. *)
Definition machine_after (sch : cyaml_schema_type_t)
    (yaml_parser : list (option yaml_event_t)) (n : nat)
    (plan : list alloc_outcome) : machine :=
  match load_rounds (mk_config 0) sch yaml_parser n (start_machine plan 0) with
  | Returns _ m => m
  | Stops _ => start_machine plan 0
  end.

(** [{a: <node>}], the node at offset 0 of an aggregate of [size] bytes. *)
Definition one_field (size : Z) (node : cyaml_schema_type_t)
  : cyaml_schema_type_t :=
  mapping_node 0 size [mk_schema_mapping "a"%string 0 node].

(** The document [a: <text>]. *)
Definition a_is (text : string) : list (option yaml_event_t) :=
  document [scalar_event "a"; scalar_event text].

(** The document [a: [<texts>]]. *)
Definition a_lists (texts : list string) : list (option yaml_event_t) :=
  document ([scalar_event "a"; plain_event YAML_SEQUENCE_START_EVENT]
            ++ (scalar_event <$> texts)
            ++ [plain_event YAML_SEQUENCE_END_EVENT]).

(** A load context whose stack is full at a capacity of [cap] entries. *)
Definition full_stack_machine (cap : nat) : machine :=
  let filler := blank_state (scalar_node CYAML__TYPE_COUNT 0 0) in
  mk_machine (mk_ctx (mk_config 0) (Some (Z.of_nat cap - 1))
                     (replicate cap filler) (Z.of_nat cap) (Z.of_nat cap) [])
             ∅ ∅ 0 [] 0 [] (mk_environment true []).

(** By how many entries the capacity grows when the stack is full at [cap]
    entries and another is asked for. *)
Definition growth_step (cap : nat) : option Z :=
  match cyaml__stack_ensure (full_stack_machine cap) with
  | Returns CYAML_OK m => Some (stack_max (ctx m) - Z.of_nat cap)
  | _ => None
  end.

(** [n] mappings nested in each other around an INT of four bytes, and the
    document that fills them: [a: {a: {... a: 7}}]. *)
Fixpoint nested_node (n : nat) : cyaml_schema_type_t :=
  match n with
  | O => scalar_node CYAML_INT 0 4
  | S k => one_field 4 (nested_node k)
  end.

Definition nested_document (n : nat) : list (option yaml_event_t) :=
  Some <$> ([plain_event YAML_STREAM_START_EVENT;
             plain_event YAML_DOCUMENT_START_EVENT]
            ++ concat (replicate n [plain_event YAML_MAPPING_START_EVENT;
                                    scalar_event "a"])
            ++ [scalar_event "7"]).

(** ** Relations between the machine before and after a call *)

(** A call respects [R] when the machine it leaves, if it returns, is
    related by [R] to the machine it started on. *)
Definition preserves {A : Type} (R : machine -> machine -> Prop) (c : M A)
  : Prop :=
  forall m a m', c m = Returns a m' -> R m m'.

(** A call never stops because a bound of the model was reached. *)
Definition within_fuel {A : Type} (c : M A) : Prop :=
  forall m, c m <> Stops OutOfFuel.

(** What no function of the engine but [cyaml__load] itself changes: the
    calls of the free routine made so far and the environment; the parser
    only loses results, and the count of stack entries stays a count. *)
Definition engine_frame (m m' : machine) : Prop :=
  free_log m' = free_log m
  /\ env m' = env m
  /\ (length (parser (ctx m')) <= length (parser (ctx m)))%nat
  /\ (0 <= stack_idx (ctx m) -> 0 <= stack_idx (ctx m')).

(** Two load contexts that differ in the current stack entry at most. *)
Definition same_but_current (c c1 : cyaml_ctx_t) : Prop :=
  config c1 = config c
  /\ ctx_state c1 = ctx_state c
  /\ stack_idx c1 = stack_idx c
  /\ stack_max c1 = stack_max c
  /\ parser c1 = parser c
  /\ length (stack c1) = length (stack c)
  /\ forall (i : Z) (j : nat),
       ctx_state c = Some i -> j <> Z.to_nat i ->
       stack c1 !! j = stack c !! j.

(** Two machines with the same heap: the bytes stored and the live blocks. *)
Definition heap_same (m m' : machine) : Prop :=
  heap_bytes m' = heap_bytes m /\ heap_blocks m' = heap_blocks m.

(** The current stack entry of a machine that has one. *)
Definition current_entry (m : machine) : cyaml_state_t :=
  default (blank_state (scalar_node CYAML__TYPE_COUNT 0 0))
          (cur_entry (ctx m)).

(** The count field of the parent of the sequence entry [st], read as an
    unsigned integer of its width. *)
Definition count_field (st : cyaml_state_t) (m : machine) : option Z :=
  load_le (Z.to_nat (st_sequence_count_size st)) (st_sequence_count_data st)
          (heap_bytes m).

(** A load context in order: at least one entry on the stack,
    [ctx->state] pointing to the top one, the buffer as long as the capacity
    says, and the capacity below the 32-bit wrap-around of its next growth. *)
Definition ctx_wf (c : cyaml_ctx_t) : Prop :=
  1 <= stack_idx c
  /\ stack_idx c <= stack_max c
  /\ stack_max c + 16 < 2 ^ 32
  /\ ctx_state c = Some (stack_idx c - 1)
  /\ length (stack c) = Z.to_nat (stack_max c).

(** The sequence entry [st] holds [n] elements: it is an entry of a
    sequence, its count is [n], and when the sequence node carries the
    owning-pointer flag its block is [n] elements of [data_size] bytes long
    (no block yet when [n] is 0). *)
Definition sequence_frame_holds (st : cyaml_state_t) (m : machine) (n : Z)
  : Prop :=
  state st = CYAML_STATE_IN_SEQUENCE
  /\ st_sequence_count st = n
  /\ (has_pointer_flag (schema st) = true ->
      if n =? 0 then st_sequence_data st = 0
      else heap_blocks m !! st_sequence_data st
           = Some (data_size (schema st) * n)).

(** ** Notions the further properties are stated with *)

(** Two machines whose parsers have the same results left. *)
Definition parser_kept (m m' : machine) : Prop :=
  parser (ctx m') = parser (ctx m).

(** The events the handler of the state of the entry [st] asks the pump
    for: the mask each handler of load.c calls [cyaml_get_next_event]
    with. *)
Definition expected_events (st : cyaml_state_t) : cyaml_event_t :=
  match state st with
  | CYAML_STATE_START => CYAML_EVT_STREAM_START
  | CYAML_STATE_IN_STREAM => Z.lor CYAML_EVT_DOC_START CYAML_EVT_STREAM_END
  | CYAML_STATE_IN_DOC => Z.lor CYAML_EVT_MAPPING_START CYAML_EVT_DOC_END
  | CYAML_STATE_IN_MAPPING =>
      match st_mapping_state st with
      | CYAML_MAPPING_STATE_KEY =>
          Z.lor CYAML_EVT_SCALAR CYAML_EVT_MAPPING_END
      | CYAML_MAPPING_STATE_VALUE =>
          Z.lor (Z.lor CYAML_EVT_SCALAR CYAML_EVT_SEQ_START)
                CYAML_EVT_MAPPING_START
      end
  | CYAML_STATE_IN_SEQUENCE =>
      Z.lor (Z.lor (Z.lor CYAML_EVT_MAPPING_START CYAML_EVT_SEQ_START)
                   CYAML_EVT_SEQ_END) CYAML_EVT_SCALAR
  end.

(** The machine one round of the loop later. *)
Definition after_step (m : machine) : machine :=
  match drive_step m with
  | Returns _ m' => m'
  | Stops _ => m
  end.

(** [cyaml__load] from the label [out] on, [res] being the code at the label
    and what [*data_out] holds there, [dat] the root. *)
Definition load_out (sch : cyaml_schema_type_t) (dat : Z)
    (res : cyaml_err_t * Z) : M (cyaml_err_t * Z) :=
  _ <- (if is_err (fst res) then cyaml_free sch dat else ret tt) ;;
  c <- get_ctx ;;
  _ <- unwind_stack (Z.to_nat (stack_idx c)) ;;
  _ <- free_stack ;;
  ret res.

(** * Properties *)

(** ** The event pump *)

Lemma land_bit_eqb (c mask : Z) :
  0 <= c -> (Z.land (Z.shiftl 1 c) mask =? 0) = negb (Z.testbit mask c).
Proof.
  intros Hc. rewrite Z.shiftl_1_l.
  destruct (Z.testbit mask c) eqn:Hb; simpl.
  - apply Z.eqb_neq. intros H0.
    assert (Hbit : Z.testbit (Z.land (2 ^ c) mask) c = true).
    { rewrite Z.land_spec, Z.pow2_bits_true, Hb by lia. reflexivity. }
    rewrite H0, Z.bits_0 in Hbit. discriminate.
  - apply Z.eqb_eq, Z.bits_inj'. intros n Hn.
    rewrite Z.land_spec, Z.bits_0, Z.pow2_bits_eqb by lia.
    destruct (Z.eqb_spec c n) as [->|]; [rewrite Hb|]; reflexivity.
Qed.

Lemma yaml_event_type_code_nonneg (t : yaml_event_type_t) :
  0 <= yaml_event_type_code t.
Proof. destruct t; simpl; lia. Qed.

Lemma event_outside_mask (event : yaml_event_t) (mask : cyaml_event_t) :
  (Z.land (cyaml__get_event_type event) mask =? 0)
  = negb (in_mask (ev_type event) mask).
Proof.
  unfold cyaml__get_event_type, in_mask.
  apply land_bit_eqb, yaml_event_type_code_nonneg.
Qed.

Lemma yaml_parser_parse_eq (m : machine) :
  yaml_parser_parse m
  = Returns (parser_head m)
            (match parser (ctx m) with [] => m | _ => parser_advanced m end).
Proof.
  unfold yaml_parser_parse, parser_head, parser_advanced.
  destruct (parser (ctx m)); reflexivity.
Qed.

(** The event pump, case by case. *)
Lemma get_next_event_eq (mask : cyaml_event_t) (m : machine) :
  cyaml_get_next_event mask m =
    let m' := match parser (ctx m) with [] => m | _ => parser_advanced m end in
    match parser_head m with
    | None => Returns (CYAML_ERR_LIBYAML_PARSER, no_event) m'
    | Some event =>
        if decide (ev_type event = YAML_ALIAS_EVENT) then
          Returns (CYAML_ERR_ALIAS, no_event) m'
        else if in_mask (ev_type event) mask then
          Returns (CYAML_OK, event) m'
        else Returns (CYAML_ERR_UNEXPECTED_EVENT, no_event) m'
    end.
Proof.
  unfold cyaml_get_next_event, bind. rewrite yaml_parser_parse_eq.
  cbv zeta.
  destruct (parser_head m) as [event|]; [|reflexivity].
  destruct (decide (ev_type event = YAML_ALIAS_EVENT)); [reflexivity|].
  rewrite event_outside_mask.
  destruct (in_mask (ev_type event) mask); reflexivity.
Qed.

(** C7.  The event pump calls the producer once.  If the producer fails the
    pump returns LIBYAML_PARSER; else if the event produced is an alias
    event it returns ALIAS, whatever the mask; else if the kind of the event
    is outside the mask it returns UNEXPECTED_EVENT; otherwise it returns OK
    with that event.  In every case the machine is left as the producer left
    it. *)
Theorem cyaml_get_next_event_cases (mask : cyaml_event_t) (m : machine) :
  exists m',
    yaml_parser_parse m = Returns (parser_head m) m' /\
    cyaml_get_next_event mask m =
      match parser_head m with
      | None => Returns (CYAML_ERR_LIBYAML_PARSER, no_event) m'
      | Some event =>
          if decide (ev_type event = YAML_ALIAS_EVENT) then
            Returns (CYAML_ERR_ALIAS, no_event) m'
          else if in_mask (ev_type event) mask then
            Returns (CYAML_OK, event) m'
          else Returns (CYAML_ERR_UNEXPECTED_EVENT, no_event) m'
      end.
Proof.
  eexists. split; [apply yaml_parser_parse_eq|].
  apply get_next_event_eq.
Qed.

(** ** The entry points *)

(** C8.  Validation of the parameters of an entry point: a null config gives
    BAD_PARAM_NULL_CONFIG; with a config, a null schema gives
    BAD_PARAM_NULL_SCHEMA; with both, a top-level schema that is no mapping
    gives BAD_TOP_LEVEL_TYPE; with a top-level mapping, a null output pointer
    gives BAD_PARAM_NULL_DATA.  Both entry points return the code of a failed
    validation at once: the machine is as it was (nothing is opened,
    allocated or parsed) and the output pointer is as it was. *)
Theorem load_params_validated_first
    (c : cyaml_config_t) (s : cyaml_schema_type_t)
    (cfg : option cyaml_config_t) (sch : option cyaml_schema_type_t)
    (data_out : option Z) (path : string)
    (input : list (option yaml_event_t)) (m : machine) :
  cyaml__validate_load_params None sch data_out
    = CYAML_ERR_BAD_PARAM_NULL_CONFIG
  /\ cyaml__validate_load_params (Some c) None data_out
    = CYAML_ERR_BAD_PARAM_NULL_SCHEMA
  /\ (type s <> CYAML_MAPPING ->
      cyaml__validate_load_params (Some c) (Some s) data_out
      = CYAML_ERR_BAD_TOP_LEVEL_TYPE)
  /\ (type s = CYAML_MAPPING ->
      cyaml__validate_load_params (Some c) (Some s) None
      = CYAML_ERR_BAD_PARAM_NULL_DATA)
  /\ (cyaml__validate_load_params cfg sch data_out <> CYAML_OK ->
      cyaml_load_data input cfg sch data_out m
      = Returns (cyaml__validate_load_params cfg sch data_out, data_out) m
      /\ cyaml_load_file path cfg sch data_out m
      = Returns (cyaml__validate_load_params cfg sch data_out, data_out) m).
Proof.
  repeat split.
  - intros Ht. simpl. rewrite bool_decide_true by assumption. reflexivity.
  - intros Ht. simpl. rewrite bool_decide_false by (rewrite Ht; auto).
    reflexivity.
  - unfold cyaml_load_data.
    destruct (cyaml__validate_load_params cfg sch data_out); try reflexivity.
    contradiction.
  - unfold cyaml_load_file.
    destruct (cyaml__validate_load_params cfg sch data_out); try reflexivity.
    contradiction.
Qed.

(** ** The value handler *)

Lemma event_type_eqb (event : yaml_event_t) (t : yaml_event_type_t) :
  (cyaml__get_event_type event =? Z.shiftl 1 (yaml_event_type_code t))
  = bool_decide (ev_type event = t).
Proof.
  unfold cyaml__get_event_type.
  destruct (decide (ev_type event = t)) as [->|Hne].
  - rewrite bool_decide_true by reflexivity. apply Z.eqb_refl.
  - rewrite bool_decide_false by assumption.
    apply Z.eqb_neq. intros Heq. apply Hne.
    destruct (ev_type event), t; vm_compute in Heq;
      first [reflexivity | discriminate].
Qed.

Lemma event_is_scalar (event : yaml_event_t) :
  (cyaml__get_event_type event =? CYAML_EVT_SCALAR)
  = bool_decide (ev_type event = YAML_SCALAR_EVENT).
Proof. apply event_type_eqb. Qed.

(** The value handler on a node that is no sequence: the placement engine
    first, whatever it returns, then the switch on the kind. *)
Lemma read_value_placement_first (sch : cyaml_schema_type_t) (dat : Z)
    (event : yaml_event_t) (m : machine) :
  type sch <> CYAML_SEQUENCE -> type sch <> CYAML_SEQUENCE_FIXED ->
  cyaml__read_value sch dat event m =
    match cyaml__data_handle_pointer sch event dat m with
    | Stops r => Stops r
    | Returns placed m1 =>
        match type sch with
        | CYAML_INT | CYAML_UINT | CYAML_BOOL | CYAML_ENUM | CYAML_STRING =>
            if bool_decide (ev_type event = YAML_SCALAR_EVENT) then
              cyaml__read_scalar_value sch (snd placed) event m1
            else Returns CYAML_ERR_INVALID_VALUE m1
        | CYAML_FLAGS | CYAML_IGNORE => Returns CYAML_OK m1
        | CYAML_MAPPING =>
            if bool_decide (ev_type event = YAML_MAPPING_START_EVENT) then
              cyaml__stack_push CYAML_STATE_IN_MAPPING sch (snd placed) m1
            else Returns CYAML_ERR_INVALID_VALUE m1
        | _ => Returns CYAML_ERR_BAD_TYPE_IN_SCHEMA m1
        end
    end.
Proof.
  intros Hs Hf. unfold cyaml__read_value, bind.
  rewrite !bool_decide_true by assumption. simpl.
  destruct (cyaml__data_handle_pointer sch event dat m) as [placed m1|r];
    [|reflexivity].
  unfold ret.
  destruct (type sch) eqn:Ht; try congruence;
    rewrite ?event_is_scalar;
    try (change CYAML_EVT_MAPPING_START
           with (Z.shiftl 1 (yaml_event_type_code YAML_MAPPING_START_EVENT));
         rewrite event_type_eqb);
    try reflexivity;
    match goal with |- context [bool_decide ?P] => destruct (bool_decide P) end;
    reflexivity.
Qed.

(** The placement engine does nothing on a node without the owning-pointer
    flag. *)
Lemma data_handle_pointer_inline (sch : cyaml_schema_type_t)
    (event : yaml_event_t) (dat : Z) (m : machine) :
  has_pointer_flag sch = false ->
  cyaml__data_handle_pointer sch event dat m = Returns (CYAML_OK, dat) m.
Proof.
  intros Hf. unfold cyaml__data_handle_pointer. rewrite Hf. reflexivity.
Qed.




(** X22.  The value handler on a node of kind INT, UINT, BOOL, ENUM or
    STRING, once the placement engine has returned OK: an event that is not
    SCALAR is answered with INVALID_VALUE, on the machine the placement
    left; a SCALAR event on an INT node goes to the INT decoder, on the
    placed target, and the decoder's result is the handler's. *)
Theorem read_value_scalar_kinds (sch : cyaml_schema_type_t) (dat : Z)
    (event : yaml_event_t) (m : machine) (placed : Z) (m1 : machine) :
  is_scalar_kind (type sch) = true ->
  cyaml__data_handle_pointer sch event dat m = Returns (CYAML_OK, placed) m1 ->
  (ev_type event <> YAML_SCALAR_EVENT ->
   cyaml__read_value sch dat event m = Returns CYAML_ERR_INVALID_VALUE m1)
  /\ (forall text : string,
        event = scalar_event text -> type sch = CYAML_INT ->
        cyaml__read_value sch dat event m = cyaml__read_int sch text placed m1).
Proof.
  intros Hk Hp.
  assert (Heq := read_value_placement_first sch dat event m).
  rewrite Hp in Heq. simpl in Heq.
  split.
  - intros Hne. rewrite Heq by (intros E; rewrite E in Hk; discriminate).
    rewrite bool_decide_false by assumption.
    destruct (type sch); try discriminate; reflexivity.
  - intros text -> Ht.
    rewrite Heq by (rewrite Ht; discriminate).
    rewrite Ht. simpl. unfold cyaml__read_scalar_value. rewrite Ht.
    reflexivity.
Qed.

(** The theorem at an INT node of four bytes without the owning-pointer
    flag and the scalar event [7]. *)
Lemma read_value_scalar_kinds_witness :
  cyaml__read_value (scalar_node CYAML_INT 0 4) 64 (scalar_event "7")
                    (start_machine [] 0)
  = cyaml__read_int (scalar_node CYAML_INT 0 4) "7" 64 (start_machine [] 0).
Proof.
  apply (read_value_scalar_kinds (scalar_node CYAML_INT 0 4) 64
           (scalar_event "7") (start_machine [] 0) 64 (start_machine [] 0));
    reflexivity.
Defined.

(** The table of decoders of [cyaml__read_scalar_value] has an entry for
    [CYAML_INT] only: called on a node of one of the four other scalar
    kinds, the function fails its assertion that an entry exists. *)
Lemma read_scalar_value_without_decoder (sch : cyaml_schema_type_t) (dat : Z)
    (event : yaml_event_t) (m : machine) :
  is_scalar_kind (type sch) = true -> type sch <> CYAML_INT ->
  cyaml__read_scalar_value sch dat event m = Stops AssertionFailed.
Proof.
  intros Hk Hni. unfold cyaml__read_scalar_value.
  destruct (type sch); try discriminate; try congruence; reflexivity.
Qed.

(** C2, the failing inputs.  The claim has the decoder of the kind run and
    produce the result of the value for each of the five scalar kinds.  The
    value handler does send the five kinds to [cyaml__read_scalar_value],
    and that function asserts that its table has a decoder for the kind;
    the table has one for INT only.  So the load of [a: 7] against
    [{a: UINT}], of [a: true] against [{a: BOOL}], of [a: red] against
    [{a: ENUM}] and of [a: text] against [{a: STRING}] each stop at the
    assertion, where the load of [a: 7] against [{a: INT}] returns OK with 7
    stored in the root. *)
Theorem load_scalar_without_decoder_fails_assertion :
  cyaml__load (mk_config 0) (one_field 4 (scalar_node CYAML_UINT 0 4)) 0
              (a_is "7") (start_machine [] 0)
  = Stops AssertionFailed
  /\ cyaml__load (mk_config 0) (one_field 4 (scalar_node CYAML_BOOL 0 4)) 0
                 (a_is "true") (start_machine [] 0)
     = Stops AssertionFailed
  /\ cyaml__load (mk_config 0) (one_field 4 (scalar_node CYAML_ENUM 0 4)) 0
                 (a_is "red") (start_machine [] 0)
     = Stops AssertionFailed
  /\ cyaml__load (mk_config 0) (one_field 8 (scalar_node CYAML_STRING 0 8)) 0
                 (a_is "text") (start_machine [] 0)
     = Stops AssertionFailed
  /\ cyaml__read_value (scalar_node CYAML_UINT 0 4) 64 (scalar_event "7")
                       (start_machine [] 0)
     = Stops AssertionFailed
  /\ exists m', cyaml__load (mk_config 0)
                            (one_field 4 (scalar_node CYAML_INT 0 4)) 0
                            (a_is "7") (start_machine [] 0)
                = Returns (CYAML_OK, block_base 0) m'
                /\ load_le 4 (block_base 0) (heap_bytes m') = Some 7.
Proof.
  split; [vm_compute; reflexivity|].
  split; [vm_compute; reflexivity|].
  split; [vm_compute; reflexivity|].
  split; [vm_compute; reflexivity|].
  split; [vm_compute; reflexivity|].
  eexists. split; vm_compute; reflexivity.
Qed.

(** C1: the value handler does not look at what the placement engine
    returned.  When the placement of an INT value fails with OOM, the
    handler goes on to the decoder, with the target the caller gave. *)
Lemma read_value_drops_placement_error (sch : cyaml_schema_type_t) (dat : Z)
    (text : string) (m m1 : machine) (err : cyaml_err_t) (placed : Z) :
  type sch = CYAML_INT ->
  cyaml__data_handle_pointer sch (scalar_event text) dat m
  = Returns (err, placed) m1 ->
  cyaml__read_value sch dat (scalar_event text) m
  = cyaml__read_int sch text placed m1.
Proof.
  intros Ht Hp.
  rewrite read_value_placement_first by (rewrite Ht; discriminate).
  rewrite Hp, Ht. simpl. unfold cyaml__read_scalar_value. rewrite Ht.
  reflexivity.
Qed.

(** C1, the failing input.  [{a: INT of 4 bytes, owning pointer}] against the
    document [a: 7], with an allocator that serves the root and the stack
    and fails the third request, the allocation for the value.  The
    placement engine returns OOM; the load returns OK all the same, with 7
    stored in the pointer slot of the root and no allocation linked. *)
Theorem load_returns_ok_after_placement_oom :
  let sch := one_field 8 (scalar_node CYAML_INT CYAML_FLAG_POINTER 4) in
  let plan := [AllocMove; AllocMove; AllocFail] in
  let m := machine_after sch (a_is "7") 4 plan in
  cyaml__data_handle_pointer (scalar_node CYAML_INT CYAML_FLAG_POINTER 4)
    (scalar_event "7") (block_base 0) (parser_advanced m)
  = Returns (CYAML_ERR_OOM, block_base 0)
            (set_errno ENOMEM
               (mk_machine (ctx (parser_advanced m)) (heap_bytes m)
                           (heap_blocks m) (heap_next m) [] (errno m)
                           (free_log m) (env m)))
  /\ exists m', cyaml__load (mk_config 0) sch 0 (a_is "7")
                            (start_machine plan 0)
                = Returns (CYAML_OK, block_base 0) m'
     /\ load_le 4 (block_base 0) (heap_bytes m') = Some 7
     /\ dom (heap_blocks m') = {[ block_base 0 ]}.
Proof.
  cbv zeta. split; [vm_compute; reflexivity|].
  eexists.
  split; [vm_compute; reflexivity|].
  split; vm_compute; reflexivity.
Qed.

(** ** The data writer and the INT decoder *)

Lemma store_le_other (n : nat) (a v x : Z) (b : gmap Z Z) :
  x < a \/ a + Z.of_nat n <= x ->
  store_le n a v b !! x = b !! x.
Proof.
  revert a v b. induction n as [|n IH]; intros a v b Hx; simpl; [reflexivity|].
  rewrite IH by lia. apply lookup_insert_ne. lia.
Qed.

Lemma load_le_agree (n : nat) (a : Z) (b b' : gmap Z Z) :
  (forall x, a <= x < a + Z.of_nat n -> b' !! x = b !! x) ->
  load_le n a b' = load_le n a b.
Proof.
  revert a. induction n as [|n IH]; intros a Hx; simpl; [reflexivity|].
  rewrite Hx by lia. rewrite (IH (a + 1)) by (intros; apply Hx; lia).
  reflexivity.
Qed.

(** Reading back what the writer stored gives the value cut to the width. *)
Lemma load_store_le (n : nat) (a v : Z) (b : gmap Z Z) :
  load_le n a (store_le n a v b) = Some (v mod 2 ^ (8 * Z.of_nat n)).
Proof.
  revert a v b. induction n as [|n IH]; intros a v b; simpl load_le.
  - simpl. rewrite Z.mod_1_r. reflexivity.
  - simpl store_le. rewrite store_le_other by lia.
    rewrite lookup_insert_eq, IH. f_equal.
    replace (8 * Z.of_nat (S n)) with (8 + 8 * Z.of_nat n) by lia.
    rewrite Z.pow_add_r by lia. change (2 ^ 8) with 256.
    rewrite Z.rem_mul_r by lia. reflexivity.
Qed.

(** The bounds [cyaml__read_int] computes for a width of 1, 2, 4 or 8
    bytes. *)
Lemma read_int_bounds (n : Z) :
  n = 1 \/ n = 2 \/ n = 4 \/ n = 8 ->
  let shift := (((8 - n) mod 2 ^ 32) * 8) mod 2 ^ 32 in
  (64 <=? shift) = false
  /\ Z.shiftr (2 ^ 64 - 1) shift / 2 = 2 ^ (8 * n - 1) - 1.
Proof.
  intros [-> | [-> | [-> | ->]]]; split; vm_compute; reflexivity.
Qed.

(** The INT decoder when [errno] is not [ERANGE] on entry.  For a width [n]
    of 1, 2, 4 or 8 bytes the decoder rejects with INVALID_VALUE when no
    digit is consumed, when the conversion reports out-of-range, or when the
    value lies outside [-2^(8n-1), 2^(8n-1) - 1]; otherwise it returns OK
    and the [n] bytes at the target hold the value in two's complement. *)
Lemma cyaml__read_int_clean_errno (sch : cyaml_schema_type_t) (text : string)
    (dat : Z) (m : machine) :
  let n := data_size sch in
  let r := strtoll text in
  n = 1 \/ n = 2 \/ n = 4 \/ n = 8 ->
  errno m <> ERANGE ->
  if Nat.eqb (sr_end r) 0 || sr_erange r
     || (sr_value r <? - 2 ^ (8 * n - 1)) || (2 ^ (8 * n - 1) - 1 <? sr_value r)
  then cyaml__read_int sch text dat m
       = Returns CYAML_ERR_INVALID_VALUE
                 (if sr_erange r then set_errno ERANGE m else m)
  else exists m',
         cyaml__read_int sch text dat m = Returns CYAML_OK m'
         /\ load_le (Z.to_nat n) dat (heap_bytes m')
            = Some (sr_value r mod 2 ^ (8 * n))
         /\ forall x, x < dat \/ dat + n <= x ->
                      heap_bytes m' !! x = heap_bytes m !! x.
Proof.
  intros n r Hn Herr. subst n r.
  destruct (read_int_bounds (data_size sch) Hn) as [Hs Hmax].
  cbv zeta in Hs, Hmax.
  unfold cyaml__read_int. rewrite Hs, Hmax.
  replace (- (2 ^ (8 * data_size sch - 1) - 1) - 1)
    with (- 2 ^ (8 * data_size sch - 1)) by lia.
  apply Z.eqb_neq in Herr.
  destruct (sr_erange (strtoll text)) eqn:He.
  - rewrite orb_true_r. simpl.
    rewrite orb_true_r. reflexivity.
  - rewrite Herr, !orb_false_r.
    destruct (Nat.eqb (sr_end (strtoll text)) 0
              || (sr_value (strtoll text) <? - 2 ^ (8 * data_size sch - 1))
              || (2 ^ (8 * data_size sch - 1) - 1 <? sr_value (strtoll text)))
      eqn:Hc; [reflexivity|].
    unfold cyaml_data_write.
    assert (Hw : (1 <=? data_size sch) && (data_size sch <=? 8) = true)
      by (destruct Hn as [-> | [-> | [-> | ->]]]; reflexivity).
    rewrite Hw. eexists. split; [reflexivity|]. simpl. split.
    + rewrite load_store_le, Z.mod_mod_divide.
      * f_equal. f_equal. f_equal. lia.
      * exists (2 ^ (64 - 8 * Z.of_nat (Z.to_nat (data_size sch)))).
        rewrite <- Z.pow_add_r by lia. f_equal. lia.
    + intros x Hx. apply store_le_other. lia.
Qed.

(** C3, the failing input.  [cyaml__read_int] tests [errno == ERANGE]
    without clearing [errno] before the conversion.  With [ERANGE] left in
    [errno] by an earlier call, the text [7] is rejected on an INT node of
    four bytes.  Two loads in a row show it: the load of
    [a: 99999999999999999999] fails and leaves [ERANGE]; the load of [a: 7]
    that follows returns INVALID_VALUE, where on a machine with a clear
    [errno] it returns OK. *)
Theorem read_int_rejects_in_range_value_after_erange :
  let node := scalar_node CYAML_INT 0 4 in
  let load text := cyaml_load_data (a_is text) (Some (mk_config 0))
                                   (Some (one_field 4 node)) (Some 0) in
  cyaml__read_int node "7" 64 (start_machine [] ERANGE)
  = Returns CYAML_ERR_INVALID_VALUE (start_machine [] ERANGE)
  /\ result_of (cyaml__read_int node "7" 64 (start_machine [] 0))
     = Some CYAML_OK
  /\ exists m1,
       load "99999999999999999999"%string (start_machine [] 0)
       = Returns (CYAML_ERR_INVALID_VALUE, Some 0) m1
       /\ errno m1 = ERANGE
       /\ result_of (load "7"%string m1) = Some (CYAML_ERR_INVALID_VALUE, Some 0)
       /\ result_of (load "7"%string (start_machine [] 0))
          = Some (CYAML_OK, Some (block_base 0)).
Proof.
  cbv zeta.
  split; [vm_compute; reflexivity|].
  split; [vm_compute; reflexivity|].
  eexists.
  split; [vm_compute; reflexivity|].
  split; [vm_compute; reflexivity|].
  split; vm_compute; reflexivity.
Qed.

(** ** The stack *)

Lemma stack_ensure_full (m : machine) :
  stack_max (ctx m) <= stack_idx (ctx m) ->
  fst (next_alloc m) <> AllocFail ->
  cyaml__stack_ensure m =
    Returns CYAML_OK
      (set_ctx (mk_ctx (config (ctx m)) (Some (stack_idx (ctx m) - 1))
                  (resize (Z.to_nat ((stack_max (ctx m) + 16) mod 2 ^ 32))
                          (blank_state (scalar_node CYAML__TYPE_COUNT 0 0))
                          (stack (ctx m)))
                  (stack_idx (ctx m)) ((stack_max (ctx m) + 16) mod 2 ^ 32)
                  (parser (ctx m)))
         (after_alloc m (heap_bytes m) (heap_blocks m) (heap_next m)
                      (errno m))).
Proof.
  intros Hfull Hplan. unfold cyaml__stack_ensure.
  destruct (Z.ltb_spec (stack_idx (ctx m)) (stack_max (ctx m))); [lia|].
  destruct (fst (next_alloc m)); [contradiction| |]; reflexivity.
Qed.

Lemma stack_ensure_room (m : machine) :
  stack_idx (ctx m) < stack_max (ctx m) ->
  cyaml__stack_ensure m = Returns CYAML_OK m.
Proof.
  intros Hroom. unfold cyaml__stack_ensure.
  destruct (Z.ltb_spec (stack_idx (ctx m)) (stack_max (ctx m))); [|lia].
  reflexivity.
Qed.

(** C9, as the code has it.  When the stack is full and its reallocation
    succeeds, the new capacity is the old capacity plus 16, computed in 32
    bits: the buffer holds that many entries, those it held before are as
    they were, and below the wrap-around of 32 bits the capacity has grown
    by exactly 16.  The chunk is constant: it does not grow with the
    capacity. *)
Theorem stack_grows_by_sixteen (m : machine) :
  stack_max (ctx m) <= stack_idx (ctx m) ->
  fst (next_alloc m) <> AllocFail ->
  exists m',
    cyaml__stack_ensure m = Returns CYAML_OK m'
    /\ stack_max (ctx m') = (stack_max (ctx m) + 16) mod 2 ^ 32
    /\ (0 <= stack_max (ctx m) -> stack_max (ctx m) + 16 < 2 ^ 32 ->
        stack_max (ctx m') = stack_max (ctx m) + 16)
    /\ length (stack (ctx m')) = Z.to_nat (stack_max (ctx m'))
    /\ (forall i : nat,
          (i < length (stack (ctx m)))%nat ->
          (i < Z.to_nat (stack_max (ctx m')))%nat ->
          stack (ctx m') !! i = stack (ctx m) !! i)
    /\ stack_idx (ctx m') = stack_idx (ctx m).
Proof.
  intros Hfull Hplan. eexists. split; [apply stack_ensure_full; assumption|].
  simpl. split; [reflexivity|]. split; [|split; [|split; [|reflexivity]]].
  - intros H0 Hlt. apply Z.mod_small. lia.
  - apply length_resize.
  - intros i Hi Hi'. rewrite lookup_resize by lia. reflexivity.
Qed.

(** The theorem on a full stack of 16 entries: the capacity becomes 32. *)
Lemma stack_grows_by_sixteen_witness :
  exists m',
    cyaml__stack_ensure (full_stack_machine 16) = Returns CYAML_OK m'
    /\ stack_max (ctx m') = 32.
Proof.
  destruct (stack_grows_by_sixteen (full_stack_machine 16))
    as (m' & He & Hmax & _); [simpl; lia | discriminate |].
  exists m'. split; [exact He | exact Hmax].
Defined.

(** C9 as stated fails: the growth is not geometric.  A geometric growth
    multiplies the capacity by a ratio above 1, so its chunk grows with the
    capacity.  Here the chunk is 16 entries at a capacity of 16, of 1024 and
    of 4096 entries alike, and the load of 62 mappings nested in each
    other, which has 65 entries on its stack, ends with a capacity of
    80 = 5 * 16 entries, where a growth by half each time would have
    reached 108 and a doubling 128. *)
Lemma stack_growth_is_not_geometric :
  growth_step 16 = Some 16
  /\ growth_step 1024 = Some 16
  /\ growth_step 4096 = Some 16
  /\ let m := machine_after (nested_node 62) (nested_document 62) 127 [] in
     stack_idx (ctx m) = 65 /\ stack_max (ctx m) = 80.
Proof.
  split; [vm_compute; reflexivity|].
  split; [vm_compute; reflexivity|].
  split; [vm_compute; reflexivity|].
  cbv zeta. split; vm_compute; reflexivity.
Qed.

(** ** What the functions of the engine leave alone *)

Section Preserves.
Variable R : machine -> machine -> Prop.
Hypothesis R_refl : forall m, R m m.
Hypothesis R_trans : forall m1 m2 m3, R m1 m2 -> R m2 m3 -> R m1 m3.

Lemma preserves_ret {A : Type} (a : A) : preserves R (ret a).
Proof. intros m a' m' H. inversion H; subst. apply R_refl. Qed.

Lemma preserves_stop {A : Type} (r : stop_reason) :
  preserves R (stop r : M A).
Proof. intros m a' m' H. discriminate. Qed.

Lemma preserves_bind {A B : Type} (c : M A) (k : A -> M B) :
  preserves R c -> (forall a, preserves R (k a)) -> preserves R (bind c k).
Proof.
  intros Hc Hk m b m' H. unfold bind in H.
  destruct (c m) as [a m1|] eqn:Hcm; [|discriminate].
  eapply R_trans; [eapply Hc|eapply Hk]; eassumption.
Qed.

Lemma preserves_reads {A : Type} (f : machine -> outcome A) :
  (forall m a m', f m = Returns a m' -> m' = m) -> preserves R f.
Proof. intros Hf m a m' H. rewrite (Hf _ _ _ H). apply R_refl. Qed.
End Preserves.

Section WithinFuel.
Lemma within_fuel_ret {A : Type} (a : A) : within_fuel (ret a).
Proof. intros m H. discriminate. Qed.

Lemma within_fuel_stop {A : Type} (r : stop_reason) :
  r <> OutOfFuel -> within_fuel (stop r : M A).
Proof. intros Hr m H. inversion H. contradiction. Qed.

Lemma within_fuel_bind {A B : Type} (c : M A) (k : A -> M B) :
  within_fuel c -> (forall a, within_fuel (k a)) -> within_fuel (bind c k).
Proof.
  intros Hc Hk m H. unfold bind in H.
  destruct (c m) as [a m1|r] eqn:Hcm.
  - exact (Hk a m1 H).
  - apply (Hc m). rewrite Hcm. inversion H. reflexivity.
Qed.
End WithinFuel.

Lemma engine_frame_refl (m : machine) : engine_frame m m.
Proof. unfold engine_frame. auto. Qed.

Lemma engine_frame_trans (m1 m2 m3 : machine) :
  engine_frame m1 m2 -> engine_frame m2 m3 -> engine_frame m1 m3.
Proof.
  intros (L1 & E1 & P1 & I1) (L2 & E2 & P2 & I2).
  unfold engine_frame. repeat split; [congruence | congruence | lia | auto].
Qed.

(** The rules of the two judgements, ready for [eauto]. *)
Create HintDb engine discriminated.

Lemma frame_ret {A : Type} (a : A) : preserves engine_frame (ret a).
Proof. apply preserves_ret, engine_frame_refl. Qed.

Lemma frame_stop {A : Type} (r : stop_reason) :
  preserves engine_frame (stop r : M A).
Proof. apply preserves_stop. Qed.

Lemma frame_bind {A B : Type} (c : M A) (k : A -> M B) :
  preserves engine_frame c -> (forall a, preserves engine_frame (k a)) ->
  preserves engine_frame (bind c k).
Proof. apply preserves_bind, engine_frame_trans. Qed.

(** One step of a proof that a function built from [bind], [ret], [stop],
    tests and the functions below it satisfies the judgement [J]. *)
Ltac engine_step bind_rule ret_rule stop_rule :=
  match goal with
  | |- _ (bind _ _) => apply bind_rule; [|intros ?]
  | |- _ (ret _) => apply ret_rule
  | |- _ (stop _) => apply stop_rule; discriminate
  | |- _ (stop _) => apply stop_rule
  | |- _ (if ?b then _ else _) => destruct b
  | |- _ (match ?x with _ => _ end) => destruct x
  | |- _ => solve [eauto with engine]
  end.

Ltac frame_auto := repeat engine_step @frame_bind @frame_ret @frame_stop.
Ltac fuel_auto :=
  repeat engine_step @within_fuel_bind @within_fuel_ret @within_fuel_stop.

(** The leaves: each returns at once, on a machine that differs in the
    context, the heap or [errno] only. *)
Ltac leaf_frame f :=
  let H := fresh "H" in
  intros ? ? ? H; unfold f in H;
  repeat match type of H with
         | context [match ?x with _ => _ end] => destruct x eqn:?
         | context [if ?b then _ else _] => destruct b eqn:?
         end;
  inversion H; subst; repeat split; simpl; auto.

Ltac leaf_fuel f :=
  let H := fresh "H" in
  intros ? H; unfold f in H;
  repeat match type of H with
         | context [match ?x with _ => _ end] => destruct x eqn:?
         | context [if ?b then _ else _] => destruct b eqn:?
         end;
  discriminate.

Lemma frame_get_ctx : preserves engine_frame get_ctx.
Proof. leaf_frame get_ctx. Qed.

Lemma frame_deref_state : preserves engine_frame deref_state.
Proof. leaf_frame deref_state. Qed.

Lemma frame_update_state f : preserves engine_frame (update_state f).
Proof. leaf_frame update_state. Qed.

Lemma frame_in_sequence : preserves engine_frame cyaml_in_sequence.
Proof. leaf_frame cyaml_in_sequence. Qed.

Lemma frame_realloc p size : preserves engine_frame (realloc p size).
Proof. leaf_frame realloc. Qed.

Lemma frame_calloc size : preserves engine_frame (calloc size).
Proof. leaf_frame calloc. Qed.

Lemma frame_memset_zero a n : preserves engine_frame (memset_zero a n).
Proof. leaf_frame memset_zero. Qed.

Lemma frame_data_write v n a : preserves engine_frame (cyaml_data_write v n a).
Proof. leaf_frame cyaml_data_write. Qed.

Lemma frame_parse : preserves engine_frame yaml_parser_parse.
Proof.
  intros m a m' H. unfold yaml_parser_parse in H.
  destruct (parser (ctx m)) eqn:Hp; inversion H; subst;
    repeat split; simpl; rewrite ?Hp; simpl; auto.
Qed.

Lemma frame_stack_ensure : preserves engine_frame cyaml__stack_ensure.
Proof. leaf_frame cyaml__stack_ensure. Qed.

Lemma frame_read_int sch text dat :
  preserves engine_frame (cyaml__read_int sch text dat).
Proof.
  intros m e m' H. unfold cyaml__read_int, cyaml_data_write in H.
  repeat match type of H with
         | context [if ?b then _ else _] => destruct b eqn:?
         end;
  inversion H; subst; repeat split; simpl; auto.
Qed.

#[global] Hint Resolve frame_get_ctx frame_deref_state frame_update_state
  frame_in_sequence frame_realloc frame_calloc frame_memset_zero
  frame_data_write frame_parse frame_stack_ensure frame_read_int : engine.

Lemma fuel_get_ctx : within_fuel get_ctx.
Proof. leaf_fuel get_ctx. Qed.

Lemma fuel_deref_state : within_fuel deref_state.
Proof. leaf_fuel deref_state. Qed.

Lemma fuel_update_state f : within_fuel (update_state f).
Proof. leaf_fuel update_state. Qed.

Lemma fuel_in_sequence : within_fuel cyaml_in_sequence.
Proof. leaf_fuel cyaml_in_sequence. Qed.

Lemma fuel_realloc p size : within_fuel (realloc p size).
Proof. leaf_fuel realloc. Qed.

Lemma fuel_calloc size : within_fuel (calloc size).
Proof. leaf_fuel calloc. Qed.

Lemma fuel_memset_zero a n : within_fuel (memset_zero a n).
Proof. leaf_fuel memset_zero. Qed.

Lemma fuel_data_write v n a : within_fuel (cyaml_data_write v n a).
Proof. leaf_fuel cyaml_data_write. Qed.

Lemma fuel_parse : within_fuel yaml_parser_parse.
Proof. leaf_fuel yaml_parser_parse. Qed.

Lemma fuel_stack_ensure : within_fuel cyaml__stack_ensure.
Proof. leaf_fuel cyaml__stack_ensure. Qed.

Lemma fuel_put_ctx c : within_fuel (put_ctx c).
Proof. leaf_fuel put_ctx. Qed.

Lemma fuel_free sch root : within_fuel (cyaml_free sch root).
Proof. leaf_fuel cyaml_free. Qed.

Lemma fuel_read_int sch text dat : within_fuel (cyaml__read_int sch text dat).
Proof.
  intros m H. unfold cyaml__read_int, cyaml_data_write in H.
  repeat match type of H with
         | context [if ?b then _ else _] => destruct b eqn:?
         end;
  discriminate.
Qed.

#[global] Hint Resolve fuel_get_ctx fuel_deref_state fuel_update_state
  fuel_in_sequence fuel_realloc fuel_calloc fuel_memset_zero fuel_data_write
  fuel_parse fuel_stack_ensure fuel_put_ctx fuel_free fuel_read_int : engine.

Lemma frame_get_next_event mask :
  preserves engine_frame (cyaml_get_next_event mask).
Proof. unfold cyaml_get_next_event. frame_auto. Qed.

Lemma fuel_get_next_event mask : within_fuel (cyaml_get_next_event mask).
Proof. unfold cyaml_get_next_event. fuel_auto. Qed.

(** A context stored back with the parser it was read with. *)
Lemma frame_put_ctx_same_parser (m : machine) (c : cyaml_ctx_t) :
  parser c = parser (ctx m) ->
  (0 <= stack_idx (ctx m) -> 0 <= stack_idx c) ->
  engine_frame m (set_ctx c m).
Proof.
  intros Hp Hi. unfold engine_frame. simpl. rewrite Hp. auto.
Qed.

Lemma frame_stack_push st sch dat :
  preserves engine_frame (cyaml__stack_push st sch dat).
Proof.
  unfold cyaml__stack_push.
  apply frame_bind; [auto with engine|]. intros err.
  destruct (is_err err); [apply frame_ret|].
  apply frame_bind.
  - destruct st; frame_auto.
  - intros [e|s']; [apply frame_ret|].
    intros m a m' H. unfold bind, get_ctx, put_ctx, ret, stop in H.
    destruct (_ <? _)%nat; inversion H; subst.
    apply frame_put_ctx_same_parser; [reflexivity|].
    intros _. simpl. apply Z.mod_pos_bound. lia.
Qed.

Lemma fuel_stack_push st sch dat :
  within_fuel (cyaml__stack_push st sch dat).
Proof. unfold cyaml__stack_push. destruct st; fuel_auto. Qed.

Lemma frame_stack_pop : preserves engine_frame cyaml__stack_pop.
Proof.
  intros m a m' H.
  unfold cyaml__stack_pop, bind, get_ctx, put_ctx, ret, deref_state in H.
  destruct (Z.eqb_spec (stack_idx (ctx m)) 0);
    [inversion H; apply engine_frame_refl|].
  destruct (cur_entry (ctx m)); inversion H; subst.
  apply frame_put_ctx_same_parser; [reflexivity|]. simpl. lia.
Qed.

Lemma fuel_stack_pop : within_fuel cyaml__stack_pop.
Proof. unfold cyaml__stack_pop. fuel_auto. Qed.

#[global] Hint Resolve frame_get_next_event fuel_get_next_event
  frame_stack_push fuel_stack_push frame_stack_pop fuel_stack_pop : engine.

Lemma frame_data_handle_pointer sch event dat :
  preserves engine_frame (cyaml__data_handle_pointer sch event dat).
Proof. unfold cyaml__data_handle_pointer. frame_auto. Qed.

Lemma fuel_data_handle_pointer sch event dat :
  within_fuel (cyaml__data_handle_pointer sch event dat).
Proof. unfold cyaml__data_handle_pointer. fuel_auto. Qed.

Lemma frame_read_scalar_value sch dat event :
  preserves engine_frame (cyaml__read_scalar_value sch dat event).
Proof.
  unfold cyaml__read_scalar_value, read_scalar_fn.
  destruct (type sch); frame_auto.
Qed.

Lemma fuel_read_scalar_value sch dat event :
  within_fuel (cyaml__read_scalar_value sch dat event).
Proof.
  unfold cyaml__read_scalar_value, read_scalar_fn.
  destruct (type sch); fuel_auto.
Qed.

#[global] Hint Resolve frame_data_handle_pointer fuel_data_handle_pointer
  frame_read_scalar_value fuel_read_scalar_value : engine.

Lemma frame_read_value sch dat event :
  preserves engine_frame (cyaml__read_value sch dat event).
Proof. unfold cyaml__read_value. frame_auto. Qed.

Lemma fuel_read_value sch dat event :
  within_fuel (cyaml__read_value sch dat event).
Proof. unfold cyaml__read_value. fuel_auto. Qed.

#[global] Hint Resolve frame_read_value fuel_read_value : engine.

Lemma frame_sequence_entry_append sch dat event :
  preserves engine_frame (sequence_entry_append sch dat event).
Proof. unfold sequence_entry_append. frame_auto. Qed.

Lemma fuel_sequence_entry_append sch dat event :
  within_fuel (sequence_entry_append sch dat event).
Proof. unfold sequence_entry_append. fuel_auto. Qed.

#[global] Hint Resolve frame_sequence_entry_append
  fuel_sequence_entry_append : engine.

Lemma frame_new_sequence_entry event :
  preserves engine_frame (cyaml__new_sequence_entry event).
Proof. unfold cyaml__new_sequence_entry. frame_auto. Qed.

Lemma fuel_new_sequence_entry event :
  within_fuel (cyaml__new_sequence_entry event).
Proof. unfold cyaml__new_sequence_entry. fuel_auto. Qed.

Lemma frame_assert_in_mask mask event :
  preserves engine_frame (assert_in_mask mask event).
Proof. unfold assert_in_mask. frame_auto. Qed.

Lemma fuel_assert_in_mask mask event :
  within_fuel (assert_in_mask mask event).
Proof. unfold assert_in_mask. fuel_auto. Qed.

#[global] Hint Resolve frame_new_sequence_entry fuel_new_sequence_entry
  frame_assert_in_mask fuel_assert_in_mask : engine.

Lemma frame_read_fn s : preserves engine_frame (read_fn s).
Proof.
  destruct s; simpl;
    unfold cyaml__read_start, cyaml__read_stream, cyaml__read_doc,
      cyaml__read_mapping, cyaml__read_mapping_key,
      cyaml__read_mapping_value, cyaml__read_sequence;
    frame_auto.
Qed.

Lemma fuel_read_fn s : within_fuel (read_fn s).
Proof.
  destruct s; simpl;
    unfold cyaml__read_start, cyaml__read_stream, cyaml__read_doc,
      cyaml__read_mapping, cyaml__read_mapping_key,
      cyaml__read_mapping_value, cyaml__read_sequence;
    fuel_auto.
Qed.

#[global] Hint Resolve frame_read_fn fuel_read_fn : engine.

Lemma frame_drive_step : preserves engine_frame drive_step.
Proof. unfold drive_step. frame_auto. Qed.

Lemma fuel_drive_step : within_fuel drive_step.
Proof. unfold drive_step. fuel_auto. Qed.

#[global] Hint Resolve frame_drive_step fuel_drive_step : engine.

Lemma frame_drive_loop fuel : preserves engine_frame (drive_loop fuel).
Proof. induction fuel; simpl; frame_auto. Qed.

Lemma frame_unwind_stack fuel : preserves engine_frame (unwind_stack fuel).
Proof. induction fuel; simpl; frame_auto. Qed.

#[global] Hint Resolve frame_drive_loop frame_unwind_stack : engine.

(** ** The drive loop *)

Lemma bind_returns {A B : Type} (c : M A) (k : A -> M B) (m : machine)
    (b : B) (m' : machine) :
  bind c k m = Returns b m' ->
  exists a m1, c m = Returns a m1 /\ k a m1 = Returns b m'.
Proof.
  unfold bind. destruct (c m) as [a m1|r]; [|discriminate].
  intros H. exists a, m1. split; [reflexivity | exact H].
Qed.

Lemma is_err_false (e : cyaml_err_t) : is_err e = false -> e = CYAML_OK.
Proof. destruct e; simpl; congruence. Qed.

Lemma is_err_true (e : cyaml_err_t) : is_err e = true <-> e <> CYAML_OK.
Proof. destruct e; simpl; split; congruence. Qed.

(** The masks of the handlers do not accept [YAML_NO_EVENT]: a pump that
    returns OK has taken a result from the parser. *)
Lemma get_next_event_consumes (mask : cyaml_event_t) (m m' : machine)
    (event : yaml_event_t) :
  in_mask YAML_NO_EVENT mask = false ->
  cyaml_get_next_event mask m = Returns (CYAML_OK, event) m' ->
  (length (parser (ctx m')) < length (parser (ctx m)))%nat.
Proof.
  intros Hmask H. rewrite get_next_event_eq in H. cbv zeta in H.
  unfold parser_head in H.
  destruct (parser (ctx m)) as [|r rest] eqn:Hpar.
  - simpl in H. rewrite Hmask in H. discriminate.
  - assert (Hm' : m' = parser_advanced m).
    { destruct r as [ev|]; [|discriminate].
      destruct (decide (ev_type ev = YAML_ALIAS_EVENT)); [discriminate|].
      destruct (in_mask (ev_type ev) mask); inversion H; reflexivity. }
    subst m'. simpl. rewrite Hpar. simpl. lia.
Qed.

Lemma pump_then_consumes (mask : cyaml_event_t)
    (k : cyaml_err_t * yaml_event_t -> M cyaml_err_t) :
  in_mask YAML_NO_EVENT mask = false ->
  (forall got, preserves engine_frame (k got)) ->
  forall m m',
    bind (cyaml_get_next_event mask)
         (fun got => if is_err (fst got) then ret (fst got) else k got) m
    = Returns CYAML_OK m' ->
    (length (parser (ctx m')) < length (parser (ctx m)))%nat.
Proof.
  intros Hmask Hk m m' H.
  apply bind_returns in H as ([e event] & m1 & Hp & H). simpl in H.
  destruct (is_err e) eqn:He.
  - inversion H; subst. discriminate.
  - apply is_err_false in He. subst e.
    apply get_next_event_consumes in Hp; [|assumption].
    apply Hk in H. destruct H as (_ & _ & Hlen & _). lia.
Qed.

Lemma deref_state_returns (m m1 : machine) (st : cyaml_state_t) :
  deref_state m = Returns st m1 -> m1 = m /\ cur_entry (ctx m) = Some st.
Proof.
  unfold deref_state. destruct (cur_entry (ctx m)); [|discriminate].
  intros H. inversion H. auto.
Qed.

Lemma read_start_consumes (m m' : machine) :
  cyaml__read_start m = Returns CYAML_OK m' ->
  (length (parser (ctx m')) < length (parser (ctx m)))%nat.
Proof.
  unfold cyaml__read_start. cbv zeta.
  apply pump_then_consumes; [reflexivity | intros got; frame_auto].
Qed.

Lemma read_stream_consumes (m m' : machine) :
  cyaml__read_stream m = Returns CYAML_OK m' ->
  (length (parser (ctx m')) < length (parser (ctx m)))%nat.
Proof.
  unfold cyaml__read_stream. cbv zeta.
  apply pump_then_consumes; [reflexivity | intros got; frame_auto].
Qed.

Lemma read_doc_consumes (m m' : machine) :
  cyaml__read_doc m = Returns CYAML_OK m' ->
  (length (parser (ctx m')) < length (parser (ctx m)))%nat.
Proof.
  unfold cyaml__read_doc. cbv zeta.
  apply pump_then_consumes; [reflexivity | intros got; frame_auto].
Qed.

Lemma read_mapping_key_consumes (m m' : machine) :
  cyaml__read_mapping_key m = Returns CYAML_OK m' ->
  (length (parser (ctx m')) < length (parser (ctx m)))%nat.
Proof.
  unfold cyaml__read_mapping_key. cbv zeta.
  apply pump_then_consumes; [reflexivity | intros got; frame_auto].
Qed.

Lemma read_mapping_value_consumes (m m' : machine) :
  cyaml__read_mapping_value m = Returns CYAML_OK m' ->
  (length (parser (ctx m')) < length (parser (ctx m)))%nat.
Proof.
  unfold cyaml__read_mapping_value. cbv zeta. intros H.
  apply bind_returns in H as (st & m1 & Hd & H).
  apply deref_state_returns in Hd as [-> _].
  destruct (st_mapping_schema st !! Z.to_nat (st_mapping_schema_idx st));
    [|discriminate].
  revert H. apply pump_then_consumes; [reflexivity | intros got; frame_auto].
Qed.

Lemma read_sequence_consumes (m m' : machine) :
  cyaml__read_sequence m = Returns CYAML_OK m' ->
  (length (parser (ctx m')) < length (parser (ctx m)))%nat.
Proof.
  unfold cyaml__read_sequence. cbv zeta.
  apply pump_then_consumes; [reflexivity | intros got; frame_auto].
Qed.

(** A round of the loop that returns OK has taken one result of the parser
    at least. *)
Lemma drive_step_consumes (m m' : machine) :
  drive_step m = Returns CYAML_OK m' ->
  (length (parser (ctx m')) < length (parser (ctx m)))%nat.
Proof.
  unfold drive_step. intros H.
  apply bind_returns in H as (st & m1 & Hd & H).
  apply deref_state_returns in Hd as [-> _].
  destruct (state st); simpl in H.
  - apply read_start_consumes; assumption.
  - apply read_stream_consumes; assumption.
  - apply read_doc_consumes; assumption.
  - unfold cyaml__read_mapping in H.
    apply bind_returns in H as (st' & m1 & Hd & H).
    apply deref_state_returns in Hd as [-> _].
    destruct (st_mapping_state st').
    + apply read_mapping_key_consumes; assumption.
    + apply read_mapping_value_consumes; assumption.
  - apply read_sequence_consumes; assumption.
Qed.

(** The loop of [cyaml__load] ends within one round more than the parser has
    results. *)
Lemma drive_loop_within_fuel (fuel : nat) (m : machine) :
  (length (parser (ctx m)) < fuel)%nat ->
  drive_loop fuel m <> Stops OutOfFuel.
Proof.
  revert m. induction fuel as [|fuel IH]; intros m Hlen; [lia|].
  simpl. unfold bind at 1.
  destruct (drive_step m) as [err m1|r] eqn:Hs.
  - destruct (is_err err) eqn:He; [discriminate|].
    apply is_err_false in He. subst err.
    apply drive_step_consumes in Hs.
    unfold bind. destruct (deref_state m1) as [st m2|r] eqn:Hd.
    + apply deref_state_returns in Hd as [-> _].
      destruct (bool_decide _); [apply IH; lia | discriminate].
    + intros Hr. apply (fuel_deref_state m1). rewrite Hd.
      inversion Hr. reflexivity.
  - intros Hr. apply (fuel_drive_step m). rewrite Hs.
    inversion Hr. reflexivity.
Qed.

Lemma stack_pop_returns (m m1 : machine) (e : cyaml_err_t) :
  cyaml__stack_pop m = Returns e m1 ->
  (stack_idx (ctx m) = 0 /\ e = CYAML_ERR_INTERNAL_ERROR /\ m1 = m)
  \/ (stack_idx (ctx m) <> 0 /\ e = CYAML_OK
      /\ m1 = set_ctx (mk_ctx (config (ctx m))
                        (if stack_idx (ctx m) - 1 =? 0 then None
                         else Some (stack_idx (ctx m) - 1 - 1))
                        (stack (ctx m)) (stack_idx (ctx m) - 1)
                        (stack_max (ctx m)) (parser (ctx m))) m).
Proof.
  unfold cyaml__stack_pop, bind, get_ctx, put_ctx, ret, deref_state.
  destruct (Z.eqb_spec (stack_idx (ctx m)) 0) as [E|E].
  - intros H. inversion H; subst. left. auto.
  - destruct (cur_entry (ctx m)); [|discriminate].
    intros H. inversion H; subst. right. auto.
Qed.

Lemma unwind_stack_within_fuel (fuel : nat) (m : machine) :
  stack_idx (ctx m) <= Z.of_nat fuel ->
  unwind_stack fuel m <> Stops OutOfFuel.
Proof.
  revert m. induction fuel as [|fuel IH]; intros m Hidx.
  - simpl. unfold bind, get_ctx.
    destruct (Z.ltb_spec 0 (stack_idx (ctx m))); [lia | discriminate].
  - simpl. unfold bind at 1. unfold get_ctx.
    destruct (Z.ltb_spec 0 (stack_idx (ctx m))); [|discriminate].
    unfold bind. destruct (cyaml__stack_pop m) as [e m1|r] eqn:Hp.
    + apply stack_pop_returns in Hp as [(E & _) | (_ & _ & ->)]; [lia|].
      apply IH. simpl. lia.
    + intros Hr. apply (fuel_stack_pop m). rewrite Hp.
      inversion Hr. reflexivity.
Qed.

(** When the unwinding returns, no entry is left: the stack index is not
    positive. *)
Lemma unwind_stack_returns (fuel : nat) (m m' : machine) (u : unit) :
  unwind_stack fuel m = Returns u m' ->
  stack_idx (ctx m') <= 0.
Proof.
  revert m. induction fuel as [|fuel IH]; intros m; simpl;
    unfold bind at 1; unfold get_ctx;
    destruct (Z.ltb_spec 0 (stack_idx (ctx m))) as [Hpos|Hpos];
    try discriminate; intros Hu.
  - inversion Hu; subst. assumption.
  - apply bind_returns in Hu as (e & m1 & _ & Hu). eapply IH, Hu.
  - inversion Hu; subst. assumption.
Qed.

(** ** The load and its clean-up *)

Lemma block_base_pos (k : nat) : 0 < block_base k.
Proof. unfold block_base, BLOCK_SPAN. lia. Qed.

Lemma calloc_returns (size : Z) (m m1 : machine) (dat : Z) :
  calloc size m = Returns dat m1 ->
  ctx m1 = ctx m /\ free_log m1 = free_log m
  /\ ((fst (next_alloc m) = AllocFail /\ dat = 0)
      \/ (fst (next_alloc m) <> AllocFail
          /\ dat = block_base (heap_next m))).
Proof.
  unfold calloc. destruct (fst (next_alloc m)) eqn:Ha;
    intros H; inversion H; subst; simpl;
    (split; [reflexivity|]); (split; [reflexivity|]);
    first [left; split; reflexivity | right; split; [discriminate|reflexivity]].
Qed.

Lemma frame_load_body sch dat data_out fuel :
  preserves engine_frame (load_body sch dat data_out fuel).
Proof. unfold load_body. frame_auto. Qed.

(** At the label [out] either the code is an error and [*data_out] is as it
    was, or the code is OK, [*data_out] holds the root, and the stack is
    empty. *)
Lemma load_body_returns (sch : cyaml_schema_type_t) (dat data_out : Z)
    (fuel : nat) (m m' : machine) (err : cyaml_err_t) (out : Z) :
  load_body sch dat data_out fuel m = Returns (err, out) m' ->
  (err <> CYAML_OK /\ out = data_out)
  \/ (err = CYAML_OK /\ out = dat /\ stack_idx (ctx m') = 0).
Proof.
  unfold load_body. intros H.
  apply bind_returns in H as (e1 & m1 & _ & H).
  destruct (is_err e1) eqn:E1.
  { inversion H; subst. left. split; [apply is_err_true; assumption|reflexivity]. }
  apply bind_returns in H as (u & m2 & _ & H).
  apply bind_returns in H as (e2 & m3 & _ & H).
  destruct (is_err e2) eqn:E2.
  { inversion H; subst. left. split; [apply is_err_true; assumption|reflexivity]. }
  apply bind_returns in H as (e3 & m4 & _ & H).
  destruct (is_err e3) eqn:E3.
  { inversion H; subst. left. split; [apply is_err_true; assumption|reflexivity]. }
  apply bind_returns in H as (c & m5 & Hc & H).
  unfold get_ctx in Hc. inversion Hc; subst.
  destruct (Z.eqb_spec (stack_idx (ctx m5)) 0); [|discriminate].
  inversion H; subst. right. auto.
Qed.

Lemma load_body_within_fuel sch dat data_out (fuel : nat) (m : machine) :
  (length (parser (ctx m)) < fuel)%nat ->
  load_body sch dat data_out fuel m <> Stops OutOfFuel.
Proof.
  intros Hlen. unfold load_body.
  unfold bind at 1.
  destruct (cyaml__stack_push _ _ _ m) as [e1 m1|r] eqn:Hp.
  2:{ intros Hr. apply (fuel_stack_push CYAML_STATE_START sch dat m).
      rewrite Hp. inversion Hr. reflexivity. }
  apply frame_stack_push in Hp as (_ & _ & Hl1 & _).
  destruct (is_err e1); [discriminate|].
  unfold bind at 1.
  destruct (update_state _ m1) as [u m2|r] eqn:Hu.
  2:{ intros Hr. apply (fuel_update_state (set_data dat) m1).
      rewrite Hu. inversion Hr. reflexivity. }
  apply frame_update_state in Hu as (_ & _ & Hl2 & _).
  unfold bind at 1.
  destruct (drive_loop fuel m2) as [e2 m3|r] eqn:Hd.
  2:{ intros Hr. apply (drive_loop_within_fuel fuel m2); [lia|].
      rewrite Hd. inversion Hr. reflexivity. }
  clear Hd. revert m3.
  assert (Hrest : within_fuel
            (if is_err e2 then ret (e2, data_out)
             else err <- cyaml__stack_pop ;;
                  (if is_err err then ret (err, data_out)
                   else c <- get_ctx ;;
                        (if stack_idx c =? 0 then ret (CYAML_OK, dat)
                         else stop AssertionFailed)))) by fuel_auto.
  exact Hrest.
Qed.

Lemma cyaml_free_returns sch root (m m1 : machine) (u : unit) :
  cyaml_free sch root m = Returns u m1 ->
  ctx m1 = ctx m /\ free_log m1 = free_log m ++ [(sch, root)].
Proof. unfold cyaml_free. intros H. inversion H. auto. Qed.

(** What a load that returns leaves behind. *)
Lemma load_returns (cfg : cyaml_config_t) (sch : cyaml_schema_type_t)
    (data_out : Z) (yaml_parser : list (option yaml_event_t))
    (m m' : machine) (err : cyaml_err_t) (out : Z) :
  cyaml__load cfg sch data_out yaml_parser m = Returns (err, out) m' ->
  stack_idx (ctx m') = 0
  /\ ((fst (next_alloc m) = AllocFail /\ err = CYAML_ERR_OOM
       /\ out = data_out /\ free_log m' = free_log m /\ stack (ctx m') = [])
      \/ (fst (next_alloc m) <> AllocFail /\ stack (ctx m') = []
          /\ ((err <> CYAML_OK /\ out = data_out
               /\ free_log m' = free_log m ++ [(sch, block_base (heap_next m))])
              \/ (err = CYAML_OK /\ out = block_base (heap_next m)
                  /\ free_log m' = free_log m)))).
Proof.
  unfold cyaml__load. intros H.
  apply bind_returns in H as (u0 & m0 & H0 & H).
  unfold put_ctx in H0. inversion H0; subst u0 m0. clear H0.
  apply bind_returns in H as (dat & m1 & Hc & H).
  apply calloc_returns in Hc as (Hctx1 & Hlog1 & Hdat). simpl in Hctx1, Hlog1.
  destruct Hdat as [[Hf ->] | [Hf ->]].
  - simpl in H. inversion H; subst. rewrite Hctx1. simpl.
    split; [reflexivity|]. left. auto.
  - destruct (Z.eqb_spec (block_base (heap_next (set_ctx
        (mk_ctx cfg None [] 0 0 yaml_parser) m))) 0) as [E|_].
    { pose proof (block_base_pos (heap_next (set_ctx
        (mk_ctx cfg None [] 0 0 yaml_parser) m))). lia. }
    simpl in Hf. simpl heap_next in H.
    apply bind_returns in H as ([e o] & m2 & Hb & H).
    pose proof (frame_load_body _ _ _ _ _ _ _ Hb) as (Hlog2 & _ & _ & Hi2).
    apply load_body_returns in Hb.
    apply bind_returns in H as (u3 & m3 & Hfree & H).
    apply bind_returns in H as (c & m3' & Hg & H).
    unfold get_ctx in Hg. inversion Hg; subst c m3'. clear Hg.
    apply bind_returns in H as (u4 & m4 & Hu & H).
    pose proof (frame_unwind_stack _ _ _ _ Hu) as (Hlog4 & _ & _ & Hi4).
    apply unwind_stack_returns in Hu.
    apply bind_returns in H as (u5 & m5 & Hs & H).
    unfold free_stack, bind, get_ctx, put_ctx in Hs. inversion Hs; subst m5.
    assert (Hi3 : 0 <= stack_idx (ctx m3)).
    { assert (ctx m3 = ctx m2) as ->.
      { simpl in Hfree. destruct (is_err e).
        - apply cyaml_free_returns in Hfree. apply Hfree.
        - inversion Hfree. reflexivity. }
      apply Hi2. rewrite Hctx1. simpl. lia. }
    inversion H; subst. clear H Hs. simpl.
    split; [specialize (Hi4 Hi3); lia|].
    right. split; [assumption|]. split; [reflexivity|].
    simpl in Hfree.
    destruct Hb as [(Hne & ->) | (-> & -> & _)].
    + left. apply is_err_true in Hne as Hne'. rewrite Hne' in Hfree.
      apply cyaml_free_returns in Hfree as (_ & Hlog3).
      split; [assumption|]. split; [reflexivity|].
      rewrite Hlog4, Hlog3, Hlog2, Hlog1. reflexivity.
    + right. simpl in Hfree. inversion Hfree; subst m3.
      split; [reflexivity|]. split; [reflexivity|].
      rewrite Hlog4, Hlog2, Hlog1. reflexivity.
Qed.

(** The load always comes to an end: the bounds the model puts on the loop
    of [cyaml__load] and on the unwinding of the stack are never reached. *)
Lemma cyaml__load_within_fuel (cfg : cyaml_config_t)
    (sch : cyaml_schema_type_t) (data_out : Z)
    (yaml_parser : list (option yaml_event_t)) :
  within_fuel (cyaml__load cfg sch data_out yaml_parser).
Proof.
  intros m. unfold cyaml__load.
  unfold bind at 1. unfold put_ctx.
  unfold bind at 1.
  destruct (calloc _ _) as [dat m1|r] eqn:Hc.
  2:{ intros Hr. apply (fuel_calloc (data_size sch) _ ltac:(rewrite Hc; inversion Hr; reflexivity)). }
  apply calloc_returns in Hc as (Hctx & _ & _). simpl in Hctx.
  destruct (dat =? 0); [discriminate|].
  unfold bind at 1.
  destruct (load_body _ _ _ _ m1) as [res m2|r] eqn:Hb.
  2:{ intros Hr. apply (load_body_within_fuel sch dat data_out
                          (S (length yaml_parser)) m1).
      - rewrite Hctx. simpl. lia.
      - rewrite Hb. inversion Hr. reflexivity. }
  unfold bind at 1.
  destruct ((if is_err (fst res) then cyaml_free sch dat else ret tt) m2)
    as [u m3|r] eqn:Hf.
  2:{ destruct (is_err (fst res)); discriminate. }
  unfold bind at 1. unfold get_ctx.
  unfold bind at 1.
  destruct (unwind_stack _ m3) as [u' m4|r] eqn:Hu.
  2:{ intros Hr. apply (unwind_stack_within_fuel
                          (Z.to_nat (stack_idx (ctx m3))) m3); [lia|].
      rewrite Hu. inversion Hr. reflexivity. }
  discriminate.
Qed.

(** C5, as the code has it.  A load that returns leaves no entry on the
    stack and has released its buffer.  When it returns an error the
    caller's pointer [*data_out] is as it was, and the free routine has been
    called once, on the schema and the root of the partial tree -- unless
    the allocation of the root itself failed: then nothing has been built,
    the load returns OOM at once and the free routine is not called.  When
    it returns OK the pointer holds the root and the free routine has not
    been called. *)
Theorem load_failure_leaves_nothing (cfg : cyaml_config_t)
    (sch : cyaml_schema_type_t) (data_out : Z)
    (yaml_parser : list (option yaml_event_t))
    (m m' : machine) (err : cyaml_err_t) (out : Z) :
  cyaml__load cfg sch data_out yaml_parser m = Returns (err, out) m' ->
  (stack_idx (ctx m') = 0 /\ stack (ctx m') = [])
  /\ (err <> CYAML_OK ->
      out = data_out
      /\ (free_log m' = free_log m ++ [(sch, block_base (heap_next m))]
          \/ (fst (next_alloc m) = AllocFail /\ err = CYAML_ERR_OOM
              /\ free_log m' = free_log m)))
  /\ (err = CYAML_OK ->
      out = block_base (heap_next m) /\ free_log m' = free_log m).
Proof.
  intros H. apply load_returns in H as (Hidx & Hcases).
  destruct Hcases as [(Hf & -> & -> & Hlog & Hst)
                     | (Hf & Hst & [(Hne & -> & Hlog) | (-> & -> & Hlog)])].
  - split; [auto|]. split; [|discriminate]. intros _. auto.
  - split; [auto|]. split; [intros _; auto | contradiction].
  - split; [auto|]. split; [contradiction | auto].
Qed.

(** The theorem on the load of [a: 1, b: 2] against [{a: INT}]: the load
    returns INVALID_KEY, the stack is empty and the free routine has been
    called on the root. *)
Lemma load_failure_leaves_nothing_witness :
  let sch := one_field 4 (scalar_node CYAML_INT 0 4) in
  let doc := document [scalar_event "a"; scalar_event "1";
                       scalar_event "b"; scalar_event "2"] in
  exists m',
    cyaml__load (mk_config 0) sch 7 doc (start_machine [] 0)
    = Returns (CYAML_ERR_INVALID_KEY, 7) m'
    /\ stack_idx (ctx m') = 0
    /\ free_log m' = [(sch, block_base 0)].
Proof.
  cbv zeta.
  assert (H : exists m',
             cyaml__load (mk_config 0)
               (one_field 4 (scalar_node CYAML_INT 0 4)) 7
               (document [scalar_event "a"; scalar_event "1";
                          scalar_event "b"; scalar_event "2"])
               (start_machine [] 0)
             = Returns (CYAML_ERR_INVALID_KEY, 7) m')
    by (eexists; vm_compute; reflexivity).
  destruct H as [m' H]. exists m'. split; [exact H|].
  destruct (load_failure_leaves_nothing _ _ _ _ _ _ _ _ H)
    as ((Hidx & _) & Hfail & _).
  split; [exact Hidx|].
  destruct (Hfail ltac:(discriminate)) as (_ & [Hlog | (Hf & _)]).
  - exact Hlog.
  - discriminate Hf.
Defined.

(** C5 as stated fails on one path: when the allocation of the root fails,
    the load returns OOM and the free routine is not called. *)
Lemma load_root_oom_calls_no_free :
  exists m',
    cyaml__load (mk_config 0) (one_field 4 (scalar_node CYAML_INT 0 4)) 7
                (a_is "7") (start_machine [AllocFail] 0)
    = Returns (CYAML_ERR_OOM, 7) m'
    /\ free_log m' = [].
Proof. eexists. split; vm_compute; reflexivity. Qed.

(** ** The sequence-append path *)

Lemma set_sequence_data_same (st : cyaml_state_t) :
  set_sequence_data (st_sequence_data st) st = st.
Proof. destruct st; reflexivity. Qed.

Lemma cur_entry_lookup (c : cyaml_ctx_t) (st : cyaml_state_t) :
  cur_entry c = Some st ->
  exists i : Z, ctx_state c = Some i /\ 0 <= i
                /\ stack c !! Z.to_nat i = Some st.
Proof.
  unfold cur_entry. destruct (ctx_state c) as [i|]; [|discriminate].
  destruct (Z.leb_spec 0 i) as [Hle|Hle]; [|discriminate].
  intros Heq. exists i. auto.
Qed.

Lemma same_but_current_refl (c : cyaml_ctx_t) : same_but_current c c.
Proof. unfold same_but_current. auto 10. Qed.

Lemma same_but_current_trans (c1 c2 c3 : cyaml_ctx_t) :
  same_but_current c1 c2 -> same_but_current c2 c3 -> same_but_current c1 c3.
Proof.
  intros (A1 & B1 & C1 & D1 & E1 & F1 & G1) (A2 & B2 & C2 & D2 & E2 & F2 & G2).
  unfold same_but_current.
  repeat (split; [congruence|]).
  intros i j Hi Hj. rewrite (G2 i j), (G1 i j); auto. congruence.
Qed.

Lemma update_state_returns (f : cyaml_state_t -> cyaml_state_t)
    (m m1 : machine) (u : unit) (st : cyaml_state_t) :
  cur_entry (ctx m) = Some st ->
  update_state f m = Returns u m1 ->
  cur_entry (ctx m1) = Some (f st)
  /\ same_but_current (ctx m) (ctx m1)
  /\ heap_bytes m1 = heap_bytes m /\ heap_blocks m1 = heap_blocks m
  /\ heap_next m1 = heap_next m.
Proof.
  intros Hcur H. unfold update_state in H. rewrite Hcur in H.
  destruct (cur_entry_lookup _ _ Hcur) as (i & Hi & Hpos & Hl).
  rewrite Hi in H. inversion H; subst m1. clear H. simpl.
  split.
  - unfold cur_entry. simpl. rewrite Hi.
    destruct (Z.leb_spec 0 i) as [Hle|Hle]; [|lia].
    apply list_lookup_insert_eq. eapply lookup_lt_Some, Hl.
  - split; [|auto]. unfold same_but_current. simpl.
    repeat (split; [reflexivity|]). split; [apply length_insert|].
    intros i' j Hi' Hne. rewrite Hi in Hi'. inversion Hi'; subst i'.
    apply list_lookup_insert_ne. congruence.
Qed.

Lemma in_sequence_returns (m m1 : machine) (b : bool) (st : cyaml_state_t) :
  cur_entry (ctx m) = Some st ->
  cyaml_in_sequence m = Returns b m1 ->
  m1 = m /\ b = bool_decide (state st = CYAML_STATE_IN_SEQUENCE).
Proof.
  intros Hcur. unfold cyaml_in_sequence. rewrite Hcur.
  destruct (cur_entry_lookup _ _ Hcur) as (i & -> & _).
  intros H. inversion H. auto.
Qed.

Lemma data_write_returns (v n a : Z) (m m1 : machine) (e : cyaml_err_t) :
  cyaml_data_write v n a m = Returns e m1 ->
  ctx m1 = ctx m /\ heap_blocks m1 = heap_blocks m
  /\ heap_next m1 = heap_next m
  /\ ((e = CYAML_OK /\ 1 <= n <= 8
       /\ heap_bytes m1 = store_le (Z.to_nat n) a v (heap_bytes m))
      \/ (e = CYAML_ERR_INTERNAL_ERROR /\ ~ (1 <= n <= 8)
          /\ heap_bytes m1 = heap_bytes m)).
Proof.
  unfold cyaml_data_write.
  destruct (Z.leb_spec 1 n) as [H1|H1], (Z.leb_spec n 8) as [H8|H8]; simpl;
    intros Heq; inversion Heq; subst; simpl;
    repeat (split; [reflexivity|]);
    first [left; split; [reflexivity|]; split; [lia|reflexivity]
          | right; split; [reflexivity|]; split; [lia|reflexivity]].
Qed.

Lemma realloc_returns (p size : Z) (m m1 : machine) (q : Z) :
  realloc p size m = Returns q m1 ->
  ctx m1 = ctx m
  /\ ((q = 0 /\ heap_blocks m1 = heap_blocks m
       /\ heap_bytes m1 = heap_bytes m /\ heap_next m1 = heap_next m)
      \/ (q <> 0 /\ heap_blocks m1 !! q = Some size
          /\ (heap_next m <= heap_next m1)%nat
          /\ (q = p \/ q = block_base (heap_next m))
          /\ forall b, b <> q -> b <> p ->
                       heap_blocks m1 !! b = heap_blocks m !! b)).
Proof.
  unfold realloc.
  pose proof (block_base_pos (heap_next m)) as Hpos.
  destruct (fst (next_alloc m)) eqn:Ha.
  - intros H. inversion H; subst. simpl. split; [reflexivity|]. left. auto.
  - destruct (Z.eqb_spec p 0) as [->|Hp].
    + intros H. inversion H; subst. simpl. split; [reflexivity|]. right.
      split; [lia|]. split; [apply lookup_insert_eq|]. split; [lia|].
      split; [auto|]. intros b Hb _. apply lookup_insert_ne. congruence.
    + destruct (heap_blocks m !! p) eqn:Hlive; [|discriminate].
      intros H. inversion H; subst. simpl. split; [reflexivity|]. right.
      split; [lia|]. split; [apply lookup_insert_eq|]. split; [lia|].
      split; [auto|]. intros b Hb Hb'.
      rewrite lookup_insert_ne by congruence.
      apply lookup_delete_ne. congruence.
  - destruct (Z.eqb_spec p 0) as [->|Hp].
    + intros H. inversion H; subst. simpl. split; [reflexivity|]. right.
      split; [lia|]. split; [apply lookup_insert_eq|]. split; [lia|].
      split; [auto|]. intros b Hb _. apply lookup_insert_ne. congruence.
    + destruct (heap_blocks m !! p) eqn:Hlive; [|discriminate].
      intros H. inversion H; subst. simpl. split; [reflexivity|]. right.
      split; [assumption|]. split; [apply lookup_insert_eq|]. split; [lia|].
      split; [auto|]. intros b Hb Hb'. apply lookup_insert_ne. congruence.
Qed.

Lemma memset_zero_returns (a n : Z) (m m1 : machine) (u : unit) :
  memset_zero a n m = Returns u m1 ->
  ctx m1 = ctx m /\ heap_blocks m1 = heap_blocks m
  /\ heap_next m1 = heap_next m.
Proof. unfold memset_zero. intros H. inversion H. auto. Qed.

(** What the placement engine does, given the current stack entry [st].
    Without the owning-pointer flag: nothing.  With it: either the allocator
    fails, and nothing has changed but the allocator; or the value has a
    block [p] of [offset + delta] bytes, where inside a sequence [offset] is
    what the sequence holds already and the block is the block of the
    sequence grown, and the current entry of a sequence records [p]. *)
Lemma data_handle_pointer_returns (sch : cyaml_schema_type_t)
    (event : yaml_event_t) (dat : Z) (m m1 : machine)
    (e : cyaml_err_t) (p : Z) (st : cyaml_state_t) :
  cur_entry (ctx m) = Some st ->
  cyaml__data_handle_pointer sch event dat m = Returns (e, p) m1 ->
  (has_pointer_flag sch = false /\ m1 = m /\ e = CYAML_OK /\ p = dat)
  \/ (has_pointer_flag sch = true /\ e = CYAML_ERR_OOM /\ p = dat
      /\ ctx m1 = ctx m /\ heap_bytes m1 = heap_bytes m
      /\ heap_blocks m1 = heap_blocks m)
  \/ (has_pointer_flag sch = true /\ e = CYAML_OK /\ p <> 0
      /\ exists delta : Z,
          (type sch <> CYAML_STRING -> delta = data_size sch)
          /\ let in_seq := bool_decide (state st = CYAML_STATE_IN_SEQUENCE) in
             let offset := if in_seq
                           then (data_size sch * st_sequence_count st) mod 2 ^ 32
                           else 0 in
             let old := if in_seq then st_sequence_data st else 0 in
             heap_blocks m1 !! p = Some ((offset + delta) mod 2 ^ 64)
             /\ (p = old \/ p = block_base (heap_next m))
             /\ (forall b, b <> p -> b <> old ->
                           heap_blocks m1 !! b = heap_blocks m !! b)
             /\ cur_entry (ctx m1)
                = Some (if in_seq then set_sequence_data p st else st)
             /\ same_but_current (ctx m) (ctx m1)
             /\ (heap_next m <= heap_next m1)%nat).
Proof.
  intros Hcur H. unfold cyaml__data_handle_pointer in H.
  destruct (has_pointer_flag sch) eqn:Hflag.
  2:{ inversion H; subst. left. auto. }
  right.
  apply bind_returns in H as (delta & ma & Hdelta & H).
  assert (ma = m /\ (type sch <> CYAML_STRING -> delta = data_size sch))
    as [-> Hd].
  { destruct (decide (type sch = CYAML_STRING)).
    - destruct (ev_scalar_value event); inversion Hdelta; subst.
      split; [reflexivity | contradiction].
    - inversion Hdelta; subst. auto. }
  clear Hdelta.
  apply bind_returns in H as (in_seq & ma & Hin & H).
  apply (in_sequence_returns _ _ _ _ Hcur) in Hin as [-> ->].
  apply bind_returns in H as ([offset old] & ma & Hplace & H).
  assert (ma = m
          /\ offset = (if bool_decide (state st = CYAML_STATE_IN_SEQUENCE)
                       then (data_size sch * st_sequence_count st) mod 2 ^ 32
                       else 0)
          /\ old = (if bool_decide (state st = CYAML_STATE_IN_SEQUENCE)
                    then st_sequence_data st else 0)) as (-> & Hoff & Hold).
  { destruct (bool_decide (state st = CYAML_STATE_IN_SEQUENCE)).
    - apply bind_returns in Hplace as (st' & mb & Hd' & Hplace).
      apply deref_state_returns in Hd' as [-> Hcur'].
      rewrite Hcur in Hcur'. inversion Hcur'; subst st'.
      inversion Hplace. auto.
    - inversion Hplace. auto. }
  clear Hplace. simpl fst in H. simpl snd in H.
  apply bind_returns in H as (q & ma & Hre & H).
  apply realloc_returns in Hre as (Hctx & Hre).
  destruct Hre as [(-> & Hbl & Hby & Hnx) | (Hq & Hsz & Hnx & Hid & Hother)].
  { simpl in H. inversion H; subst. left. auto 10. }
  destruct (Z.eqb_spec q 0); [contradiction|].
  apply bind_returns in H as (u1 & mb & Hms & H).
  apply memset_zero_returns in Hms as (Hctx2 & Hbl2 & Hnx2).
  apply bind_returns in H as (u2 & mc & Hup & H).
  assert (Hcur_b : cur_entry (ctx mb) = Some st) by congruence.
  assert (Hupd : cur_entry (ctx mc)
                 = Some (if bool_decide (state st = CYAML_STATE_IN_SEQUENCE)
                         then set_sequence_data q st else st)
                 /\ same_but_current (ctx mb) (ctx mc)
                 /\ heap_blocks mc = heap_blocks mb
                 /\ heap_next mc = heap_next mb).
  { destruct (bool_decide (state st = CYAML_STATE_IN_SEQUENCE)).
    - apply (update_state_returns _ _ _ _ _ Hcur_b) in Hup
        as (Hc & Hs & _ & Hb & Hn). auto.
    - inversion Hup; subst. split; [assumption|].
      split; [apply same_but_current_refl|]. auto. }
  clear Hup. destruct Hupd as (Hcur_c & Hsame & Hbl3 & Hnx3).
  apply bind_returns in H as (e' & md & Hw & H).
  apply data_write_returns in Hw as (Hctx4 & Hbl4 & Hnx4 & Hw).
  destruct Hw as [(-> & _ & _) | (_ & Hbad & _)];
    [|unfold POINTER_SIZE in Hbad; lia].
  simpl in H. inversion H; subst. clear H.
  right. split; [reflexivity|]. split; [reflexivity|]. split; [assumption|].
  exists delta. split; [assumption|]. cbv zeta.
  split; [congruence|]. split; [assumption|].
  split; [intros b Hb Hb'; rewrite Hbl4, Hbl3, Hbl2; auto|].
  split; [congruence|].
  split; [rewrite Hctx4, <- Hctx, <- Hctx2; assumption|].
  lia.
Qed.

(** The stack functions do not touch the heap. *)
Lemma stack_ensure_heap (m m' : machine) (e : cyaml_err_t) :
  cyaml__stack_ensure m = Returns e m' -> heap_same m m'.
Proof.
  unfold cyaml__stack_ensure.
  destruct (_ <? _); [intros H; inversion H; split; reflexivity|].
  destruct (fst (next_alloc m)); intros H; inversion H; split; reflexivity.
Qed.

Lemma stack_push_heap (s : cyaml_state_e) (sch : cyaml_schema_type_t)
    (dat : Z) (m m' : machine) (e : cyaml_err_t) :
  cyaml__stack_push s sch dat m = Returns e m' -> heap_same m m'.
Proof.
  unfold cyaml__stack_push. intros H.
  apply bind_returns in H as (e1 & m1 & He & H).
  apply stack_ensure_heap in He as [Hb1 Hk1].
  destruct (is_err e1); [inversion H; subst; split; assumption|].
  apply bind_returns in H as (filled & m2 & Hf & H).
  assert (m2 = m1) as ->.
  { destruct s; try (inversion Hf; reflexivity).
    - destruct (decide _); inversion Hf; reflexivity.
    - destruct (type sch); try (inversion Hf; reflexivity);
        apply bind_returns in Hf as (par & m3 & Hd & Hf);
        apply deref_state_returns in Hd as [-> _];
        inversion Hf; reflexivity. }
  destruct filled as [e2|s']; [inversion H; subst; split; assumption|].
  unfold bind, get_ctx, put_ctx, ret, stop in H.
  destruct (_ <? _)%nat; inversion H; subst. split; assumption.
Qed.

(** A decoder that fails has stored nothing. *)
Lemma read_int_failure_stores_nothing (sch : cyaml_schema_type_t)
    (text : string) (dat : Z) (m m' : machine) (e : cyaml_err_t) :
  cyaml__read_int sch text dat m = Returns e m' ->
  e <> CYAML_OK -> heap_same m m'.
Proof.
  unfold cyaml__read_int. intros H Hne.
  destruct (64 <=? _); [discriminate|].
  destruct (_ || _ || _ || _).
  - inversion H; subst. destruct (sr_erange _); split; reflexivity.
  - apply data_write_returns in H as (_ & Hbl & _ & Hw).
    destruct Hw as [(-> & _) | (_ & _ & Hby)]; [contradiction|].
    destruct (sr_erange _); split; assumption.
Qed.

(** A value handler that fails has stored nothing beyond what its call of
    the placement engine stored. *)
Lemma read_value_failure_stores_nothing (sch : cyaml_schema_type_t)
    (dat : Z) (event : yaml_event_t) (m m' : machine) (e : cyaml_err_t) :
  cyaml__read_value sch dat event m = Returns e m' ->
  e <> CYAML_OK ->
  (type sch = CYAML_SEQUENCE \/ type sch = CYAML_SEQUENCE_FIXED ->
   heap_same m m')
  /\ (type sch <> CYAML_SEQUENCE -> type sch <> CYAML_SEQUENCE_FIXED ->
      exists r mp, cyaml__data_handle_pointer sch event dat m = Returns r mp
                   /\ heap_same mp m').
Proof.
  intros H Hne. split.
  - intros Hk. unfold cyaml__read_value in H.
    assert (Hb : bool_decide (type sch <> CYAML_SEQUENCE)
                 && bool_decide (type sch <> CYAML_SEQUENCE_FIXED) = false).
    { destruct Hk as [-> | ->]; reflexivity. }
    rewrite Hb in H. apply bind_returns in H as (d & m1 & Hr & H).
    inversion Hr; subst d m1. clear Hr.
    destruct Hk as [Hk | Hk]; rewrite Hk in H;
      (destruct (negb _);
       [inversion H; subst; split; reflexivity
       |eapply stack_push_heap, H]).
  - intros Hs Hf. rewrite read_value_placement_first in H by assumption.
    destruct (cyaml__data_handle_pointer sch event dat m) as [placed mp|];
      [|discriminate].
    exists placed, mp. split; [reflexivity|].
    destruct (type sch) eqn:Ht; try congruence;
      try (inversion H; subst; split; reflexivity);
      try (destruct (bool_decide _);
           [|inversion H; subst; split; reflexivity]).
    + unfold cyaml__read_scalar_value in H. rewrite Ht in H. simpl in H.
      destruct (ev_scalar_value event); [|discriminate].
      eapply read_int_failure_stores_nothing; eassumption.
    + unfold cyaml__read_scalar_value in H. rewrite Ht in H. discriminate.
    + unfold cyaml__read_scalar_value in H. rewrite Ht in H. discriminate.
    + unfold cyaml__read_scalar_value in H. rewrite Ht in H. discriminate.
    + unfold cyaml__read_scalar_value in H. rewrite Ht in H. discriminate.
    + eapply stack_push_heap, H.
Qed.

(** What the append path does, given the current stack entry [st]: the
    placement engine on the schema of the sequence, then the count in the
    entry, then the count field unless the sequence is SEQUENCE_FIXED. *)
Lemma sequence_entry_append_returns (event : yaml_event_t)
    (m m1 : machine) (e : cyaml_err_t) (slot : Z) (st : cyaml_state_t) :
  cur_entry (ctx m) = Some st ->
  sequence_entry_append (schema st) (data st) event m = Returns (e, slot) m1 ->
  exists (e0 : cyaml_err_t) (p : Z) (ma : machine) (sta : cyaml_state_t),
    cyaml__data_handle_pointer (schema st) event (data st) m
    = Returns (e0, p) ma
    /\ cur_entry (ctx ma) = Some sta
    /\ ((e0 <> CYAML_OK /\ e = e0 /\ m1 = ma)
        \/ (e0 = CYAML_OK
            /\ slot = p + (data_size (schema st) * st_sequence_count sta)
                          mod 2 ^ 32
            /\ cur_entry (ctx m1)
               = Some (set_sequence_count
                         ((st_sequence_count sta + 1) mod 2 ^ 32) sta)
            /\ same_but_current (ctx ma) (ctx m1)
            /\ heap_blocks m1 = heap_blocks ma
            /\ heap_next m1 = heap_next ma
            /\ ((type (schema st) = CYAML_SEQUENCE_FIXED /\ e = CYAML_OK
                 /\ heap_bytes m1 = heap_bytes ma)
                \/ (type (schema st) <> CYAML_SEQUENCE_FIXED
                    /\ ((e = CYAML_OK /\ 1 <= st_sequence_count_size sta <= 8
                         /\ heap_bytes m1
                            = store_le (Z.to_nat (st_sequence_count_size sta))
                                (st_sequence_count_data sta)
                                ((st_sequence_count sta + 1) mod 2 ^ 32)
                                (heap_bytes ma))
                        \/ (e = CYAML_ERR_INTERNAL_ERROR
                            /\ ~ 1 <= st_sequence_count_size sta <= 8
                            /\ heap_bytes m1 = heap_bytes ma)))))).
Proof.
  intros Hcur H. unfold sequence_entry_append in H.
  apply bind_returns in H as ([e0 p] & ma & Hp & H).
  assert (Hcur_a : exists sta, cur_entry (ctx ma) = Some sta).
  { destruct (data_handle_pointer_returns _ _ _ _ _ _ _ _ Hcur Hp)
      as [(_ & -> & _) | [(_ & _ & _ & Hc & _) | (_ & _ & _ & d & _ & Hx)]].
    - eauto.
    - rewrite Hc. eauto.
    - cbv zeta in Hx. destruct Hx as (_ & _ & _ & Hc & _). eauto. }
  destruct Hcur_a as [sta Hcur_a].
  exists e0, p, ma, sta. split; [assumption|]. split; [assumption|].
  simpl in H. destruct (is_err e0) eqn:He0.
  { inversion H; subst. left. split; [apply is_err_true; assumption|auto]. }
  apply is_err_false in He0. subst e0. right. split; [reflexivity|].
  apply bind_returns in H as (st' & mb & Hd & H).
  apply deref_state_returns in Hd as [-> Hcur']. rewrite Hcur_a in Hcur'.
  inversion Hcur'; subst st'. clear Hcur'.
  apply bind_returns in H as (u & mb & Hu & H).
  apply (update_state_returns _ _ _ _ _ Hcur_a) in Hu
    as (Hcur_b & Hsame & Hby & Hbl & Hnx).
  apply bind_returns in H as (e1 & mc & Hw & H).
  inversion H; subst e1 slot mc. clear H.
  destruct (decide (type (schema st) = CYAML_SEQUENCE_FIXED)) as [Hfix|Hfix].
  - rewrite bool_decide_false in Hw by (intros Hn; apply Hn; assumption).
    inversion Hw; subst. split; [reflexivity|].
    split; [assumption|]. split; [assumption|]. split; [assumption|].
    split; [assumption|]. left. auto.
  - rewrite bool_decide_true in Hw by assumption.
    apply data_write_returns in Hw as (Hctx & Hbl' & Hnx' & Hw).
    split; [reflexivity|]. split; [congruence|].
    split; [rewrite Hctx; assumption|]. split; [congruence|].
    split; [congruence|]. right. split; [assumption|].
    destruct Hw as [(-> & Hr & Hst) | (-> & Hr & Hst)].
    + left. split; [reflexivity|]. split; [assumption|]. congruence.
    + right. split; [reflexivity|]. split; [assumption|]. congruence.
Qed.

(** The placement engine changes the current entry in [sequence.data] at
    most. *)
Lemma data_handle_pointer_entry (sch : cyaml_schema_type_t)
    (event : yaml_event_t) (dat : Z) (m m1 : machine)
    (r : cyaml_err_t * Z) (st st1 : cyaml_state_t) :
  cur_entry (ctx m) = Some st ->
  cyaml__data_handle_pointer sch event dat m = Returns r m1 ->
  cur_entry (ctx m1) = Some st1 ->
  st1 = set_sequence_data (st_sequence_data st1) st.
Proof.
  intros Hcur Hp Hcur1. destruct r as [e p].
  destruct (data_handle_pointer_returns _ _ _ _ _ _ _ _ Hcur Hp)
    as [(_ & -> & _) | [(_ & _ & _ & Hc & _) | (_ & _ & _ & d & _ & Hx)]].
  - rewrite Hcur in Hcur1. inversion Hcur1; subst.
    symmetry. apply set_sequence_data_same.
  - rewrite Hc, Hcur in Hcur1. inversion Hcur1; subst.
    symmetry. apply set_sequence_data_same.
  - cbv zeta in Hx. destruct Hx as (_ & _ & _ & Hc & _).
    rewrite Hc in Hcur1. inversion Hcur1.
    destruct (bool_decide _); [destruct st; reflexivity|].
    symmetry. apply set_sequence_data_same.
Qed.

Lemma new_sequence_entry_eq (event : yaml_event_t) (m m1 : machine)
    (st : cyaml_state_t) (slot : Z) (elem : cyaml_schema_type_t) :
  cur_entry (ctx m) = Some st ->
  sequence_entry_append (schema st) (data st) event m
  = Returns (CYAML_OK, slot) m1 ->
  sequence_schema (schema st) = Some elem ->
  cyaml__new_sequence_entry event m = cyaml__read_value elem slot event m1.
Proof.
  intros Hcur Ha He. unfold cyaml__new_sequence_entry, bind, deref_state.
  rewrite Hcur, Ha. simpl. rewrite He. reflexivity.
Qed.

(** X24.  In a sequence that is not SEQUENCE_FIXED, when the append path
    hands the event over to the value handler the count of the entry has
    been incremented and the incremented count has been written into the
    parent's count field, in the width of the field.  The value handler is
    called on that machine.  When the value then fails to load, the failed
    handler has stored nothing but what its own call of the placement engine
    stored: if that call has left the count field alone (it does nothing at
    all on an element without the owning-pointer flag), the count field
    holds the count that includes the failed element at the moment the
    error is returned. *)
Theorem count_field_written_before_value (m : machine) (st : cyaml_state_t)
    (event : yaml_event_t) (slot : Z) (m1 : machine) :
  cur_entry (ctx m) = Some st ->
  type (schema st) <> CYAML_SEQUENCE_FIXED ->
  sequence_entry_append (schema st) (data st) event m
  = Returns (CYAML_OK, slot) m1 ->
  let count := (st_sequence_count st + 1) mod 2 ^ 32 in
  let written := Some (count mod 2 ^ (8 * st_sequence_count_size st)) in
  (exists st1, cur_entry (ctx m1) = Some st1 /\ st_sequence_count st1 = count)
  /\ count_field st m1 = written
  /\ (forall elem, sequence_schema (schema st) = Some elem ->
        cyaml__new_sequence_entry event m
        = cyaml__read_value elem slot event m1)
  /\ (forall elem err m2,
        cyaml__read_value elem slot event m1 = Returns err m2 ->
        err <> CYAML_OK ->
        (forall r mp,
           cyaml__data_handle_pointer elem event slot m1 = Returns r mp ->
           count_field st mp = count_field st m1) ->
        count_field st m2 = written).
Proof.
  intros Hcur Hnf Ha count written.
  destruct (sequence_entry_append_returns _ _ _ _ _ _ Hcur Ha)
    as (e0 & p & ma & sta & Hp & Hcur_a & Hcases).
  destruct Hcases as [(Hne & <- & _) | (-> & _ & Hcur1 & _ & _ & _ & Hw)];
    [contradiction|].
  pose proof (data_handle_pointer_entry _ _ _ _ _ _ _ _ Hcur Hp Hcur_a)
    as Hsta.
  assert (Hcount : st_sequence_count sta = st_sequence_count st)
    by (rewrite Hsta; reflexivity).
  assert (Hsize : st_sequence_count_size sta = st_sequence_count_size st)
    by (rewrite Hsta; reflexivity).
  assert (Hdata : st_sequence_count_data sta = st_sequence_count_data st)
    by (rewrite Hsta; reflexivity).
  destruct Hw as [(Hfix & _) | (_ & [(_ & Hr & Hby) | (Hbad & _)])];
    [contradiction | | discriminate].
  rewrite Hcount, Hsize, Hdata in Hby. rewrite Hsize in Hr.
  assert (Hfield : count_field st m1 = written).
  { unfold count_field. rewrite Hby, load_store_le.
    unfold written, count. rewrite Z2Nat.id by lia. reflexivity. }
  split.
  { eexists. split; [exact Hcur1|]. simpl. rewrite Hcount. reflexivity. }
  split; [exact Hfield|].
  split; [intros elem He; eapply new_sequence_entry_eq; eassumption|].
  intros elem err m2 Hv Hne Hplaced.
  destruct (read_value_failure_stores_nothing _ _ _ _ _ _ Hv Hne)
    as [Hseq Hother].
  destruct (decide (type elem = CYAML_SEQUENCE)) as [Hs|Hs].
  { destruct (Hseq (or_introl Hs)) as [Hb _].
    unfold count_field in *. rewrite Hb. exact Hfield. }
  destruct (decide (type elem = CYAML_SEQUENCE_FIXED)) as [Hf|Hf].
  { destruct (Hseq (or_intror Hf)) as [Hb _].
    unfold count_field in *. rewrite Hb. exact Hfield. }
  destruct (Hother Hs Hf) as (r & mp & Hhp & [Hb _]).
  specialize (Hplaced r mp Hhp).
  unfold count_field in *. rewrite Hb, Hplaced. exact Hfield.
Qed.

(** The theorem in the load of [a: [1, x]] against a sequence of INT
    elements of two bytes in a block of its own, with a count field of four
    bytes at offset 8 of the root: when [x] is handed to the value handler,
    which will reject it, the count field holds 2. *)
Lemma count_field_written_before_value_witness :
  let elem := scalar_node CYAML_INT 0 2 in
  let seq := sequence_node CYAML_SEQUENCE CYAML_FLAG_POINTER 2 elem 8 4 in
  let m := parser_advanced
             (machine_after (one_field 12 seq)
                            (a_lists ["1"%string; "x"%string]) 6 []) in
  exists slot m1,
    sequence_entry_append seq (block_base 0) (scalar_event "x") m
    = Returns (CYAML_OK, slot) m1
    /\ count_field (current_entry m) m1 = Some 2.
Proof.
  cbv zeta.
  set (m := parser_advanced
              (machine_after
                 (one_field 12
                    (sequence_node CYAML_SEQUENCE CYAML_FLAG_POINTER 2
                                   (scalar_node CYAML_INT 0 2) 8 4))
                 (a_lists ["1"%string; "x"%string]) 6 [])).
  assert (Hcur : cur_entry (ctx m) = Some (current_entry m))
    by (vm_compute; reflexivity).
  assert (Ha : exists slot m1,
             sequence_entry_append (schema (current_entry m))
               (data (current_entry m)) (scalar_event "x") m
             = Returns (CYAML_OK, slot) m1)
    by (eexists _, _; vm_compute; reflexivity).
  destruct Ha as (slot & m1 & Ha).
  exists slot, m1. split; [exact Ha|].
  destruct (count_field_written_before_value m (current_entry m)
              (scalar_event "x") slot m1 Hcur
              ltac:(vm_compute; discriminate) Ha)
    as (_ & Hfield & _).
  exact Hfield.
Defined.

(** C10, the failing input.  A sequence stored in the root itself, one slot
    of eight bytes at offset 0, whose elements are INT values of four bytes
    with the owning-pointer flag, and a count field of four bytes at offset
    8, against the document [a: [1, x]].  When [x] arrives the entry holds
    one element and the count field 1.  The append path puts the slot of the
    second element eight bytes into the storage of the sequence, which is
    the address of the count field, and writes the count 2.  The value
    handler then runs the placement engine on the element, which stores the
    address of a block in the eight bytes of the slot, and only then finds
    that [x] is no number: INVALID_VALUE is returned with the count field
    holding the low four bytes of that address, 0, not 2. *)
Theorem count_field_lost_when_value_fails :
  let elem := scalar_node CYAML_INT CYAML_FLAG_POINTER 4 in
  let seq := sequence_node CYAML_SEQUENCE 0 8 elem 8 4 in
  let sch := one_field 12 seq in
  let doc := a_lists ["1"%string; "x"%string] in
  let m := parser_advanced (machine_after sch doc 6 []) in
  let st := current_entry m in
  (cur_entry (ctx m) = Some st
   /\ state st = CYAML_STATE_IN_SEQUENCE
   /\ schema st = seq
   /\ st_sequence_count st = 1
   /\ count_field st m = Some 1)
  /\ (exists (slot : Z) (m1 m2 : machine),
        sequence_entry_append seq (data st) (scalar_event "x") m
        = Returns (CYAML_OK, slot) m1
        /\ slot = st_sequence_count_data st
        /\ count_field st m1 = Some 2
        /\ cyaml__read_value elem slot (scalar_event "x") m1
           = Returns CYAML_ERR_INVALID_VALUE m2
        /\ cyaml__new_sequence_entry (scalar_event "x") m
           = Returns CYAML_ERR_INVALID_VALUE m2
        /\ count_field st m2 = Some 0)
  /\ result_of (cyaml__load (mk_config 0) sch 0 doc (start_machine [] 0))
     = Some (CYAML_ERR_INVALID_VALUE, 0).
Proof.
  cbv zeta.
  split.
  { split; [vm_compute; reflexivity|]. split; [vm_compute; reflexivity|].
    split; [vm_compute; reflexivity|]. split; vm_compute; reflexivity. }
  split; [|vm_compute; reflexivity].
  eexists _, _, _.
  split; [vm_compute; reflexivity|]. split; [vm_compute; reflexivity|].
  split; [vm_compute; reflexivity|]. split; [vm_compute; reflexivity|].
  split; vm_compute; reflexivity.
Qed.

(** ** The frame of a sequence, event by event *)

Lemma ctx_wf_same_but_current (c c1 : cyaml_ctx_t) :
  same_but_current c c1 -> ctx_wf c -> ctx_wf c1.
Proof.
  intros (_ & Hs & Hi & Hm & _ & Hl & _) (A & B & C & D & E).
  unfold ctx_wf. rewrite Hs, Hi, Hm, Hl. auto.
Qed.

(** A push that returns OK, on a context in order: the entries below the
    new one are as they were, the heap is untouched, and the new entry is the
    current one. *)
Lemma stack_push_returns (s : cyaml_state_e) (sch : cyaml_schema_type_t)
    (dat : Z) (m m' : machine) :
  ctx_wf (ctx m) ->
  cyaml__stack_push s sch dat m = Returns CYAML_OK m' ->
  heap_same m m'
  /\ stack_idx (ctx m') = stack_idx (ctx m) + 1
  /\ ctx_state (ctx m') = Some (stack_idx (ctx m))
  /\ (forall j : nat, (j < Z.to_nat (stack_idx (ctx m)))%nat ->
                      stack (ctx m') !! j = stack (ctx m) !! j)
  /\ exists st', cur_entry (ctx m') = Some st'
                 /\ state st' = s /\ schema st' = sch /\ data st' = dat
                 /\ st_sequence_count st' = 0 /\ st_sequence_data st' = 0.
Proof.
  intros (W1 & W2 & W3 & W4 & W5) H.
  pose proof (stack_push_heap _ _ _ _ _ _ H) as Hheap.
  split; [exact Hheap|].
  unfold cyaml__stack_push in H.
  apply bind_returns in H as (e1 & m1 & He & H).
  assert (Hm1 : e1 = CYAML_OK ->
                stack_idx (ctx m1) = stack_idx (ctx m)
                /\ ctx_state (ctx m1) = Some (stack_idx (ctx m) - 1)
                /\ (Z.to_nat (stack_idx (ctx m)) < length (stack (ctx m1)))%nat
                /\ (forall j : nat, (j < Z.to_nat (stack_idx (ctx m)))%nat ->
                                    stack (ctx m1) !! j = stack (ctx m) !! j)).
  { intros ->.
    destruct (Z.lt_ge_cases (stack_idx (ctx m)) (stack_max (ctx m)))
      as [Hroom|Hfull].
    - rewrite stack_ensure_room in He by assumption.
      inversion He; subst m1.
      split; [reflexivity|]. split; [assumption|]. split; [lia|]. auto.
    - destruct (decide (fst (next_alloc m) = AllocFail)) as [Hf|Hf].
      + unfold cyaml__stack_ensure in He.
        destruct (Z.ltb_spec (stack_idx (ctx m)) (stack_max (ctx m)));
          [lia|].
        rewrite Hf in He. discriminate.
      + rewrite stack_ensure_full in He by (assumption || lia).
        inversion He; subst m1. simpl.
        rewrite Z.mod_small by lia.
        split; [reflexivity|]. split; [reflexivity|].
        split; [rewrite length_resize; lia|].
        intros j Hj. apply lookup_resize; lia. }
  destruct (is_err e1) eqn:E1.
  { inversion H; subst. discriminate. }
  apply is_err_false in E1.
  destruct (Hm1 E1) as (Hidx1 & Hst1 & Hlen1 & Hpre1). clear Hm1.
  apply bind_returns in H as (filled & m2 & Hf & H).
  assert (Hfilled : m2 = m1 /\
            (forall s', filled = inr s' ->
               state s' = s /\ schema s' = sch /\ data s' = dat
               /\ st_sequence_count s' = 0 /\ st_sequence_data s' = 0)).
  { destruct s; try (inversion Hf; subst; split; [reflexivity|];
                     intros s' Hs; inversion Hs; subst; simpl; auto).
    - destruct (decide _); inversion Hf; subst. split; [reflexivity|].
      intros s' Hs; inversion Hs; subst; simpl; auto.
    - destruct (type sch);
        try (inversion Hf; subst; split; [reflexivity|];
             intros s' Hs; discriminate);
        apply bind_returns in Hf as (par & m3 & Hd & Hf);
        apply deref_state_returns in Hd as [-> _];
        inversion Hf; subst; (split; [reflexivity|]);
        intros s' Hs; inversion Hs; subst; simpl; auto. }
  destruct Hfilled as [-> Hfilled].
  destruct filled as [e2|s'].
  { inversion H; subst. exfalso.
    destruct s; try discriminate.
    - destruct (decide _); discriminate.
    - destruct (type sch); try discriminate;
        apply bind_returns in Hf as (par & m3 & Hd & Hf); discriminate. }
  destruct (Hfilled s' eq_refl) as (S1 & S2 & S3 & S4 & S5).
  unfold bind, get_ctx, put_ctx, ret, stop in H.
  destruct (Nat.ltb_spec (Z.to_nat (stack_idx (ctx m1)))
                         (length (stack (ctx m1)))) as [Hin|Hout];
    inversion H; subst m'. clear H. simpl.
  rewrite Hidx1.
  split; [apply Z.mod_small; lia|].
  split; [reflexivity|].
  split.
  { intros j Hj. rewrite list_lookup_insert_ne by lia. apply Hpre1, Hj. }
  exists s'. split; [|auto].
  unfold cur_entry. simpl.
  destruct (Z.leb_spec 0 (stack_idx (ctx m))); [|lia].
  apply list_lookup_insert_eq. lia.
Qed.

(** A decoder that returns OK has stored the bytes of the value in its
    target and nothing else. *)
Lemma read_int_ok_stores_in_target (sch : cyaml_schema_type_t)
    (text : string) (dat : Z) (m m' : machine) :
  cyaml__read_int sch text dat m = Returns CYAML_OK m' ->
  ctx m' = ctx m /\ heap_blocks m' = heap_blocks m
  /\ forall x, x < dat \/ dat + data_size sch <= x ->
               heap_bytes m' !! x = heap_bytes m !! x.
Proof.
  unfold cyaml__read_int. intros H.
  destruct (64 <=? _); [discriminate|].
  destruct (_ || _ || _ || _); [discriminate|].
  apply data_write_returns in H as (Hctx & Hbl & _ & Hw).
  destruct Hw as [(_ & Hr & Hby) | (Hbad & _)]; [|discriminate].
  destruct (sr_erange _); simpl in *;
    (split; [assumption|]; split; [assumption|];
     intros x Hx; rewrite Hby; apply store_le_other; lia).
Qed.

(** The value handler on an element without the owning-pointer flag, when
    it returns OK: it has stored inside the slot only, it has left the
    blocks alone, and the entries of the stack that were there are as they
    were. *)
Lemma read_value_inline_returns (elem : cyaml_schema_type_t) (slot : Z)
    (event : yaml_event_t) (m1 m2 : machine) :
  has_pointer_flag elem = false ->
  ctx_wf (ctx m1) ->
  cyaml__read_value elem slot event m1 = Returns CYAML_OK m2 ->
  heap_blocks m2 = heap_blocks m1
  /\ (forall j : nat, (j < Z.to_nat (stack_idx (ctx m1)))%nat ->
                      stack (ctx m2) !! j = stack (ctx m1) !! j)
  /\ (forall x, x < slot \/ slot + data_size elem <= x ->
                heap_bytes m2 !! x = heap_bytes m1 !! x).
Proof.
  intros Hflag Hwf H.
  assert (Hpush : forall s,
            cyaml__stack_push s elem slot m1 = Returns CYAML_OK m2 ->
            heap_blocks m2 = heap_blocks m1
            /\ (forall j : nat, (j < Z.to_nat (stack_idx (ctx m1)))%nat ->
                                stack (ctx m2) !! j = stack (ctx m1) !! j)
            /\ (forall x, x < slot \/ slot + data_size elem <= x ->
                          heap_bytes m2 !! x = heap_bytes m1 !! x)).
  { intros s Hp.
    apply (stack_push_returns _ _ _ _ _ Hwf) in Hp
      as ([Hby Hbl] & _ & _ & Hpre & _).
    split; [assumption|]. split; [assumption|].
    intros x _. rewrite Hby. reflexivity. }
  destruct (decide (type elem = CYAML_SEQUENCE
                    \/ type elem = CYAML_SEQUENCE_FIXED)) as [Hk|Hk].
  - unfold cyaml__read_value in H.
    assert (Hb : bool_decide (type elem <> CYAML_SEQUENCE)
                 && bool_decide (type elem <> CYAML_SEQUENCE_FIXED) = false).
    { destruct Hk as [-> | ->]; reflexivity. }
    rewrite Hb in H. apply bind_returns in H as (d & m' & Hr & H).
    inversion Hr; subst d m'. clear Hr.
    destruct Hk as [Hk | Hk]; rewrite Hk in H;
      (destruct (negb _); [discriminate | eapply Hpush, H]).
  - rewrite read_value_placement_first in H by tauto.
    rewrite data_handle_pointer_inline in H by assumption. simpl in H.
    destruct (type elem) eqn:Ht; try (exfalso; tauto);
      try discriminate;
      try (inversion H; subst; auto);
      try (destruct (bool_decide _); [|discriminate]).
    + unfold cyaml__read_scalar_value in H. rewrite Ht in H. simpl in H.
      destruct (ev_scalar_value event); [|discriminate].
      apply read_int_ok_stores_in_target in H as (Hctx & Hbl & Hby).
      split; [assumption|]. split; [rewrite Hctx; auto | assumption].
    + unfold cyaml__read_scalar_value in H. rewrite Ht in H. discriminate.
    + unfold cyaml__read_scalar_value in H. rewrite Ht in H. discriminate.
    + unfold cyaml__read_scalar_value in H. rewrite Ht in H. discriminate.
    + unfold cyaml__read_scalar_value in H. rewrite Ht in H. discriminate.
    + eapply Hpush, H.
Qed.

(** X23.  The elements of a sequence, event by event, for elements without
    the owning-pointer flag.

    A push for a sequence leaves an entry that holds no element.

    Let the current entry be an entry of a sequence that holds [n]
    elements, on a load context in order, the elements being without the
    owning-pointer flag, and let a sequence-entry event be admitted
    ([cyaml__new_sequence_entry] returns OK), the sizes staying below
    [2^32].  Then the append path has handed the event over with the new
    slot [n] elements into the storage of the sequence; the entry holds
    [n + 1] elements afterwards, its block being [n + 1] elements of
    [data_size] bytes when the sequence carries the owning-pointer flag; for
    a SEQUENCE the count field of the parent holds [n + 1], cut to the width
    of the field, at the hand-over; for a SEQUENCE_FIXED the append path has
    stored nothing after the placement engine, so the count field is not
    written; the value handler has stored inside the new slot only; so for a
    SEQUENCE whose new slot lies clear of the count field, the count field
    still holds [n + 1], cut to its width, once the event is admitted. *)
Theorem sequence_entry_admitted (m m2 : machine) (st : cyaml_state_t)
    (elem : cyaml_schema_type_t) (event : yaml_event_t) (n i : Z) :
  (forall (sch : cyaml_schema_type_t) (dat : Z) (m0 m' : machine),
     ctx_wf (ctx m0) ->
     cyaml__stack_push CYAML_STATE_IN_SEQUENCE sch dat m0
     = Returns CYAML_OK m' ->
     exists st0, cur_entry (ctx m') = Some st0 /\ schema st0 = sch
                 /\ sequence_frame_holds st0 m' 0)
  /\ (ctx_wf (ctx m) ->
      cur_entry (ctx m) = Some st ->
      ctx_state (ctx m) = Some i ->
      type (schema st) = CYAML_SEQUENCE
      \/ type (schema st) = CYAML_SEQUENCE_FIXED ->
      sequence_schema (schema st) = Some elem ->
      has_pointer_flag elem = false ->
      sequence_frame_holds st m n ->
      0 <= n -> n + 1 < 2 ^ 32 ->
      0 <= data_size (schema st) ->
      data_size (schema st) * (n + 1) < 2 ^ 32 ->
      cyaml__new_sequence_entry event m = Returns CYAML_OK m2 ->
      exists (slot : Z) (m1 : machine) (st2 : cyaml_state_t),
        sequence_entry_append (schema st) (data st) event m
        = Returns (CYAML_OK, slot) m1
        /\ cyaml__read_value elem slot event m1 = Returns CYAML_OK m2
        /\ stack (ctx m2) !! Z.to_nat i = Some st2
        /\ schema st2 = schema st
        /\ sequence_frame_holds st2 m2 (n + 1)
        /\ slot = (if has_pointer_flag (schema st)
                   then st_sequence_data st2 else data st)
                  + data_size (schema st) * n
        /\ (type (schema st) = CYAML_SEQUENCE ->
            count_field st m1
            = Some ((n + 1) mod 2 ^ (8 * st_sequence_count_size st)))
        /\ (type (schema st) = CYAML_SEQUENCE_FIXED ->
            exists r ma,
              cyaml__data_handle_pointer (schema st) event (data st) m
              = Returns r ma
              /\ heap_bytes m1 = heap_bytes ma)
        /\ (forall x, x < slot \/ slot + data_size elem <= x ->
                      heap_bytes m2 !! x = heap_bytes m1 !! x)
        /\ (type (schema st) = CYAML_SEQUENCE ->
            slot + data_size elem <= st_sequence_count_data st
            \/ st_sequence_count_data st + st_sequence_count_size st <= slot ->
            count_field st m2
            = Some ((n + 1) mod 2 ^ (8 * st_sequence_count_size st)))).
Proof.
  split.
  { intros sch dat m0 m' Hwf Hp.
    apply (stack_push_returns _ _ _ _ _ Hwf) in Hp
      as (_ & _ & _ & _ & st0 & Hc & S1 & S2 & _ & S4 & S5).
    exists st0. split; [assumption|]. split; [assumption|].
    split; [assumption|]. split; [assumption|]. intros _. exact S5. }
  intros Hwf Hcur Hi Hkind Helem Hflag (Hstate & Hcount & Hblock)
         Hn Hn32 Hds Hsz Hadm.
  assert (Hoff : (data_size (schema st) * n) mod 2 ^ 32
                 = data_size (schema st) * n)
    by (apply Z.mod_small; nia).
  assert (Hnostr : type (schema st) <> CYAML_STRING)
    by (destruct Hkind as [-> | ->]; discriminate).
  (* the admitted event went through the append path and the value handler *)
  unfold cyaml__new_sequence_entry in Hadm.
  apply bind_returns in Hadm as (st' & m' & Hd & Hadm).
  apply deref_state_returns in Hd as [-> Hcur'].
  rewrite Hcur in Hcur'. inversion Hcur'; subst st'. clear Hcur'.
  apply bind_returns in Hadm as ([e slot] & m1 & Ha & Hadm).
  simpl in Hadm. destruct (is_err e) eqn:He.
  { inversion Hadm; subst. discriminate. }
  apply is_err_false in He. subst e. rewrite Helem in Hadm.
  exists slot, m1.
  destruct (sequence_entry_append_returns _ _ _ _ _ _ Hcur Ha)
    as (e0 & p & ma & sta & Hp & Hcur_a & Hcases).
  destruct Hcases
    as [(Hne & <- & _) | (-> & Hslot & Hcur1 & Hsame1 & Hbl1 & _ & Hw)];
    [contradiction|].
  pose proof (data_handle_pointer_entry _ _ _ _ _ _ _ _ Hcur Hp Hcur_a)
    as Hsta.
  assert (Hcount_a : st_sequence_count sta = n)
    by (rewrite Hsta; simpl; assumption).
  rewrite Hcount_a in Hslot, Hcur1, Hw. rewrite Hoff in Hslot.
  rewrite (Z.mod_small (n + 1)) in Hcur1, Hw by lia.
  (* what the placement engine did *)
  assert (Hplaced :
            same_but_current (ctx m) (ctx ma)
            /\ if has_pointer_flag (schema st)
               then st_sequence_data sta = p
                    /\ heap_blocks ma !! p
                       = Some (data_size (schema st) * (n + 1))
               else p = data st).
  { destruct (data_handle_pointer_returns _ _ _ _ _ _ _ _ Hcur Hp)
      as [(Hf & -> & _ & ->)
         | [(_ & Hoom & _) | (Hf & _ & _ & delta & Hdelta & Hx)]].
    - rewrite Hf. split; [apply same_but_current_refl | reflexivity].
    - discriminate.
    - rewrite Hf. cbv zeta in Hx.
      rewrite bool_decide_true in Hx by assumption.
      destruct Hx as (Hsize & _ & _ & Hc & Hsame & _).
      split; [assumption|].
      rewrite Hcur_a in Hc. inversion Hc; subst sta.
      split; [reflexivity|].
      rewrite Hsize, (Hdelta Hnostr), Hcount, Hoff. f_equal.
      rewrite Z.mod_small by nia. lia. }
  destruct Hplaced as [Hsame_a Hplaced].
  assert (Hwf1 : ctx_wf (ctx m1)).
  { eapply ctx_wf_same_but_current; [exact Hsame1|].
    eapply ctx_wf_same_but_current; [exact Hsame_a | exact Hwf]. }
  assert (Hi1 : ctx_state (ctx m1) = Some i).
  { destruct Hsame1 as (_ & -> & _). destruct Hsame_a as (_ & -> & _).
    assumption. }
  assert (Hidx1 : stack_idx (ctx m1) = i + 1).
  { destruct Hwf1 as (_ & _ & _ & W4 & _). rewrite Hi1 in W4.
    inversion W4. lia. }
  destruct (read_value_inline_returns _ _ _ _ _ Hflag Hwf1 Hadm)
    as (Hbl2 & Hpre2 & Hby2).
  destruct (cur_entry_lookup _ _ Hcur1) as (i' & Hi' & Hpos & Hl1).
  rewrite Hi1 in Hi'. inversion Hi'; subst i'. clear Hi'.
  exists (set_sequence_count (n + 1) sta).
  split; [exact Ha|]. split; [exact Hadm|].
  split; [rewrite Hpre2 by lia; exact Hl1|].
  split; [rewrite Hsta; reflexivity|].
  split.
  { split; [rewrite Hsta; simpl; assumption|].
    split; [reflexivity|].
    intros Hf. simpl. destruct (Z.eqb_spec (n + 1) 0); [lia|].
    rewrite Hsta in Hf. simpl in Hf. rewrite Hf in Hplaced.
    destruct Hplaced as [Hd Hsize].
    rewrite Hsta. simpl. rewrite Hd, Hbl2, Hbl1. exact Hsize. }
  split.
  { rewrite Hslot. f_equal.
    destruct (has_pointer_flag (schema st)); simpl; [|assumption].
    symmetry. apply Hplaced. }
  assert (Hfield : type (schema st) = CYAML_SEQUENCE ->
                   count_field st m1
                   = Some ((n + 1) mod 2 ^ (8 * st_sequence_count_size st))).
  { intros Hseq.
    destruct Hw as [(Hfix & _) | (_ & [(_ & Hr & Hby) | (Hbad & _)])];
      [congruence | | discriminate].
    assert (Hsz' : st_sequence_count_size sta = st_sequence_count_size st)
      by (rewrite Hsta; reflexivity).
    assert (Hcd : st_sequence_count_data sta = st_sequence_count_data st)
      by (rewrite Hsta; reflexivity).
    rewrite Hsz', Hcd in Hby. rewrite Hsz' in Hr.
    unfold count_field. rewrite Hby, load_store_le.
    rewrite Z2Nat.id by lia. reflexivity. }
  split; [exact Hfield|].
  split.
  { intros Hfix.
    destruct Hw as [(_ & _ & Hby) | (Hnf & _)]; [|contradiction].
    exists (CYAML_OK, p), ma. auto. }
  split; [exact Hby2|].
  intros Hseq Hclear. rewrite <- (Hfield Hseq).
  unfold count_field. apply load_le_agree.
  intros x Hx. apply Hby2.
  destruct (Z_le_gt_dec (st_sequence_count_size st) 0) as [Hle|Hgt].
  - rewrite Z2Nat.nonpos in Hx by assumption. simpl in Hx. lia.
  - rewrite Z2Nat.id in Hx by lia. lia.
Qed.

(** The theorem in the load of [a: [1, 2]] against a sequence of INT
    elements of two bytes in a block of its own: the entry holds one
    element when the event [2] arrives, and two once it is admitted. *)
Lemma sequence_entry_admitted_witness :
  let elem := scalar_node CYAML_INT 0 2 in
  let seq := sequence_node CYAML_SEQUENCE CYAML_FLAG_POINTER 2 elem 8 4 in
  let m := parser_advanced
             (machine_after (one_field 12 seq)
                            (a_lists ["1"%string; "2"%string]) 6 []) in
  exists m2 st2,
    cyaml__new_sequence_entry (scalar_event "2") m = Returns CYAML_OK m2
    /\ stack (ctx m2) !! 4%nat = Some st2
    /\ sequence_frame_holds st2 m2 2.
Proof.
  cbv zeta.
  set (elem := scalar_node CYAML_INT 0 2).
  set (m := parser_advanced
              (machine_after
                 (one_field 12
                    (sequence_node CYAML_SEQUENCE CYAML_FLAG_POINTER 2
                                   elem 8 4))
                 (a_lists ["1"%string; "2"%string]) 6 [])).
  assert (Hadm : exists m2,
             cyaml__new_sequence_entry (scalar_event "2") m
             = Returns CYAML_OK m2)
    by (eexists; vm_compute; reflexivity).
  destruct Hadm as [m2 Hadm]. exists m2.
  assert (Hwf : ctx_wf (ctx m)).
  { unfold ctx_wf.
    split; [vm_compute; discriminate|]. split; [vm_compute; discriminate|].
    split; [vm_compute; reflexivity|]. split; vm_compute; reflexivity. }
  assert (Hholds : sequence_frame_holds (current_entry m) m 1).
  { split; [vm_compute; reflexivity|]. split; [vm_compute; reflexivity|].
    intros _. vm_compute. reflexivity. }
  destruct (proj2 (sequence_entry_admitted m m2 (current_entry m) elem
                     (scalar_event "2") 1 4)
              Hwf ltac:(vm_compute; reflexivity) ltac:(vm_compute; reflexivity)
              ltac:(left; vm_compute; reflexivity)
              ltac:(vm_compute; reflexivity) ltac:(vm_compute; reflexivity)
              Hholds ltac:(lia) ltac:(lia) ltac:(vm_compute; discriminate)
              ltac:(vm_compute; reflexivity) Hadm)
    as (slot & m1 & st2 & _ & _ & Hst & _ & Hh & _).
  exists st2. split; [exact Hadm|]. split; [exact Hst | exact Hh].
Defined.

(** C4, the failing input.  A sequence in a block of its own, with slots of
    eight bytes, whose elements are INT values of four bytes that carry the
    owning-pointer flag themselves, with a count field of four bytes at
    offset 8 of the root, against the document [a: [1, 2]].  Both events are
    admitted and the entry counts two elements, but the block of the
    sequence is 12 bytes long, not two slots of eight bytes, and the value
    of the second element lies where the first slot begins: the value
    handler has run the placement engine on the element inside the entry of
    the sequence, where the engine resizes the block of the sequence to
    [data_size * count + data_size] bytes of the element and hands the base
    of the block back as the target.  It is so whether the allocator resizes
    in place or moves the block; when it moves it, the pointer of the root
    is left on a block that is no longer live.  The load returns OK. *)
Theorem sequence_block_with_pointer_elements :
  let elem := scalar_node CYAML_INT CYAML_FLAG_POINTER 4 in
  let seq := sequence_node CYAML_SEQUENCE CYAML_FLAG_POINTER 8 elem 8 4 in
  let sch := one_field 12 seq in
  let doc := a_lists ["1"%string; "2"%string] in
  let stay := [AllocMove; AllocMove; AllocStay; AllocStay; AllocStay;
               AllocStay] in
  let admitted plan m :=
    load_rounds (mk_config 0) sch doc 7 (start_machine plan 0)
    = Returns CYAML_OK m
    /\ state (current_entry m) = CYAML_STATE_IN_SEQUENCE
    /\ st_sequence_count (current_entry m) = 2
    /\ count_field (current_entry m) m = Some 2
    /\ data_size (schema (current_entry m)) = 8
    /\ heap_blocks m !! st_sequence_data (current_entry m) = Some 12
    /\ load_le 4 (st_sequence_data (current_entry m)) (heap_bytes m)
       = Some 2 in
  (exists m, admitted stay m)
  /\ (exists m, admitted [] m
                /\ exists p, load_le 8 (block_base 0) (heap_bytes m) = Some p
                             /\ 0 < p
                             /\ heap_blocks m !! p = None)
  /\ result_of (cyaml__load (mk_config 0) sch 0 doc (start_machine stay 0))
     = Some (CYAML_OK, block_base 0)
  /\ result_of (cyaml__load (mk_config 0) sch 0 doc (start_machine [] 0))
     = Some (CYAML_OK, block_base 0).
Proof.
  cbv zeta.
  split.
  { eexists.
    split; [vm_compute; reflexivity|]. split; [vm_compute; reflexivity|].
    split; [vm_compute; reflexivity|]. split; [vm_compute; reflexivity|].
    split; [vm_compute; reflexivity|]. split; vm_compute; reflexivity. }
  split.
  { eexists. split.
    - split; [vm_compute; reflexivity|]. split; [vm_compute; reflexivity|].
      split; [vm_compute; reflexivity|]. split; [vm_compute; reflexivity|].
      split; [vm_compute; reflexivity|]. split; vm_compute; reflexivity.
    - eexists. split; [vm_compute; reflexivity|].
      split; vm_compute; reflexivity. }
  split; vm_compute; reflexivity.
Qed.

(** * Further properties of the loader *)

(** ** One event a round *)

Lemma parser_kept_refl (m : machine) : parser_kept m m.
Proof. reflexivity. Qed.

Lemma parser_kept_trans (m1 m2 m3 : machine) :
  parser_kept m1 m2 -> parser_kept m2 m3 -> parser_kept m1 m3.
Proof. unfold parser_kept. congruence. Qed.

Lemma kept_ret {A : Type} (a : A) : preserves parser_kept (ret a).
Proof. apply preserves_ret, parser_kept_refl. Qed.

Lemma kept_stop {A : Type} (r : stop_reason) :
  preserves parser_kept (stop r : M A).
Proof. apply preserves_stop. Qed.

Lemma kept_bind {A B : Type} (c : M A) (k : A -> M B) :
  preserves parser_kept c -> (forall a, preserves parser_kept (k a)) ->
  preserves parser_kept (bind c k).
Proof. apply preserves_bind, parser_kept_trans. Qed.

Create HintDb kept discriminated.

Ltac kept_step :=
  match goal with
  | |- _ (bind _ _) => apply @kept_bind; [|intros ?]
  | |- _ (ret _) => apply @kept_ret
  | |- _ (stop _) => apply @kept_stop
  | |- _ (if ?b then _ else _) => destruct b
  | |- _ (match ?x with _ => _ end) => destruct x
  | |- _ => solve [eauto with kept]
  end.

Ltac kept_auto := repeat kept_step.

Ltac leaf_kept f :=
  let H := fresh "H" in
  intros ? ? ? H; unfold f in H;
  repeat match type of H with
         | context [match ?x with _ => _ end] => destruct x eqn:?
         | context [if ?b then _ else _] => destruct b eqn:?
         end;
  inversion H; subst; reflexivity.

Lemma kept_get_ctx : preserves parser_kept get_ctx.
Proof. leaf_kept get_ctx. Qed.

Lemma kept_deref_state : preserves parser_kept deref_state.
Proof. leaf_kept deref_state. Qed.

Lemma kept_update_state f : preserves parser_kept (update_state f).
Proof. leaf_kept update_state. Qed.

Lemma kept_in_sequence : preserves parser_kept cyaml_in_sequence.
Proof. leaf_kept cyaml_in_sequence. Qed.

Lemma kept_realloc p size : preserves parser_kept (realloc p size).
Proof. leaf_kept realloc. Qed.

Lemma kept_memset_zero a n : preserves parser_kept (memset_zero a n).
Proof. leaf_kept memset_zero. Qed.

Lemma kept_data_write v n a : preserves parser_kept (cyaml_data_write v n a).
Proof. leaf_kept cyaml_data_write. Qed.

Lemma kept_stack_ensure : preserves parser_kept cyaml__stack_ensure.
Proof. leaf_kept cyaml__stack_ensure. Qed.

Lemma kept_read_int sch text dat :
  preserves parser_kept (cyaml__read_int sch text dat).
Proof.
  intros m e m' H. unfold cyaml__read_int, cyaml_data_write in H.
  repeat match type of H with
         | context [if ?b then _ else _] => destruct b eqn:?
         end;
  inversion H; subst; reflexivity.
Qed.

Lemma kept_put_ctx (c : cyaml_ctx_t) (m : machine) :
  parser c = parser (ctx m) -> parser_kept m (set_ctx c m).
Proof. intros H. exact H. Qed.

#[global] Hint Resolve kept_get_ctx kept_deref_state kept_update_state
  kept_in_sequence kept_realloc kept_memset_zero kept_data_write
  kept_stack_ensure kept_read_int : kept.

Lemma kept_stack_push st sch dat :
  preserves parser_kept (cyaml__stack_push st sch dat).
Proof.
  unfold cyaml__stack_push.
  apply kept_bind; [auto with kept|]. intros err.
  destruct (is_err err); [apply kept_ret|].
  apply kept_bind.
  - destruct st; kept_auto.
  - intros [e|s']; [apply kept_ret|].
    intros m a m' H. unfold bind, get_ctx, put_ctx, ret, stop in H.
    destruct (_ <? _)%nat; inversion H; subst. reflexivity.
Qed.

Lemma kept_stack_pop : preserves parser_kept cyaml__stack_pop.
Proof.
  intros m a m' H.
  unfold cyaml__stack_pop, bind, get_ctx, put_ctx, ret, deref_state in H.
  destruct (Z.eqb_spec (stack_idx (ctx m)) 0);
    [inversion H; reflexivity|].
  destruct (cur_entry (ctx m)); inversion H; subst. reflexivity.
Qed.

#[global] Hint Resolve kept_stack_push kept_stack_pop : kept.

Lemma kept_data_handle_pointer sch event dat :
  preserves parser_kept (cyaml__data_handle_pointer sch event dat).
Proof. unfold cyaml__data_handle_pointer. kept_auto. Qed.

Lemma kept_read_scalar_value sch dat event :
  preserves parser_kept (cyaml__read_scalar_value sch dat event).
Proof.
  unfold cyaml__read_scalar_value, read_scalar_fn.
  destruct (type sch); kept_auto.
Qed.

#[global] Hint Resolve kept_data_handle_pointer kept_read_scalar_value : kept.

Lemma kept_read_value sch dat event :
  preserves parser_kept (cyaml__read_value sch dat event).
Proof. unfold cyaml__read_value. kept_auto. Qed.

#[global] Hint Resolve kept_read_value : kept.

Lemma kept_sequence_entry_append sch dat event :
  preserves parser_kept (sequence_entry_append sch dat event).
Proof. unfold sequence_entry_append. kept_auto. Qed.

#[global] Hint Resolve kept_sequence_entry_append : kept.

Lemma kept_new_sequence_entry event :
  preserves parser_kept (cyaml__new_sequence_entry event).
Proof. unfold cyaml__new_sequence_entry. kept_auto. Qed.

Lemma kept_assert_in_mask mask event :
  preserves parser_kept (assert_in_mask mask event).
Proof. unfold assert_in_mask. kept_auto. Qed.

#[global] Hint Resolve kept_new_sequence_entry kept_assert_in_mask : kept.

(** The pump takes one result from the parser, whatever it returns. *)
Lemma get_next_event_takes_one (mask : cyaml_event_t) (m m' : machine)
    (got : cyaml_err_t * yaml_event_t) :
  cyaml_get_next_event mask m = Returns got m' ->
  parser (ctx m') = tl (parser (ctx m)).
Proof.
  rewrite get_next_event_eq. cbv zeta.
  assert (Hm : parser (ctx (match parser (ctx m) with
                            | [] => m
                            | _ => parser_advanced m
                            end)) = tl (parser (ctx m)))
    by (destruct (parser (ctx m)) eqn:Hp; simpl; rewrite ?Hp; reflexivity).
  destruct (parser_head m) as [event|]; [|intros H; inversion H; subst; exact Hm].
  destruct (decide _); [intros H; inversion H; subst; exact Hm|].
  destruct (in_mask _ _); intros H; inversion H; subst; exact Hm.
Qed.

(** A handler that calls the pump and then functions that leave the parser
    alone has taken one result when it returns. *)
Lemma pump_then_takes_one (mask : cyaml_event_t)
    (k : cyaml_err_t * yaml_event_t -> M cyaml_err_t) :
  (forall got, preserves parser_kept (k got)) ->
  forall m m' e,
    bind (cyaml_get_next_event mask) k m = Returns e m' ->
    parser (ctx m') = tl (parser (ctx m)).
Proof.
  intros Hk m m' e H.
  apply bind_returns in H as (got & m1 & Hg & Hr).
  apply get_next_event_takes_one in Hg. apply Hk in Hr.
  unfold parser_kept in Hr. congruence.
Qed.

Lemma read_fn_takes_one (s : cyaml_state_e) (m m' : machine)
    (e : cyaml_err_t) :
  read_fn s m = Returns e m' -> parser (ctx m') = tl (parser (ctx m)).
Proof.
  destruct s; simpl.
  - apply pump_then_takes_one. intros got. cbv zeta. kept_auto.
  - apply pump_then_takes_one. intros got. cbv zeta. kept_auto.
  - apply pump_then_takes_one. intros got. cbv zeta. kept_auto.
  - unfold cyaml__read_mapping. intros H.
    apply bind_returns in H as (st & m1 & Hd & H).
    apply deref_state_returns in Hd as (-> & _).
    destruct (st_mapping_state st).
    + revert H. apply pump_then_takes_one. intros got. cbv zeta. kept_auto.
    + unfold cyaml__read_mapping_value in H.
      apply bind_returns in H as (st' & m1 & Hd & H).
      apply deref_state_returns in Hd as (-> & _).
      destruct (_ !! _); [|discriminate].
      revert H. apply pump_then_takes_one. intros got. cbv zeta. kept_auto.
  - apply pump_then_takes_one. intros got. cbv zeta. kept_auto.
Qed.

(** X1.  Every round of the loop of [cyaml__load] that returns, with OK or
    with an error, has taken exactly one result from the parser: the
    handler of the current state calls the event pump once, and nothing
    else in the engine touches the parser. *)
Theorem drive_step_takes_one_event (m m' : machine) (e : cyaml_err_t) :
  drive_step m = Returns e m' ->
  parser (ctx m') = tl (parser (ctx m)).
Proof.
  unfold drive_step. intros H.
  apply bind_returns in H as (st & m1 & Hd & H).
  apply deref_state_returns in Hd as (-> & _).
  exact (read_fn_takes_one _ _ _ _ H).
Qed.

(** The theorem on the round that reads the key [a] of the document
    [a: 7]: the value [7] is the next result of the parser afterwards. *)
Lemma drive_step_takes_one_event_witness :
  let m := machine_after (one_field 4 (scalar_node CYAML_INT 0 4))
                         (a_is "7") 3 [] in
  exists m',
    drive_step m = Returns CYAML_OK m'
    /\ parser (ctx m')
       = Some <$> [scalar_event "7"; plain_event YAML_MAPPING_END_EVENT;
                   plain_event YAML_DOCUMENT_END_EVENT;
                   plain_event YAML_STREAM_END_EVENT].
Proof.
  cbv zeta.
  assert (H : exists m',
             drive_step (machine_after
                           (one_field 4 (scalar_node CYAML_INT 0 4))
                           (a_is "7") 3 [])
             = Returns CYAML_OK m')
    by (eexists; vm_compute; reflexivity).
  destruct H as [m' H]. exists m'. split; [exact H|].
  rewrite (drive_step_takes_one_event _ _ _ H). vm_compute. reflexivity.
Defined.

(** X2.  A load never reaches a bound of the model, whatever the schema,
    the allocator and the results of the parser are: the loop of
    [cyaml__load] runs one round more than the parser has results at most,
    since every round that goes on has taken one, and the loop that unwinds
    the stack runs once per entry.  So do the two entry points. *)
Theorem load_stays_within_its_bounds (cfg : cyaml_config_t)
    (sch : cyaml_schema_type_t) (data_out : Z)
    (yaml_parser : list (option yaml_event_t)) (path : string)
    (ocfg : option cyaml_config_t) (osch : option cyaml_schema_type_t)
    (odata : option Z) :
  within_fuel (cyaml__load cfg sch data_out yaml_parser)
  /\ within_fuel (cyaml_load_data yaml_parser ocfg osch odata)
  /\ within_fuel (cyaml_load_file path ocfg osch odata).
Proof.
  assert (Hv : forall p, within_fuel (load_validated ocfg osch odata p)).
  { intros p. unfold load_validated.
    destruct ocfg, osch, odata; try (apply within_fuel_stop; discriminate).
    apply within_fuel_bind; [apply cyaml__load_within_fuel|].
    intros res. apply within_fuel_ret. }
  split; [apply cyaml__load_within_fuel|]. split.
  - unfold cyaml_load_data. destruct (is_err _); [apply within_fuel_ret|].
    apply within_fuel_bind; [intros m H; discriminate|].
    intros [|]; [apply Hv | apply within_fuel_ret].
  - unfold cyaml_load_file. destruct (is_err _); [apply within_fuel_ret|].
    apply within_fuel_bind; [intros m H; discriminate|].
    intros [contents|]; [|apply within_fuel_ret].
    apply within_fuel_bind; [intros m H; discriminate|].
    intros [|]; [apply Hv | apply within_fuel_ret].
Qed.

(** ** The lookup of a key *)

Lemma get_entry_from_found (fields : list cyaml_schema_mapping_t)
    (k : string) (index : Z) :
  0 <= index -> index + Z.of_nat (length fields) <= 65535 ->
  (get_entry_from fields k index = CYAML_SCHEMA_IDX_NONE
   /\ forall e, e ∈ fields -> key e <> k)
  \/ exists (i : nat) (e : cyaml_schema_mapping_t),
       get_entry_from fields k index = index + Z.of_nat i
       /\ fields !! i = Some e /\ key e = k
       /\ forall (j : nat) (e' : cyaml_schema_mapping_t),
            (j < i)%nat -> fields !! j = Some e' -> key e' <> k.
Proof.
  revert index. induction fields as [|f fields IH]; intros index H0 Hlen.
  - left. split; [reflexivity|]. intros e He. inversion He.
  - simpl in *. destruct (String.eqb_spec (key f) k) as [Heq|Hne].
    + right. exists 0%nat, f. split; [lia|]. split; [reflexivity|].
      split; [assumption|]. intros j e' Hj. lia.
    + rewrite Z.mod_small by lia.
      destruct (IH (index + 1)) as [(Hn & Hall) | (i & e & Hi & Hl & Hk & Hfirst)];
        [lia | lia | |].
      * left. split; [assumption|]. intros e He.
        apply elem_of_cons in He as [-> | He]; [assumption | auto].
      * right. exists (S i), e. split; [lia|]. split; [assumption|].
        split; [assumption|]. intros [|j] e' Hj Hl'.
        -- simpl in Hl'. inversion Hl'; subst. assumption.
        -- simpl in Hl'. apply (Hfirst j); [lia | assumption].
Qed.

(** X3.  The lookup of a key in the field table of a mapping, for a table of
    65535 fields at most (the index is a [uint16_t], and 65535 is the value
    that says the key was not found).  The lookup returns
    [CYAML_SCHEMA_IDX_NONE] exactly when no field has the key; otherwise it
    returns the index of the first field that has it, the keys being
    compared byte for byte. *)
Theorem get_entry_from_mapping_schema_first_match
    (fields : list cyaml_schema_mapping_t) (k : string) :
  Z.of_nat (length fields) <= 65535 ->
  let idx := cyaml__get_entry_from_mapping_schema fields k in
  (idx = CYAML_SCHEMA_IDX_NONE <-> forall e, e ∈ fields -> key e <> k)
  /\ (idx <> CYAML_SCHEMA_IDX_NONE ->
      exists e, fields !! Z.to_nat idx = Some e /\ key e = k
                /\ 0 <= idx < Z.of_nat (length fields)
                /\ forall (j : nat) (e' : cyaml_schema_mapping_t),
                     (j < Z.to_nat idx)%nat -> fields !! j = Some e' ->
                     key e' <> k).
Proof.
  intros Hlen idx. subst idx. unfold cyaml__get_entry_from_mapping_schema.
  destruct (get_entry_from_found fields k 0)
    as [(Hn & Hall) | (i & e & Hi & Hl & Hk & Hfirst)]; [lia | lia | |].
  - rewrite Hn. split; [tauto|]. intros H. contradiction.
  - rewrite Hi. rewrite Z.add_0_l.
    assert (Hlt : (i < length fields)%nat) by (eapply lookup_lt_Some; eauto).
    unfold CYAML_SCHEMA_IDX_NONE. split.
    + split; [lia|]. intros Hall. exfalso.
      apply (Hall e); [eapply list_elem_of_lookup_2; eauto | assumption].
    + intros _. exists e. rewrite Nat2Z.id.
      split; [assumption|]. split; [assumption|]. split; [lia|]. exact Hfirst.
Qed.

(** The theorem on the table of the fields [a], [b], [a]: the key [b] is at
    index 1, the key [a] at index 0 and the key [c] nowhere. *)
Lemma get_entry_from_mapping_schema_first_match_witness :
  let node := scalar_node CYAML_INT 0 4 in
  let fields := [mk_schema_mapping "a"%string 0 node;
                 mk_schema_mapping "b"%string 4 node;
                 mk_schema_mapping "a"%string 8 node] in
  cyaml__get_entry_from_mapping_schema fields "c" = CYAML_SCHEMA_IDX_NONE
  /\ exists e, fields !! Z.to_nat (cyaml__get_entry_from_mapping_schema
                                     fields "b") = Some e
               /\ key e = "b"%string.
Proof.
  cbv zeta.
  set (fields := [mk_schema_mapping "a"%string 0 (scalar_node CYAML_INT 0 4);
                  mk_schema_mapping "b"%string 4 (scalar_node CYAML_INT 0 4);
                  mk_schema_mapping "a"%string 8 (scalar_node CYAML_INT 0 4)]).
  assert (Hlen : Z.of_nat (length fields) <= 65535) by (simpl; lia).
  split.
  - apply (proj1 (get_entry_from_mapping_schema_first_match fields "c" Hlen)).
    intros e He. subst fields.
    repeat (apply elem_of_cons in He as [-> | He]; [discriminate|]).
    inversion He.
  - destruct (proj2 (get_entry_from_mapping_schema_first_match fields "b" Hlen))
      as (e & Hl & Hk & _); [vm_compute; discriminate|].
    exists e. split; assumption.
Defined.

(** ** The handlers of a mapping *)

Lemma get_next_event_accepts (mask : cyaml_event_t) (m : machine)
    (event : yaml_event_t) (rest : list (option yaml_event_t)) :
  parser (ctx m) = Some event :: rest ->
  ev_type event <> YAML_ALIAS_EVENT ->
  in_mask (ev_type event) mask = true ->
  cyaml_get_next_event mask m = Returns (CYAML_OK, event) (parser_advanced m).
Proof.
  intros Hp Ha Hm. rewrite get_next_event_eq. unfold parser_head.
  rewrite Hp. cbv zeta. destruct (decide _); [contradiction|].
  rewrite Hm. reflexivity.
Qed.

Lemma parser_advanced_parser (m : machine) (r : option yaml_event_t)
    (rest : list (option yaml_event_t)) :
  parser (ctx m) = r :: rest -> parser (ctx (parser_advanced m)) = rest.
Proof. intros H. simpl. rewrite H. reflexivity. Qed.

Lemma update_state_ok (f : cyaml_state_t -> cyaml_state_t) (m : machine)
    (st : cyaml_state_t) :
  cur_entry (ctx m) = Some st ->
  exists m1, update_state f m = Returns tt m1
             /\ cur_entry (ctx m1) = Some (f st)
             /\ parser (ctx m1) = parser (ctx m)
             /\ stack_idx (ctx m1) = stack_idx (ctx m)
             /\ heap_same m m1.
Proof.
  intros Hcur.
  assert (Hr : exists m1, update_state f m = Returns tt m1).
  { unfold update_state. rewrite Hcur.
    apply cur_entry_lookup in Hcur as (i & -> & _). eauto. }
  destruct Hr as [m1 Hr]. exists m1. split; [assumption|].
  destruct (update_state_returns _ _ _ _ _ Hcur Hr)
    as (Hc & (_ & _ & Hi & _ & Hp & _) & Hb & Hk & _).
  unfold heap_same. auto.
Qed.

(** X4.  The key handler of a mapping on a scalar event, for a field table
    of 65535 fields at most.  A key that no field of the schema has is
    answered with INVALID_KEY: unknown keys are not skipped.  A key that a
    field has is accepted: the entry records the index of the first field
    with that key and expects the value next.  Either way one event has been
    taken and the heap and the depth of the stack are as they were. *)
Theorem read_mapping_key_looks_the_key_up (m : machine) (st : cyaml_state_t)
    (k : string) (rest : list (option yaml_event_t)) :
  cur_entry (ctx m) = Some st ->
  parser (ctx m) = Some (scalar_event k) :: rest ->
  Z.of_nat (length (st_mapping_schema st)) <= 65535 ->
  exists (e : cyaml_err_t) (m' : machine) (st' : cyaml_state_t),
    cyaml__read_mapping_key m = Returns e m'
    /\ cur_entry (ctx m') = Some st'
    /\ parser (ctx m') = rest
    /\ stack_idx (ctx m') = stack_idx (ctx m)
    /\ heap_same m m'
    /\ ((forall f, f ∈ st_mapping_schema st -> key f <> k) ->
        e = CYAML_ERR_INVALID_KEY)
    /\ (forall (i : nat) (f : cyaml_schema_mapping_t),
          st_mapping_schema st !! i = Some f -> key f = k ->
          (forall (j : nat) (f' : cyaml_schema_mapping_t),
             (j < i)%nat -> st_mapping_schema st !! j = Some f' ->
             key f' <> k) ->
          e = CYAML_OK
          /\ st' = set_mapping_state CYAML_MAPPING_STATE_VALUE
                     (set_mapping_schema_idx (Z.of_nat i) st)).
Proof.
  intros Hcur Hp Hlen.
  set (idx := cyaml__get_entry_from_mapping_schema (st_mapping_schema st) k).
  assert (Hcur0 : cur_entry (ctx (parser_advanced m)) = Some st) by exact Hcur.
  destruct (update_state_ok (set_mapping_schema_idx idx) _ _ Hcur0)
    as (m1 & Hu1 & Hc1 & Hp1 & Hi1 & Hb1 & Hk1).
  destruct (update_state_ok (set_mapping_state CYAML_MAPPING_STATE_VALUE)
              _ _ Hc1) as (m2 & Hu2 & Hc2 & Hp2 & Hi2 & Hb2 & Hk2).
  assert (Hrun : cyaml__read_mapping_key m
                 = if idx =? CYAML_SCHEMA_IDX_NONE
                   then Returns CYAML_ERR_INVALID_KEY m1
                   else Returns CYAML_OK m2).
  { unfold cyaml__read_mapping_key, bind.
    rewrite (get_next_event_accepts _ _ _ _ Hp)
      by (try discriminate; reflexivity).
    simpl. unfold deref_state. rewrite Hcur0. fold idx. rewrite Hu1.
    destruct (idx =? CYAML_SCHEMA_IDX_NONE); [reflexivity|].
    rewrite Hu2. reflexivity. }
  assert (Hrest : parser (ctx (parser_advanced m)) = rest)
    by (eapply parser_advanced_parser; eassumption).
  destruct (get_entry_from_found (st_mapping_schema st) k 0)
    as [(Hnone & Hall) | (i0 & f0 & Hi0 & Hl0 & Hk0 & Hfirst0)]; [lia | lia | |].
  - fold (cyaml__get_entry_from_mapping_schema (st_mapping_schema st) k)
      in Hnone.
    fold idx in Hnone. rewrite Hnone, Z.eqb_refl in Hrun.
    exists CYAML_ERR_INVALID_KEY, m1, (set_mapping_schema_idx idx st).
    split; [assumption|]. split; [assumption|]. split; [congruence|].
    split; [assumption|]. split; [split; assumption|].
    split; [reflexivity|].
    intros i f Hl Hk _. exfalso. apply (Hall f); [|assumption].
    eapply list_elem_of_lookup_2; eassumption.
  - fold (cyaml__get_entry_from_mapping_schema (st_mapping_schema st) k)
      in Hi0.
    fold idx in Hi0. rewrite Z.add_0_l in Hi0.
    assert (Hlt : (i0 < length (st_mapping_schema st))%nat)
      by (eapply lookup_lt_Some; eassumption).
    assert (Hsome : (idx =? CYAML_SCHEMA_IDX_NONE) = false)
      by (apply Z.eqb_neq; unfold CYAML_SCHEMA_IDX_NONE; lia).
    rewrite Hsome in Hrun.
    exists CYAML_OK, m2,
      (set_mapping_state CYAML_MAPPING_STATE_VALUE
         (set_mapping_schema_idx idx st)).
    split; [assumption|]. split; [assumption|]. split; [congruence|].
    split; [rewrite Hi2, Hi1; reflexivity|].
    split; [split; [rewrite Hb2; exact Hb1 | rewrite Hk2; exact Hk1]|].
    split.
    { intros Hall. exfalso. apply (Hall f0); [|assumption].
      eapply list_elem_of_lookup_2; eassumption. }
    intros i f Hl Hk Hfirst. split; [reflexivity|].
    assert (Hi : i0 = i).
    { destruct (Nat.lt_trichotomy i0 i) as [Hlt' | [Heq | Hgt]]; [|assumption|].
      - exfalso. exact (Hfirst _ _ Hlt' Hl0 Hk0).
      - exfalso. exact (Hfirst0 _ _ Hgt Hl Hk). }
    rewrite Hi0, Hi. reflexivity.
Qed.

(** The theorem in the load of [b: 7] against [{a: INT}]: the key [b] is
    answered with INVALID_KEY. *)
Lemma read_mapping_key_looks_the_key_up_witness :
  let m := machine_after (one_field 4 (scalar_node CYAML_INT 0 4))
                         (document [scalar_event "b"; scalar_event "7"])
                         3 [] in
  exists m', cyaml__read_mapping_key m = Returns CYAML_ERR_INVALID_KEY m'.
Proof.
  cbv zeta.
  set (m := machine_after (one_field 4 (scalar_node CYAML_INT 0 4))
                          (document [scalar_event "b"; scalar_event "7"])
                          3 []).
  assert (Hfields : st_mapping_schema (current_entry m)
                    = [mk_schema_mapping "a"%string 0
                                         (scalar_node CYAML_INT 0 4)])
    by (vm_compute; reflexivity).
  destruct (read_mapping_key_looks_the_key_up m (current_entry m) "b"
              (Some <$> [scalar_event "7";
                         plain_event YAML_MAPPING_END_EVENT;
                         plain_event YAML_DOCUMENT_END_EVENT;
                         plain_event YAML_STREAM_END_EVENT]))
    as (e & m' & st' & Hrun & _ & _ & _ & _ & Hunknown & _).
  - vm_compute. reflexivity.
  - vm_compute. reflexivity.
  - rewrite Hfields. simpl. lia.
  - exists m'. rewrite Hrun, Hunknown; [reflexivity|].
    rewrite Hfields. intros f Hf.
    apply elem_of_cons in Hf as [-> | Hf]; [discriminate | inversion Hf].
Defined.

Lemma read_mapping_value_eq (m m1 : machine) (st : cyaml_state_t)
    (f : cyaml_schema_mapping_t) (event : yaml_event_t)
    (rest : list (option yaml_event_t)) :
  cur_entry (ctx m) = Some st ->
  st_mapping_schema st !! Z.to_nat (st_mapping_schema_idx st) = Some f ->
  parser (ctx m) = Some event :: rest ->
  ev_type event = YAML_SCALAR_EVENT
  \/ ev_type event = YAML_SEQUENCE_START_EVENT
  \/ ev_type event = YAML_MAPPING_START_EVENT ->
  update_state (set_mapping_state CYAML_MAPPING_STATE_KEY) (parser_advanced m)
  = Returns tt m1 ->
  cyaml__read_mapping_value m
  = cyaml__read_value (value f) (data st + data_offset f) event m1.
Proof.
  intros Hcur Hf Hp Hkind Hu.
  unfold cyaml__read_mapping_value, bind, deref_state.
  rewrite Hcur. cbv beta iota.
  match goal with
  | |- match ?x with _ => _ end _ = _ =>
      replace x with (Some f) by (symmetry; exact Hf)
  end.
  rewrite (get_next_event_accepts _ _ _ _ Hp)
    by (destruct Hkind as [-> | [-> | ->]]; first [discriminate|reflexivity]).
  cbn [fst snd is_err]. rewrite Hu. reflexivity.
Qed.

(** X5.  The value handler of a mapping.  The value of the field the key
    handler has found is read by the value handler on the address of the
    aggregate plus the offset of the field, with the schema of the field;
    before that the entry has been set back to expect a key, one event has
    been taken, and the heap is as it was.  The events a value can start
    with are SCALAR, SEQUENCE_START and MAPPING_START; any other event
    but an alias is answered with UNEXPECTED_EVENT. *)
Theorem read_mapping_value_at_field_offset (m : machine)
    (st : cyaml_state_t) (f : cyaml_schema_mapping_t) (event : yaml_event_t)
    (rest : list (option yaml_event_t)) :
  cur_entry (ctx m) = Some st ->
  st_mapping_schema st !! Z.to_nat (st_mapping_schema_idx st) = Some f ->
  parser (ctx m) = Some event :: rest ->
  ev_type event <> YAML_ALIAS_EVENT ->
  (ev_type event = YAML_SCALAR_EVENT
   \/ ev_type event = YAML_SEQUENCE_START_EVENT
   \/ ev_type event = YAML_MAPPING_START_EVENT ->
   exists m1,
     cyaml__read_mapping_value m
     = cyaml__read_value (value f) (data st + data_offset f) event m1
     /\ cur_entry (ctx m1)
        = Some (set_mapping_state CYAML_MAPPING_STATE_KEY st)
     /\ parser (ctx m1) = rest
     /\ stack_idx (ctx m1) = stack_idx (ctx m)
     /\ heap_same m m1)
  /\ (ev_type event <> YAML_SCALAR_EVENT ->
      ev_type event <> YAML_SEQUENCE_START_EVENT ->
      ev_type event <> YAML_MAPPING_START_EVENT ->
      cyaml__read_mapping_value m
      = Returns CYAML_ERR_UNEXPECTED_EVENT (parser_advanced m)).
Proof.
  intros Hcur Hf Hp Ha.
  assert (Hcur0 : cur_entry (ctx (parser_advanced m)) = Some st) by exact Hcur.
  split.
  - intros Hkind.
    destruct (update_state_ok (set_mapping_state CYAML_MAPPING_STATE_KEY)
                _ _ Hcur0) as (m1 & Hu & Hc & Hp1 & Hi & Hh).
    exists m1. split; [|split; [assumption|]].
    + eapply read_mapping_value_eq; eassumption.
    + split; [rewrite Hp1; eapply parser_advanced_parser; eassumption|].
      split; [rewrite Hi; reflexivity | exact Hh].
  - intros H1 H2 H3.
    unfold cyaml__read_mapping_value, bind, deref_state.
    rewrite Hcur. cbv beta iota.
    match goal with
    | |- match ?x with _ => _ end _ = _ =>
        replace x with (Some f) by (symmetry; exact Hf)
    end.
    rewrite get_next_event_eq. unfold parser_head.
    rewrite Hp. cbv zeta. destruct (decide _); [contradiction|].
    destruct (ev_type event); try contradiction; reflexivity.
Qed.

(** The theorem in the load of [a: 7] against [{a: INT}], the field at
    offset 0 of the root: the value [7] is read on the address of the
    root. *)
Lemma read_mapping_value_at_field_offset_witness :
  let node := scalar_node CYAML_INT 0 4 in
  let m := machine_after (one_field 4 node) (a_is "7") 4 [] in
  exists m1,
    cyaml__read_mapping_value m
    = cyaml__read_value node (block_base 0 + 0) (scalar_event "7") m1.
Proof.
  cbv zeta.
  set (node := scalar_node CYAML_INT 0 4).
  set (m := machine_after (one_field 4 node) (a_is "7") 4 []).
  destruct (proj1 (read_mapping_value_at_field_offset m (current_entry m)
                     (mk_schema_mapping "a"%string 0 node)
                     (scalar_event "7")
                     (Some <$> [plain_event YAML_MAPPING_END_EVENT;
                                plain_event YAML_DOCUMENT_END_EVENT;
                                plain_event YAML_STREAM_END_EVENT])
                     ltac:(vm_compute; reflexivity)
                     ltac:(vm_compute; reflexivity)
                     ltac:(vm_compute; reflexivity)
                     ltac:(discriminate))
              ltac:(left; reflexivity))
    as (m1 & Hrun & _).
  exists m1. exact Hrun.
Defined.

(** ** The entry points *)

Lemma load_validated_returns (cfg : option cyaml_config_t)
    (sch : option cyaml_schema_type_t) (data_out : option Z)
    (p : list (option yaml_event_t)) (m m' : machine)
    (e : cyaml_err_t) (out : option Z) :
  cyaml__validate_load_params cfg sch data_out = CYAML_OK ->
  load_validated cfg sch data_out p m = Returns (e, out) m' ->
  (e <> CYAML_OK -> out = data_out)
  /\ (e = CYAML_OK ->
      out = Some (block_base (heap_next m))
      /\ free_log m' = free_log m /\ stack (ctx m') = []).
Proof.
  intros Hv H. unfold cyaml__validate_load_params in Hv.
  destruct cfg as [c|]; [|discriminate].
  destruct sch as [s|]; [|discriminate].
  destruct (bool_decide _); [discriminate|].
  destruct data_out as [d|]; [|discriminate].
  unfold load_validated in H.
  apply bind_returns in H as ([e0 out0] & m1 & Hl & Hr).
  inversion Hr; subst. simpl.
  apply load_returns in Hl as (_ & Hcases).
  destruct Hcases as [(_ & -> & -> & Hlog & Hst)
                     | (_ & Hst & [(Hne & -> & _) | (-> & -> & Hlog)])].
  - split; [reflexivity | discriminate].
  - split; [reflexivity | contradiction].
  - split; [contradiction | auto].
Qed.

(** X6.  The two entry points hand a tree over on success only.  When
    [cyaml_load_data] or [cyaml_load_file] returns an error, whichever it
    is (a parameter, the file, the parser, the load), the caller's pointer
    [*data_out] is as it was.  When it returns OK the parameters were valid,
    the top-level schema being a mapping, the pointer holds the root the
    load has allocated, the free routine has not been called and the stack
    of the load is gone. *)
Theorem entry_points_hand_over_on_success_only
    (input : list (option yaml_event_t)) (path : string)
    (cfg : option cyaml_config_t) (sch : option cyaml_schema_type_t)
    (data_out : option Z) (m m' : machine) (e : cyaml_err_t)
    (out : option Z) :
  cyaml_load_data input cfg sch data_out m = Returns (e, out) m'
  \/ cyaml_load_file path cfg sch data_out m = Returns (e, out) m' ->
  (e <> CYAML_OK -> out = data_out)
  /\ (e = CYAML_OK ->
      cyaml__validate_load_params cfg sch data_out = CYAML_OK
      /\ (exists s, sch = Some s /\ type s = CYAML_MAPPING)
      /\ out = Some (block_base (heap_next m))
      /\ free_log m' = free_log m
      /\ stack (ctx m') = []).
Proof.
  assert (Hmap : cyaml__validate_load_params cfg sch data_out = CYAML_OK ->
                 exists s, sch = Some s /\ type s = CYAML_MAPPING).
  { unfold cyaml__validate_load_params.
    destruct cfg; [|discriminate]. destruct sch as [s|]; [|discriminate].
    destruct (decide (type s = CYAML_MAPPING)) as [Ht|Ht].
    - intros _. eauto.
    - rewrite bool_decide_true by assumption. discriminate. }
  assert (Hbad : forall m0 : machine,
             is_err (cyaml__validate_load_params cfg sch data_out) = true ->
             Returns (cyaml__validate_load_params cfg sch data_out, data_out)
                     m0 = Returns (e, out) m' ->
             (e <> CYAML_OK -> out = data_out)
             /\ (e = CYAML_OK ->
                 cyaml__validate_load_params cfg sch data_out = CYAML_OK
                 /\ (exists s, sch = Some s /\ type s = CYAML_MAPPING)
                 /\ out = Some (block_base (heap_next m))
                 /\ free_log m' = free_log m
                 /\ stack (ctx m') = [])).
  { intros m0 Hv H. inversion H; subst. split; [reflexivity|].
    intros E. rewrite E in Hv. discriminate. }
  assert (Hgood : forall p,
             is_err (cyaml__validate_load_params cfg sch data_out) = false ->
             load_validated cfg sch data_out p m = Returns (e, out) m' ->
             (e <> CYAML_OK -> out = data_out)
             /\ (e = CYAML_OK ->
                 cyaml__validate_load_params cfg sch data_out = CYAML_OK
                 /\ (exists s, sch = Some s /\ type s = CYAML_MAPPING)
                 /\ out = Some (block_base (heap_next m))
                 /\ free_log m' = free_log m
                 /\ stack (ctx m') = [])).
  { intros p Hv H. apply is_err_false in Hv.
    destruct (load_validated_returns _ _ _ _ _ _ _ _ Hv H) as [Hne Hok].
    split; [assumption|]. intros E. destruct (Hok E) as (? & ? & ?). auto. }
  intros [H | H].
  - unfold cyaml_load_data in H.
    destruct (is_err _) eqn:Hv; [exact (Hbad _ eq_refl H)|].
    unfold bind, yaml_parser_initialize in H.
    destruct (parser_init_ok (env m)); [exact (Hgood _ eq_refl H)|].
    inversion H; subst. split; [reflexivity | discriminate].
  - unfold cyaml_load_file in H.
    destruct (is_err _) eqn:Hv; [exact (Hbad _ eq_refl H)|].
    unfold bind, fopen, yaml_parser_initialize in H.
    destruct (snd <$> _) as [contents|];
      [|inversion H; subst; split; [reflexivity | discriminate]].
    destruct (parser_init_ok (env m)); [exact (Hgood _ eq_refl H)|].
    inversion H; subst. split; [reflexivity | discriminate].
Qed.

(** The theorem on the load of [a: x] against [{a: INT}] through
    [cyaml_load_data]: the load fails and the pointer still holds 7. *)
Lemma entry_points_hand_over_on_success_only_witness :
  exists m',
    cyaml_load_data (a_is "x") (Some (mk_config 0))
                    (Some (one_field 4 (scalar_node CYAML_INT 0 4)))
                    (Some 7) (start_machine [] 0)
    = Returns (CYAML_ERR_INVALID_VALUE, Some 7) m'.
Proof.
  assert (H : exists out m',
             cyaml_load_data (a_is "x") (Some (mk_config 0))
               (Some (one_field 4 (scalar_node CYAML_INT 0 4)))
               (Some 7) (start_machine [] 0)
             = Returns (CYAML_ERR_INVALID_VALUE, out) m')
    by (eexists _, _; vm_compute; reflexivity).
  destruct H as (out & m' & H). exists m'. rewrite H.
  destruct (entry_points_hand_over_on_success_only _ ""%string _ _ _ _ _ _ _
              (or_introl H)) as [Hne _].
  rewrite (Hne ltac:(discriminate)). reflexivity.
Defined.

(** X7.  The file entry point after its parameters are validated.  A file
    that cannot be opened gives FILE_OPEN and a parser that cannot be
    initialised gives LIBYAML_PARSER_INIT, in that order, and in both cases
    nothing has been allocated, parsed or stored: the machine is as it was.
    Otherwise the load of a file is the load of its contents through
    [cyaml_load_data]. *)
Theorem load_file_is_load_data_on_contents (path : string)
    (cfg : option cyaml_config_t) (sch : option cyaml_schema_type_t)
    (data_out : option Z) (m : machine) :
  cyaml__validate_load_params cfg sch data_out = CYAML_OK ->
  (fopen path m = Returns None m ->
   cyaml_load_file path cfg sch data_out m
   = Returns (CYAML_ERR_FILE_OPEN, data_out) m)
  /\ (forall contents,
        fopen path m = Returns (Some contents) m ->
        cyaml_load_file path cfg sch data_out m
        = cyaml_load_data contents cfg sch data_out m)
  /\ (forall input,
        parser_init_ok (env m) = false ->
        cyaml_load_data input cfg sch data_out m
        = Returns (CYAML_ERR_LIBYAML_PARSER_INIT, data_out) m).
Proof.
  intros Hv. unfold cyaml_load_file, cyaml_load_data. rewrite Hv. simpl.
  split; [|split].
  - intros Hf. unfold bind. rewrite Hf. reflexivity.
  - intros contents Hf. unfold bind at 1. rewrite Hf. reflexivity.
  - intros input Hi. unfold bind, yaml_parser_initialize. rewrite Hi.
    reflexivity.
Qed.

(** The theorem on a machine without files: the load of [conf.yaml] gives
    FILE_OPEN. *)
Lemma load_file_is_load_data_on_contents_witness :
  cyaml_load_file "conf.yaml" (Some (mk_config 0))
                  (Some (one_field 4 (scalar_node CYAML_INT 0 4))) (Some 7)
                  (start_machine [] 0)
  = Returns (CYAML_ERR_FILE_OPEN, Some 7) (start_machine [] 0).
Proof.
  apply (load_file_is_load_data_on_contents "conf.yaml" (Some (mk_config 0))
           (Some (one_field 4 (scalar_node CYAML_INT 0 4))) (Some 7)
           (start_machine [] 0)); reflexivity.
Defined.

(** ** Push and pop *)

(** X8.  A push that fails leaves the stack as it was.  [cyaml__stack_push]
    fails with OOM, when the stack is full and its buffer cannot be grown
    ([errno] is then ENOMEM and the load context is untouched), or with
    INTERNAL_ERROR, when an entry for a sequence is asked for on a schema
    node that is not a sequence; with no other code.  In both cases the
    count of entries, the entries below it, the current entry and the heap
    are as they were. *)
Theorem stack_push_failure_keeps_stack (s : cyaml_state_e)
    (sch : cyaml_schema_type_t) (dat : Z) (m m' : machine)
    (e : cyaml_err_t) :
  cyaml__stack_push s sch dat m = Returns e m' ->
  e <> CYAML_OK ->
  stack_idx (ctx m') = stack_idx (ctx m)
  /\ heap_same m m'
  /\ parser (ctx m') = parser (ctx m)
  /\ (forall j : nat, (j < length (stack (ctx m)))%nat ->
                      (j < Z.to_nat (stack_max (ctx m')))%nat ->
                      stack (ctx m') !! j = stack (ctx m) !! j)
  /\ ((e = CYAML_ERR_OOM /\ ctx m' = ctx m /\ errno m' = ENOMEM
       /\ stack_max (ctx m) <= stack_idx (ctx m)
       /\ fst (next_alloc m) = AllocFail)
      \/ (e = CYAML_ERR_INTERNAL_ERROR /\ s = CYAML_STATE_IN_SEQUENCE
          /\ type sch <> CYAML_SEQUENCE
          /\ type sch <> CYAML_SEQUENCE_FIXED)).
Proof.
  intros H Hne.
  assert (Hheap := stack_push_heap _ _ _ _ _ _ H).
  assert (Hkept := kept_stack_push _ _ _ _ _ _ H).
  unfold cyaml__stack_push in H.
  apply bind_returns in H as (e0 & m0 & He & H).
  assert (Hens : (e0 = CYAML_ERR_OOM /\ ctx m0 = ctx m /\ errno m0 = ENOMEM
                  /\ stack_max (ctx m) <= stack_idx (ctx m)
                  /\ fst (next_alloc m) = AllocFail)
                 \/ (e0 = CYAML_OK /\ stack_idx (ctx m0) = stack_idx (ctx m)
                     /\ forall j : nat,
                          (j < length (stack (ctx m)))%nat ->
                          (j < Z.to_nat (stack_max (ctx m0)))%nat ->
                          stack (ctx m0) !! j = stack (ctx m) !! j)).
  { unfold cyaml__stack_ensure in He.
    destruct (Z.ltb_spec (stack_idx (ctx m)) (stack_max (ctx m))) as [Hlt|Hge].
    - inversion He; subst. right. auto.
    - destruct (fst (next_alloc m)) eqn:Hf; inversion He; subst; simpl.
      + left. auto.
      + right. split; [reflexivity|]. split; [reflexivity|].
        intros j Hj Hj'. rewrite lookup_resize by lia. reflexivity.
      + right. split; [reflexivity|]. split; [reflexivity|].
        intros j Hj Hj'. rewrite lookup_resize by lia. reflexivity. }
  destruct Hens as [(-> & Hc & Herr & Hfull & Hf) | (-> & Hidx & Hlow)].
  - simpl in H. inversion H; subst.
    split; [rewrite Hc; reflexivity|]. split; [assumption|].
    split; [assumption|]. split; [intros j _ _; rewrite Hc; reflexivity|].
    left. auto.
  - simpl in H. apply bind_returns in H as (filled & m1 & Hfill & H).
    assert (Hm1 : m1 = m0
                  /\ (forall e1, filled = inl e1 ->
                        e1 = CYAML_ERR_INTERNAL_ERROR
                        /\ s = CYAML_STATE_IN_SEQUENCE
                        /\ type sch <> CYAML_SEQUENCE
                        /\ type sch <> CYAML_SEQUENCE_FIXED)).
    { destruct s; try (inversion Hfill; subst; split;
                       [reflexivity | intros e1 E; discriminate]).
      - destruct (decide _); inversion Hfill; subst.
        split; [reflexivity | intros e1 E; discriminate].
      - destruct (type sch) eqn:Ht;
          try (inversion Hfill; subst; split; [reflexivity|];
               intros e1 E; inversion E; subst;
               repeat split; discriminate).
        + apply bind_returns in Hfill as (p & mp & Hd & Hr).
          apply deref_state_returns in Hd as (-> & _).
          inversion Hr; subst. split; [reflexivity | intros e1 E; discriminate].
        + apply bind_returns in Hfill as (p & mp & Hd & Hr).
          apply deref_state_returns in Hd as (-> & _).
          inversion Hr; subst. split; [reflexivity | intros e1 E; discriminate]. }
    destruct Hm1 as (-> & Hinl).
    destruct filled as [e1|s'].
    + inversion H; subst.
      destruct (Hinl _ eq_refl) as (-> & Hs & Ht1 & Ht2).
      split; [assumption|]. split; [assumption|]. split; [assumption|].
      split; [assumption|]. right. auto.
    + unfold bind, get_ctx, put_ctx, ret, stop in H.
      destruct (_ <? _)%nat; inversion H; subst. contradiction.
Qed.

(** The theorem on a full stack of 16 entries and an allocator that fails:
    the push returns OOM and the 16 entries are still counted. *)
Lemma stack_push_failure_keeps_stack_witness :
  let m := mk_machine (ctx (full_stack_machine 16)) ∅ ∅ 0 [AllocFail] 0 []
                      (mk_environment true []) in
  exists m',
    cyaml__stack_push CYAML_STATE_IN_DOC (scalar_node CYAML_INT 0 4) 0 m
    = Returns CYAML_ERR_OOM m'
    /\ stack_idx (ctx m') = 16.
Proof.
  cbv zeta.
  set (m := mk_machine (ctx (full_stack_machine 16)) ∅ ∅ 0 [AllocFail] 0 []
                       (mk_environment true [])).
  assert (H : exists m',
             cyaml__stack_push CYAML_STATE_IN_DOC (scalar_node CYAML_INT 0 4)
                               0 m
             = Returns CYAML_ERR_OOM m')
    by (eexists; vm_compute; reflexivity).
  destruct H as [m' H]. exists m'. split; [exact H|].
  destruct (stack_push_failure_keeps_stack _ _ _ _ _ _ H ltac:(discriminate))
    as (Hidx & _).
  rewrite Hidx. reflexivity.
Defined.

(** X9.  A pop undoes a push.  On a load context in order, after a push
    that succeeded [cyaml__stack_pop] returns OK, and the count of entries,
    [ctx->state], the current entry and the entries below it are what they
    were before the push; the heap and the parser have not changed.  The
    buffer keeps the capacity the push may have grown it to. *)
Theorem stack_pop_undoes_push (s : cyaml_state_e)
    (sch : cyaml_schema_type_t) (dat : Z) (m m' : machine) :
  ctx_wf (ctx m) ->
  cyaml__stack_push s sch dat m = Returns CYAML_OK m' ->
  exists m'',
    cyaml__stack_pop m' = Returns CYAML_OK m''
    /\ stack_idx (ctx m'') = stack_idx (ctx m)
    /\ ctx_state (ctx m'') = ctx_state (ctx m)
    /\ cur_entry (ctx m'') = cur_entry (ctx m)
    /\ (forall j : nat, (j < Z.to_nat (stack_idx (ctx m)))%nat ->
                        stack (ctx m'') !! j = stack (ctx m) !! j)
    /\ heap_same m m''
    /\ parser (ctx m'') = parser (ctx m)
    /\ stack_max (ctx m'') = stack_max (ctx m').
Proof.
  intros Hwf Hpush.
  assert (Hkept := kept_stack_push _ _ _ _ _ _ Hpush).
  destruct (stack_push_returns _ _ _ _ _ Hwf Hpush)
    as (Hheap & Hidx & Hst & Hlow & st' & Hcur & _).
  destruct Hwf as (H1 & Hmax & H32 & Hstate & Hlen).
  eexists. split.
  { unfold cyaml__stack_pop, bind, get_ctx, deref_state, put_ctx, ret.
    rewrite Hidx. destruct (Z.eqb_spec (stack_idx (ctx m) + 1) 0); [lia|].
    rewrite Hcur. reflexivity. }
  simpl.
  replace (stack_idx (ctx m) + 1 - 1) with (stack_idx (ctx m)) by lia.
  destruct (Z.eqb_spec (stack_idx (ctx m)) 0); [lia|].
  split; [reflexivity|]. split; [congruence|]. split.
  { unfold cur_entry. simpl. rewrite Hstate.
    destruct (0 <=? stack_idx (ctx m) - 1); [|reflexivity].
    apply Hlow. lia. }
  split; [exact Hlow|]. split; [exact Hheap|]. split; [exact Hkept|].
  reflexivity.
Qed.

(** The theorem in the load of [a: 7] against [{a: INT}], three rounds in
    (the entry of the root mapping is current): a push for a mapping and a
    pop lead back to three entries. *)
Lemma stack_pop_undoes_push_witness :
  let sch := one_field 4 (scalar_node CYAML_INT 0 4) in
  let m := machine_after sch (a_is "7") 3 [] in
  exists m' m'',
    cyaml__stack_push CYAML_STATE_IN_MAPPING sch 0 m = Returns CYAML_OK m'
    /\ cyaml__stack_pop m' = Returns CYAML_OK m''
    /\ stack_idx (ctx m'') = 4.
Proof.
  cbv zeta.
  set (sch := one_field 4 (scalar_node CYAML_INT 0 4)).
  set (m := machine_after sch (a_is "7") 3 []).
  assert (Hpush : exists m',
             cyaml__stack_push CYAML_STATE_IN_MAPPING sch 0 m
             = Returns CYAML_OK m')
    by (eexists; vm_compute; reflexivity).
  destruct Hpush as [m' Hpush].
  assert (Hwf : ctx_wf (ctx m)).
  { unfold ctx_wf.
    split; [vm_compute; discriminate|]. split; [vm_compute; discriminate|].
    split; [vm_compute; reflexivity|]. split; vm_compute; reflexivity. }
  destruct (stack_pop_undoes_push _ _ _ _ _ Hwf Hpush)
    as (m'' & Hpop & Hidx & _).
  exists m', m''. split; [exact Hpush|]. split; [exact Hpop|].
  rewrite Hidx. vm_compute. reflexivity.
Defined.

(** ** The INT decoder on every width *)

Lemma read_int_bounds_upto8 (n : Z) :
  1 <= n <= 8 ->
  (64 <=? (((8 - n) mod 2 ^ 32) * 8) mod 2 ^ 32) = false
  /\ Z.shiftr (2 ^ 64 - 1) ((((8 - n) mod 2 ^ 32) * 8) mod 2 ^ 32) / 2
     = 2 ^ (8 * n - 1) - 1.
Proof.
  intros Hn.
  assert (H : n = 1 \/ n = 2 \/ n = 3 \/ n = 4 \/ n = 5 \/ n = 6 \/ n = 7
              \/ n = 8) by lia.
  destruct H as [-> | [-> | [-> | [-> | [-> | [-> | [-> | ->]]]]]]];
    split; vm_compute; reflexivity.
Qed.

Lemma read_int_rejects (sch : cyaml_schema_type_t) (text : string)
    (dat : Z) (m : machine) :
  1 <= data_size sch <= 8 ->
  errno m <> ERANGE ->
  sr_end (strtoll text) = 0%nat \/ sr_erange (strtoll text) = true
  \/ sr_value (strtoll text) < - 2 ^ (8 * data_size sch - 1)
  \/ 2 ^ (8 * data_size sch - 1) - 1 < sr_value (strtoll text) ->
  cyaml__read_int sch text dat m
  = Returns CYAML_ERR_INVALID_VALUE
            (if sr_erange (strtoll text) then set_errno ERANGE m else m).
Proof.
  intros Hn Herr Hbad.
  destruct (read_int_bounds_upto8 (data_size sch) Hn) as [Hs Hmax].
  unfold cyaml__read_int. rewrite Hs, Hmax.
  replace (- (2 ^ (8 * data_size sch - 1) - 1) - 1)
    with (- 2 ^ (8 * data_size sch - 1)) by lia.
  apply Z.eqb_neq in Herr.
  destruct (sr_erange (strtoll text)) eqn:He.
  - simpl. rewrite orb_true_r. reflexivity.
  - rewrite Herr.
    destruct Hbad as [H | [H | [H | H]]]; [| discriminate | |].
    + rewrite H. reflexivity.
    + apply Z.ltb_lt in H. rewrite H, orb_true_r. reflexivity.
    + apply Z.ltb_lt in H. rewrite H, orb_true_r. reflexivity.
Qed.

Lemma read_int_accepts (sch : cyaml_schema_type_t) (text : string)
    (dat : Z) (m : machine) :
  1 <= data_size sch <= 8 ->
  errno m <> ERANGE ->
  sr_end (strtoll text) <> 0%nat -> sr_erange (strtoll text) = false ->
  - 2 ^ (8 * data_size sch - 1) <= sr_value (strtoll text)
    <= 2 ^ (8 * data_size sch - 1) - 1 ->
  cyaml__read_int sch text dat m
  = Returns CYAML_OK
      (set_heap_bytes
         (store_le (Z.to_nat (data_size sch)) dat
                   (sr_value (strtoll text) mod 2 ^ 64) (heap_bytes m)) m).
Proof.
  intros Hn Herr Hend He [Hlo Hhi].
  destruct (read_int_bounds_upto8 (data_size sch) Hn) as [Hs Hmax].
  unfold cyaml__read_int. rewrite Hs, Hmax.
  replace (- (2 ^ (8 * data_size sch - 1) - 1) - 1)
    with (- 2 ^ (8 * data_size sch - 1)) by lia.
  apply Z.eqb_neq in Herr. rewrite He, Herr.
  apply Nat.eqb_neq in Hend. rewrite Hend.
  apply Z.ltb_ge in Hlo, Hhi. rewrite Hlo, Hhi. simpl.
  unfold cyaml_data_write.
  assert (Hw : (1 <=? data_size sch) && (data_size sch <=? 8) = true)
    by (apply andb_true_iff; split; apply Z.leb_le; lia).
  rewrite Hw. reflexivity.
Qed.

(** Reading back the bytes the decoder stored: the value cut to the width
    of the node. *)
Lemma load_le_stored_value (n dat v : Z) (b : gmap Z Z) :
  1 <= n <= 8 ->
  load_le (Z.to_nat n) dat (store_le (Z.to_nat n) dat (v mod 2 ^ 64) b)
  = Some (v mod 2 ^ (8 * n)).
Proof.
  intros Hn. rewrite load_store_le, Z.mod_mod_divide.
  - f_equal. f_equal. f_equal. lia.
  - exists (2 ^ (64 - 8 * Z.of_nat (Z.to_nat n))).
    rewrite <- Z.pow_add_r by lia. f_equal. lia.
Qed.

(** X10.  The INT decoder on a node of 1 to 8 bytes, called with [errno]
    other than ERANGE.  The text is converted by [strtoll] with base 0.
    The decoder returns INVALID_VALUE, and stores nothing, when no digit was
    converted, when the conversion overflowed, or when the value lies
    outside [-2^(8n-1), 2^(8n-1) - 1].  Otherwise it returns OK, the [n]
    bytes at the target hold the value in two's complement, low-order byte
    first, and no other byte, no block and nothing of the load context has
    changed. *)
Theorem read_int_decodes_within_width (sch : cyaml_schema_type_t)
    (text : string) (dat : Z) (m : machine) :
  let n := data_size sch in
  let r := strtoll text in
  1 <= n <= 8 ->
  errno m <> ERANGE ->
  (sr_end r = 0%nat \/ sr_erange r = true
   \/ sr_value r < - 2 ^ (8 * n - 1) \/ 2 ^ (8 * n - 1) - 1 < sr_value r ->
   exists m', cyaml__read_int sch text dat m
              = Returns CYAML_ERR_INVALID_VALUE m'
              /\ heap_same m m' /\ ctx m' = ctx m)
  /\ (sr_end r <> 0%nat -> sr_erange r = false ->
      - 2 ^ (8 * n - 1) <= sr_value r <= 2 ^ (8 * n - 1) - 1 ->
      exists m',
        cyaml__read_int sch text dat m = Returns CYAML_OK m'
        /\ load_le (Z.to_nat n) dat (heap_bytes m')
           = Some (sr_value r mod 2 ^ (8 * n))
        /\ (forall x, x < dat \/ dat + n <= x ->
                      heap_bytes m' !! x = heap_bytes m !! x)
        /\ heap_blocks m' = heap_blocks m
        /\ ctx m' = ctx m
        /\ errno m' = errno m).
Proof.
  intros n r Hn Herr. subst n r. split.
  - intros Hbad. eexists. split; [apply read_int_rejects; assumption|].
    destruct (sr_erange (strtoll text)); split; try split; reflexivity.
  - intros Hend He Hrange. eexists.
    split; [apply read_int_accepts; assumption|].
    cbn [heap_bytes heap_blocks ctx errno set_heap_bytes].
    split; [apply load_le_stored_value; assumption|].
    split; [intros x Hx; apply store_le_other; lia|]. auto.
Qed.

(** The theorem on a node of three bytes and the text [-2]: the three bytes
    at the target read [2^24 - 2]. *)
Lemma read_int_decodes_within_width_witness :
  exists m',
    cyaml__read_int (scalar_node CYAML_INT 0 3) "-2" 64 (start_machine [] 0)
    = Returns CYAML_OK m'
    /\ load_le 3 64 (heap_bytes m') = Some (2 ^ 24 - 2).
Proof.
  destruct (proj2 (read_int_decodes_within_width (scalar_node CYAML_INT 0 3)
                     "-2" 64 (start_machine [] 0)
                     ltac:(simpl; lia) ltac:(discriminate))
              ltac:(vm_compute; discriminate) ltac:(vm_compute; reflexivity)
              ltac:(vm_compute; split; discriminate))
    as (m' & Hrun & Hval & _).
  exists m'. split; [exact Hrun | exact Hval].
Defined.

(** X11.  The INT decoder on a node whose size is 0, or more than 8 bytes:
    the bounds are computed with a shift of a 64-bit value by
    [(8 - data_size) * 8] bits, in unsigned 32-bit arithmetic, which is 64
    or more for these sizes.  The shift is undefined, whatever the text is:
    the call stops there for every text, every target and every machine. *)
Theorem read_int_undefined_shift (sch : cyaml_schema_type_t) (text : string)
    (dat : Z) (m : machine) :
  data_size sch = 0 \/ 9 <= data_size sch <= 2 ^ 29 ->
  cyaml__read_int sch text dat m = Stops UndefinedShift.
Proof.
  intros Hn. unfold cyaml__read_int.
  assert (Hs : 64 <= (((8 - data_size sch) mod 2 ^ 32) * 8) mod 2 ^ 32).
  { destruct Hn as [-> | Hn]; [vm_compute; discriminate|].
    replace ((8 - data_size sch) mod 2 ^ 32)
      with (2 ^ 32 + 8 - data_size sch)
      by (apply Z.mod_unique with (q := -1); lia).
    replace (((2 ^ 32 + 8 - data_size sch) * 8) mod 2 ^ 32)
      with (2 ^ 32 + 64 - 8 * data_size sch)
      by (apply Z.mod_unique with (q := 7); lia).
    lia. }
  apply Z.leb_le in Hs. rewrite Hs. reflexivity.
Qed.

(** The theorem on a node of 16 bytes. *)
Lemma read_int_undefined_shift_witness :
  cyaml__read_int (scalar_node CYAML_INT 0 16) "7" 64 (start_machine [] 0)
  = Stops UndefinedShift.
Proof.
  apply (read_int_undefined_shift (scalar_node CYAML_INT 0 16) "7" 64
           (start_machine [] 0)).
  right. simpl. lia.
Defined.

(** ** Text after the digits *)









(** ** The placement engine outside a sequence *)

Lemma zero_bytes_other (n : nat) (a x : Z) (b : gmap Z Z) :
  x < a \/ a + Z.of_nat n <= x -> zero_bytes n a b !! x = b !! x.
Proof.
  revert a b. induction n as [|n IH]; intros a b Hx; simpl; [reflexivity|].
  rewrite IH by lia. apply lookup_insert_ne. lia.
Qed.

Lemma zero_bytes_lookup (n : nat) (a x : Z) (b : gmap Z Z) :
  a <= x < a + Z.of_nat n -> zero_bytes n a b !! x = Some 0.
Proof.
  revert a b. induction n as [|n IH]; intros a b Hx; simpl; [lia|].
  destruct (Z.eq_dec x a) as [->|Hne].
  - rewrite zero_bytes_other by lia. apply lookup_insert_eq.
  - apply IH. lia.
Qed.

(** X13.  The placement engine on a node with the owning-pointer flag,
    outside a sequence.  The block it asks for is [data_size] bytes long,
    or for a STRING node the length of the text and one byte more.  When
    the allocator fails the engine returns OOM and has stored nothing.
    Otherwise it returns OK and the new block as the target: the block is
    live with that size, all its bytes are zero, its address is stored in
    the eight bytes of the slot the value was to be placed in, and no other
    byte has changed. *)
Theorem placement_allocates_zeroed_block (sch : cyaml_schema_type_t)
    (event : yaml_event_t) (dat delta : Z) (m : machine)
    (st : cyaml_state_t) :
  has_pointer_flag sch = true ->
  cur_entry (ctx m) = Some st ->
  state st <> CYAML_STATE_IN_SEQUENCE ->
  (type sch <> CYAML_STRING /\ delta = data_size sch)
  \/ (type sch = CYAML_STRING
      /\ exists v, ev_scalar_value event = Some v /\ delta = strlen v + 1) ->
  0 <= delta < 2 ^ 64 ->
  let p := block_base (heap_next m) in
  dat + 8 <= p \/ p + delta <= dat ->
  (fst (next_alloc m) = AllocFail ->
   exists m1,
     cyaml__data_handle_pointer sch event dat m
     = Returns (CYAML_ERR_OOM, dat) m1
     /\ heap_same m m1 /\ ctx m1 = ctx m /\ errno m1 = ENOMEM)
  /\ (fst (next_alloc m) <> AllocFail ->
      exists m1,
        cyaml__data_handle_pointer sch event dat m
        = Returns (CYAML_OK, p) m1
        /\ heap_blocks m1 = <[p := delta]> (heap_blocks m)
        /\ load_le 8 dat (heap_bytes m1) = Some (p mod 2 ^ 64)
        /\ (forall x, p <= x < p + delta -> heap_bytes m1 !! x = Some 0)
        /\ (forall x, (x < p \/ p + delta <= x) ->
                      (x < dat \/ dat + 8 <= x) ->
                      heap_bytes m1 !! x = heap_bytes m !! x)
        /\ ctx m1 = ctx m).
Proof.
  intros Hflag Hcur Hst Hdelta Hrange p Hapart.
  assert (Hseq : cyaml_in_sequence m = Returns false m).
  { unfold cyaml_in_sequence. rewrite Hcur.
    apply cur_entry_lookup in Hcur as (i & -> & _).
    rewrite bool_decide_false by assumption. reflexivity. }
  assert (Hhead : cyaml__data_handle_pointer sch event dat m
                  = (value_data <- realloc 0 ((0 + delta) mod 2 ^ 64) ;;
                     if value_data =? 0 then ret (CYAML_ERR_OOM, dat)
                     else
                       _ <- memset_zero (value_data + 0) delta ;;
                       _ <- ret tt ;;
                       err <- cyaml_data_write (value_data mod 2 ^ 64)
                                               POINTER_SIZE dat ;;
                       if is_err err then ret (err, dat)
                       else ret (CYAML_OK, value_data)) m).
  { unfold cyaml__data_handle_pointer. rewrite Hflag.
    destruct Hdelta as [(Ht & ->) | (Ht & v & Hv & ->)].
    - destruct (decide _); [contradiction|].
      unfold bind at 1. unfold ret at 1. unfold bind at 1. rewrite Hseq.
      reflexivity.
    - destruct (decide _); [|contradiction]. rewrite Hv.
      unfold bind at 1. unfold ret at 1. unfold bind at 1. rewrite Hseq.
      reflexivity. }
  rewrite Hhead. clear Hhead.
  rewrite Z.add_0_l, Z.mod_small by lia.
  split.
  - intros Hf. unfold bind, realloc. rewrite Hf. eexists.
    split; [reflexivity|]. repeat split; reflexivity.
  - intros Hf.
    assert (Hp : (p =? 0) = false)
      by (apply Z.eqb_neq; pose proof (block_base_pos (heap_next m)); lia).
    exists (set_heap_bytes
              (store_le 8 dat (p mod 2 ^ 64)
                 (zero_bytes (Z.to_nat delta) (p + 0) (heap_bytes m)))
              (after_alloc m (heap_bytes m) (<[p := delta]> (heap_blocks m))
                           (S (heap_next m)) (errno m))).
    split.
    { unfold bind, realloc. cbv zeta. fold p.
      destruct (fst (next_alloc m)); [contradiction| |];
        cbn [Z.eqb]; rewrite Hp; reflexivity. }
    cbn [heap_bytes heap_blocks ctx set_heap_bytes after_alloc].
    split; [reflexivity|].
    split; [rewrite load_store_le;
            change (2 ^ (8 * Z.of_nat 8)) with (2 ^ 64);
            rewrite Z.mod_mod by lia; reflexivity|].
    split; [intros x Hx; rewrite store_le_other by lia;
            apply zero_bytes_lookup; lia|].
    split; [intros x Hx Hx'; rewrite store_le_other by lia;
            apply zero_bytes_other; lia | reflexivity].
Qed.

(** The theorem in the load of [a: 7] against [{a: INT behind a pointer}],
    where the value is about to be read: the engine hands out a block of
    four bytes and links it in the root. *)
Lemma placement_allocates_zeroed_block_witness :
  let node := scalar_node CYAML_INT CYAML_FLAG_POINTER 4 in
  let m := parser_advanced (machine_after (one_field 8 node) (a_is "7") 4 []) in
  exists m1,
    cyaml__data_handle_pointer node (scalar_event "7") (block_base 0) m
    = Returns (CYAML_OK, block_base 1) m1
    /\ load_le 8 (block_base 0) (heap_bytes m1) = Some (block_base 1)
    /\ heap_bytes m1 !! (block_base 1 + 3) = Some 0.
Proof.
  cbv zeta.
  set (node := scalar_node CYAML_INT CYAML_FLAG_POINTER 4).
  set (m := parser_advanced (machine_after (one_field 8 node) (a_is "7") 4 [])).
  assert (Hnext : heap_next m = 1%nat) by (vm_compute; reflexivity).
  assert (Hcur : cur_entry (ctx m) = Some (current_entry m))
    by (vm_compute; reflexivity).
  assert (Hst : state (current_entry m) <> CYAML_STATE_IN_SEQUENCE)
    by (vm_compute; discriminate).
  assert (Hplan : fst (next_alloc m) <> AllocFail)
    by (vm_compute; discriminate).
  clearbody m.
  assert (Hflag : has_pointer_flag node = true) by reflexivity.
  assert (Hdelta : (type node <> CYAML_STRING /\ 4 = data_size node)
                   \/ (type node = CYAML_STRING
                       /\ exists v, ev_scalar_value (scalar_event "7") = Some v
                                    /\ 4 = strlen v + 1))
    by (left; split; [discriminate | reflexivity]).
  assert (Hrange : 0 <= 4 < 2 ^ 64) by lia.
  pose proof (placement_allocates_zeroed_block node (scalar_event "7")
                (block_base 0) 4 m (current_entry m) Hflag Hcur Hst
                Hdelta Hrange) as H.
  cbv zeta in H. rewrite Hnext in H.
  destruct (proj2 (H ltac:(left; vm_compute; discriminate)) Hplan)
    as (m1 & Hrun & _ & Hlink & Hzero & _). exists m1. split; [exact Hrun|]. split.
  - rewrite Hlink. vm_compute. reflexivity.
  - apply Hzero. lia.
Defined.

(** ** Containers, and the errors of the pump *)

(** X14.  The value handler on the node of a container.  A sequence node
    accepts a SEQUENCE_START event only and a mapping node a MAPPING_START
    event only: any other event is answered with INVALID_VALUE.  On the
    right event the handler pushes an entry for the container.  For a
    sequence the placement engine is not called at all here (the block of a
    sequence is allocated when elements are appended): the entry is pushed
    with the target the caller gave, and a refused event leaves the machine
    as it was.  For a mapping the placement engine is called first, before
    the event is looked at: once it has returned OK, the entry is pushed
    with the placed target, and a refused event is answered on the machine
    the placement left.  On a mapping without the owning-pointer flag the
    placement does nothing, so the target is the caller's and a refused
    event leaves the machine as it was. *)
Theorem read_value_container_start (sch : cyaml_schema_type_t) (dat : Z)
    (event : yaml_event_t) (m : machine) :
  (type sch = CYAML_SEQUENCE \/ type sch = CYAML_SEQUENCE_FIXED ->
   cyaml__read_value sch dat event m
   = if bool_decide (ev_type event = YAML_SEQUENCE_START_EVENT)
     then cyaml__stack_push CYAML_STATE_IN_SEQUENCE sch dat m
     else Returns CYAML_ERR_INVALID_VALUE m)
  /\ (type sch = CYAML_MAPPING ->
      forall (placed : Z) (m1 : machine),
        cyaml__data_handle_pointer sch event dat m
        = Returns (CYAML_OK, placed) m1 ->
        cyaml__read_value sch dat event m
        = if bool_decide (ev_type event = YAML_MAPPING_START_EVENT)
          then cyaml__stack_push CYAML_STATE_IN_MAPPING sch placed m1
          else Returns CYAML_ERR_INVALID_VALUE m1)
  /\ (type sch = CYAML_MAPPING -> has_pointer_flag sch = false ->
      cyaml__read_value sch dat event m
      = if bool_decide (ev_type event = YAML_MAPPING_START_EVENT)
        then cyaml__stack_push CYAML_STATE_IN_MAPPING sch dat m
        else Returns CYAML_ERR_INVALID_VALUE m).
Proof.
  split; [|split].
  - intros Hk. unfold cyaml__read_value.
    unfold CYAML_EVT_SEQ_START.
    rewrite (event_type_eqb event YAML_SEQUENCE_START_EVENT).
    destruct Hk as [Hk | Hk]; rewrite Hk; simpl;
      destruct (bool_decide _); reflexivity.
  - intros Hk placed m1 Hp.
    rewrite read_value_placement_first by (rewrite Hk; discriminate).
    rewrite Hp, Hk. reflexivity.
  - intros Hk Hf.
    rewrite read_value_placement_first by (rewrite Hk; discriminate).
    rewrite data_handle_pointer_inline by assumption. rewrite Hk.
    reflexivity.
Qed.

(** The theorem on a sequence node and a scalar event, and on a mapping
    node with the owning-pointer flag and a MAPPING_START event: in the load
    of [a: {}] against [{a: {a: INT}}], the inner mapping in a block of its
    own, the entry of the inner mapping is pushed with the block the
    placement engine has just allocated. *)
Lemma read_value_container_start_witness :
  cyaml__read_value
    (sequence_node CYAML_SEQUENCE 0 4 (scalar_node CYAML_INT 0 4) 8 4)
    0 (scalar_event "7") (start_machine [] 0)
  = Returns CYAML_ERR_INVALID_VALUE (start_machine [] 0)
  /\ let inner := mapping_node CYAML_FLAG_POINTER 4
                    [mk_schema_mapping "a"%string 0
                                       (scalar_node CYAML_INT 0 4)] in
     let start := plain_event YAML_MAPPING_START_EVENT in
     let m := parser_advanced
                (machine_after (one_field 8 inner)
                               (document [scalar_event "a"; start;
                                          plain_event YAML_MAPPING_END_EVENT])
                               4 []) in
     exists (placed : Z) (m1 : machine),
       cyaml__data_handle_pointer inner start (block_base 0) m
       = Returns (CYAML_OK, placed) m1
       /\ heap_blocks m1 !! placed = Some 4
       /\ cyaml__read_value inner (block_base 0) start m
          = cyaml__stack_push CYAML_STATE_IN_MAPPING inner placed m1.
Proof.
  split.
  - apply (proj1 (read_value_container_start
                    (sequence_node CYAML_SEQUENCE 0 4
                                   (scalar_node CYAML_INT 0 4) 8 4)
                    0 (scalar_event "7") (start_machine [] 0))).
    left. reflexivity.
  - cbv zeta.
    set (inner := mapping_node CYAML_FLAG_POINTER 4
                    [mk_schema_mapping "a"%string 0
                                       (scalar_node CYAML_INT 0 4)]).
    set (start := plain_event YAML_MAPPING_START_EVENT).
    set (m := parser_advanced
                (machine_after (one_field 8 inner)
                               (document [scalar_event "a"; start;
                                          plain_event YAML_MAPPING_END_EVENT])
                               4 [])).
    assert (Hp : exists placed m1,
               cyaml__data_handle_pointer inner start (block_base 0) m
               = Returns (CYAML_OK, placed) m1
               /\ heap_blocks m1 !! placed = Some 4).
    { eexists _, _. split; vm_compute; reflexivity. }
    destruct Hp as (placed & m1 & Hp & Hb).
    exists placed, m1. split; [exact Hp|]. split; [exact Hb|].
    exact (proj1 (proj2 (read_value_container_start inner (block_base 0)
                           start m))
                 eq_refl placed m1 Hp).
Defined.

Lemma pump_error_returned (mask : cyaml_event_t)
    (k : cyaml_err_t * yaml_event_t -> M cyaml_err_t) (m m' : machine)
    (e : cyaml_err_t) (ev : yaml_event_t) :
  cyaml_get_next_event mask m = Returns (e, ev) m' ->
  e <> CYAML_OK ->
  bind (cyaml_get_next_event mask)
       (fun got => if is_err (fst got) then ret (fst got) else k got) m
  = Returns e m'.
Proof.
  intros Hg Hne. unfold bind. rewrite Hg. simpl.
  apply is_err_true in Hne. rewrite Hne. reflexivity.
Qed.

(** X15.  Every handler returns the error of the event pump at once.  In
    whatever state the load is, the handler of the state calls the pump
    with the mask of the events the state expects; when the pump returns an
    error (the parser has failed, the event is an alias, the event is not
    one the state expects) the round of the loop returns that error and has
    done nothing else: the stack and the heap are as the pump left them.
    No state expects the event libyaml delivers past the end of its input,
    so a load cannot run past it. *)
Theorem handlers_return_pump_errors (m m' : machine) (st : cyaml_state_t)
    (e : cyaml_err_t) (ev : yaml_event_t) :
  cur_entry (ctx m) = Some st ->
  (state st = CYAML_STATE_IN_MAPPING ->
   st_mapping_state st = CYAML_MAPPING_STATE_VALUE ->
   is_Some (st_mapping_schema st !! Z.to_nat (st_mapping_schema_idx st))) ->
  cyaml_get_next_event (expected_events st) m = Returns (e, ev) m' ->
  e <> CYAML_OK ->
  drive_step m = Returns e m'
  /\ in_mask YAML_NO_EVENT (expected_events st) = false.
Proof.
  intros Hcur Hval Hg Hne. split.
  - unfold drive_step, bind at 1, deref_state. rewrite Hcur.
    unfold expected_events in Hg.
    destruct (state st) eqn:Hs; simpl read_fn.
    + exact (pump_error_returned _ _ _ _ _ _ Hg Hne).
    + exact (pump_error_returned _ _ _ _ _ _ Hg Hne).
    + exact (pump_error_returned _ _ _ _ _ _ Hg Hne).
    + unfold cyaml__read_mapping, bind at 1, deref_state. rewrite Hcur.
      destruct (st_mapping_state st) eqn:Hms.
      * exact (pump_error_returned _ _ _ _ _ _ Hg Hne).
      * destruct (Hval eq_refl eq_refl) as [f Hf].
        unfold cyaml__read_mapping_value, bind at 1, deref_state.
        rewrite Hcur. cbv beta iota.
        match goal with
        | |- match ?x with _ => _ end _ = _ =>
            replace x with (Some f) by (symmetry; exact Hf)
        end.
        exact (pump_error_returned _ _ _ _ _ _ Hg Hne).
    + exact (pump_error_returned _ _ _ _ _ _ Hg Hne).
  - unfold expected_events.
    destruct (state st); [| | |destruct (st_mapping_state st)|];
      reflexivity.
Qed.

(** The theorem on the document [a: 7] cut after its key, in the load
    against [{a: INT}]: the round that expects the value returns
    UNEXPECTED_EVENT. *)
Lemma handlers_return_pump_errors_witness :
  let cut := Some <$> [plain_event YAML_STREAM_START_EVENT;
                       plain_event YAML_DOCUMENT_START_EVENT;
                       plain_event YAML_MAPPING_START_EVENT;
                       scalar_event "a"] in
  let m := machine_after (one_field 4 (scalar_node CYAML_INT 0 4)) cut 4 [] in
  drive_step m = Returns CYAML_ERR_UNEXPECTED_EVENT m.
Proof.
  cbv zeta.
  set (m := machine_after (one_field 4 (scalar_node CYAML_INT 0 4)) _ 4 []).
  assert (Hcur : cur_entry (ctx m) = Some (current_entry m))
    by (vm_compute; reflexivity).
  assert (Hval : state (current_entry m) = CYAML_STATE_IN_MAPPING ->
                 st_mapping_state (current_entry m)
                 = CYAML_MAPPING_STATE_VALUE ->
                 is_Some (st_mapping_schema (current_entry m)
                          !! Z.to_nat (st_mapping_schema_idx (current_entry m))))
    by (intros _ _; vm_compute; eauto).
  assert (Hg : cyaml_get_next_event (expected_events (current_entry m)) m
               = Returns (CYAML_ERR_UNEXPECTED_EVENT, no_event) m)
    by (vm_compute; reflexivity).
  clearbody m.
  apply (handlers_return_pump_errors m m (current_entry m)
           CYAML_ERR_UNEXPECTED_EVENT no_event Hcur Hval Hg).
  discriminate.
Defined.

(** X16.  When the placement of a sequence element fails, the append path
    does return the error (the value handler, which makes the same call,
    does not look at its result).  With the allocator failing,
    [cyaml__new_sequence_entry] on a sequence that owns its block returns
    OOM; the count of the entry has not been incremented, the count field
    has not been written and no byte or block has changed. *)
Theorem new_sequence_entry_returns_placement_oom (m : machine)
    (st : cyaml_state_t) (event : yaml_event_t) :
  cur_entry (ctx m) = Some st ->
  has_pointer_flag (schema st) = true ->
  type (schema st) <> CYAML_STRING ->
  fst (next_alloc m) = AllocFail ->
  exists m',
    cyaml__new_sequence_entry event m = Returns CYAML_ERR_OOM m'
    /\ ctx m' = ctx m /\ heap_same m m' /\ errno m' = ENOMEM.
Proof.
  intros Hcur Hflag Hk Hf.
  assert (Hp : exists m',
             cyaml__data_handle_pointer (schema st) event (data st) m
             = Returns (CYAML_ERR_OOM, data st) m'
             /\ ctx m' = ctx m /\ heap_same m m' /\ errno m' = ENOMEM).
  { unfold cyaml__data_handle_pointer. rewrite Hflag.
    destruct (decide _); [contradiction|].
    unfold bind at 1. unfold ret at 1. unfold bind at 1.
    unfold cyaml_in_sequence. rewrite Hcur.
    destruct (cur_entry_lookup _ _ Hcur) as (i & Hi & _). rewrite Hi.
    destruct (bool_decide (state st = CYAML_STATE_IN_SEQUENCE)).
    - unfold bind, deref_state. rewrite Hcur. unfold ret, realloc.
      cbn [fst snd]. rewrite Hf. cbn [Z.eqb].
      eexists. split; [reflexivity|]. repeat split; reflexivity.
    - unfold bind, ret, realloc. cbn [fst snd]. rewrite Hf. cbn [Z.eqb].
      eexists. split; [reflexivity|]. repeat split; reflexivity. }
  destruct Hp as (m' & Hp & Hrest). exists m'. split; [|exact Hrest].
  unfold cyaml__new_sequence_entry, bind at 1, deref_state. rewrite Hcur.
  unfold bind at 1, sequence_entry_append, bind at 1. rewrite Hp.
  reflexivity.
Qed.

(** The theorem in the load of [a: [1]] against a sequence that owns its
    block, with an allocator that fails the third request. *)
Lemma new_sequence_entry_returns_placement_oom_witness :
  let elem := scalar_node CYAML_INT 0 4 in
  let seq := sequence_node CYAML_SEQUENCE CYAML_FLAG_POINTER 4 elem 8 4 in
  let m := parser_advanced
             (machine_after (one_field 12 seq) (a_lists ["1"%string]) 5
                            [AllocMove; AllocMove; AllocFail]) in
  exists m', cyaml__new_sequence_entry (scalar_event "1") m
             = Returns CYAML_ERR_OOM m'.
Proof.
  cbv zeta.
  set (m := parser_advanced (machine_after _ _ 5 _)).
  assert (Hcur : cur_entry (ctx m) = Some (current_entry m))
    by (vm_compute; reflexivity).
  assert (Hflag : has_pointer_flag (schema (current_entry m)) = true)
    by (vm_compute; reflexivity).
  assert (Hk : type (schema (current_entry m)) <> CYAML_STRING)
    by (vm_compute; discriminate).
  assert (Hf : fst (next_alloc m) = AllocFail) by (vm_compute; reflexivity).
  clearbody m.
  destruct (new_sequence_entry_returns_placement_oom m (current_entry m)
              (scalar_event "1") Hcur Hflag Hk Hf) as (m' & Hrun & _).
  exists m'. exact Hrun.
Defined.

(** ** Whole loads *)

(** X17.  The load does not look for missing fields.  Against every
    mapping schema, whatever its fields are, the document of the empty
    mapping loads: the load returns OK and hands over a root of
    [data_size] bytes that are all zero (the root comes from [calloc], and
    no field has been stored); nothing else is allocated and the free
    routine is not called.  The allocator is asked twice, for the root and
    for the stack. *)
Theorem empty_mapping_loads_zeroed_root (cfg : cyaml_config_t)
    (fl size : Z) (fields : list cyaml_schema_mapping_t) (data_out e0 : Z)
    (plan : list alloc_outcome) :
  (forall o, o ∈ take 2 plan -> o <> AllocFail) ->
  exists m',
    cyaml__load cfg (mapping_node fl size fields) data_out (document [])
                (start_machine plan e0)
    = Returns (CYAML_OK, block_base 0) m'
    /\ heap_blocks m' = {[ block_base 0 := size ]}
    /\ (forall x, block_base 0 <= x < block_base 0 + size ->
                  heap_bytes m' !! x = Some 0)
    /\ free_log m' = []
    /\ stack (ctx m') = []
    /\ alloc_plan m' = drop 2 plan.
Proof.
  intros Hplan.
  exists (mk_machine (mk_ctx cfg None [] 0 16 [])
                     (zero_bytes (Z.to_nat size) (block_base 0) ∅)
                     {[ block_base 0 := size ]} 1 (drop 2 plan) e0 []
                     (mk_environment true [])).
  split.
  - destruct plan as [|o1 [|o2 rest]].
    + vm_compute. reflexivity.
    + destruct o1; [exfalso; apply (Hplan AllocFail); [left|reflexivity]| |];
        vm_compute; reflexivity.
    + destruct o1;
        [exfalso; apply (Hplan AllocFail); [left|reflexivity]| |];
        (destruct o2;
         [exfalso; apply (Hplan AllocFail); [right; left|reflexivity]| |]);
        vm_compute; reflexivity.
  - cbn [heap_blocks heap_bytes free_log ctx stack alloc_plan].
    split; [reflexivity|].
    split; [intros x Hx; apply zero_bytes_lookup; lia|].
    auto.
Qed.

(** The theorem against [{a: INT, b: INT}] with a root of eight bytes. *)
Lemma empty_mapping_loads_zeroed_root_witness :
  let node := scalar_node CYAML_INT 0 4 in
  let sch := mapping_node 0 8 [mk_schema_mapping "a"%string 0 node;
                               mk_schema_mapping "b"%string 4 node] in
  exists m',
    cyaml__load (mk_config 0) sch 0 (document []) (start_machine [] 0)
    = Returns (CYAML_OK, block_base 0) m'
    /\ heap_bytes m' !! (block_base 0 + 5) = Some 0.
Proof.
  cbv zeta.
  destruct (empty_mapping_loads_zeroed_root (mk_config 0) 0 8
              [mk_schema_mapping "a"%string 0 (scalar_node CYAML_INT 0 4);
               mk_schema_mapping "b"%string 4 (scalar_node CYAML_INT 0 4)]
              0 0 [])
    as (m' & Hrun & _ & Hzero & _).
  - intros o Ho. inversion Ho.
  - exists m'. split; [exact Hrun|]. apply Hzero. lia.
Defined.

Lemma load_unfold (cfg : cyaml_config_t) (sch : cyaml_schema_type_t)
    (data_out : Z) (p : list (option yaml_event_t)) (m : machine) :
  cyaml__load cfg sch data_out p m
  = match calloc (data_size sch) (set_ctx (mk_ctx cfg None [] 0 0 p) m) with
    | Returns dat m1 =>
        if dat =? 0 then Returns (CYAML_ERR_OOM, data_out) m1
        else
          match load_body sch dat data_out (S (length p)) m1 with
          | Returns res m2 => load_out sch dat res m2
          | Stops r => Stops r
          end
    | Stops r => Stops r
    end.
Proof.
  unfold cyaml__load, bind, put_ctx.
  destruct (calloc _ _) as [dat m1|]; [|reflexivity].
  destruct (dat =? 0); reflexivity.
Qed.

Lemma load_body_unfold (sch : cyaml_schema_type_t) (dat data_out : Z)
    (fuel : nat) (m m1 m2 : machine) :
  cyaml__stack_push CYAML_STATE_START sch dat m = Returns CYAML_OK m1 ->
  update_state (set_data dat) m1 = Returns tt m2 ->
  load_body sch dat data_out fuel m
  = match drive_loop fuel m2 with
    | Returns err m3 =>
        if is_err err then Returns (err, data_out) m3
        else
          match cyaml__stack_pop m3 with
          | Returns err' m4 =>
              if is_err err' then Returns (err', data_out) m4
              else if stack_idx (ctx m4) =? 0 then Returns (CYAML_OK, dat) m4
                   else Stops AssertionFailed
          | Stops r => Stops r
          end
    | Stops r => Stops r
    end.
Proof.
  intros Hpush Hupd. unfold load_body, bind at 1. rewrite Hpush.
  cbn [is_err]. unfold bind at 1. rewrite Hupd. unfold bind at 1.
  destruct (drive_loop fuel m2) as [err m3|]; [|reflexivity].
  destruct (is_err err); [reflexivity|].
  unfold bind at 1. destruct (cyaml__stack_pop m3) as [err' m4|]; [|reflexivity].
  destruct (is_err err'); [reflexivity|].
  unfold bind, get_ctx. destruct (stack_idx (ctx m4) =? 0); reflexivity.
Qed.

Lemma drive_loop_goes_on (k : nat) (m m1 : machine) (st : cyaml_state_t) :
  drive_step m = Returns CYAML_OK m1 ->
  cur_entry (ctx m1) = Some st ->
  state st <> CYAML_STATE_START ->
  drive_loop (S k) m = drive_loop k m1.
Proof.
  intros Hs Hcur Hst. simpl. unfold bind at 1. rewrite Hs. cbn [is_err].
  unfold bind, deref_state. rewrite Hcur.
  rewrite bool_decide_true by assumption. reflexivity.
Qed.

Lemma drive_loop_ends (k : nat) (m m1 : machine) (st : cyaml_state_t) :
  drive_step m = Returns CYAML_OK m1 ->
  cur_entry (ctx m1) = Some st ->
  state st = CYAML_STATE_START ->
  drive_loop (S k) m = Returns CYAML_OK m1.
Proof.
  intros Hs Hcur Hst. simpl. unfold bind at 1. rewrite Hs. cbn [is_err].
  unfold bind, deref_state. rewrite Hcur.
  rewrite bool_decide_false by (intros H; apply H; assumption). reflexivity.
Qed.

Lemma drive_loop_fails (k : nat) (m m1 : machine) (e : cyaml_err_t) :
  drive_step m = Returns e m1 -> e <> CYAML_OK ->
  drive_loop (S k) m = Returns e m1.
Proof.
  intros Hs Hne. simpl. unfold bind at 1. rewrite Hs.
  apply is_err_true in Hne. rewrite Hne. reflexivity.
Qed.

Lemma drive_step_reads_value (m : machine) (st : cyaml_state_t) :
  cur_entry (ctx m) = Some st ->
  state st = CYAML_STATE_IN_MAPPING ->
  st_mapping_state st = CYAML_MAPPING_STATE_VALUE ->
  drive_step m = cyaml__read_mapping_value m.
Proof.
  intros Hcur Hs Hv.
  unfold drive_step, bind at 1, deref_state. rewrite Hcur, Hs.
  cbn [read_fn]. unfold cyaml__read_mapping, bind at 1, deref_state.
  rewrite Hcur, Hv. reflexivity.
Qed.

Lemma ctx_set_heap_bytes (b : gmap Z Z) (m : machine) :
  ctx (set_heap_bytes b m) = ctx m.
Proof. reflexivity. Qed.

(** A round of the loop that goes on, on a machine that is known. *)
Ltac known_round :=
  match goal with
  | |- context [drive_loop (S ?k) ?m] =>
      rewrite (drive_loop_goes_on k m (after_step m)
                 (current_entry (after_step m)))
        by (vm_compute; first [reflexivity | discriminate])
  end.

(** X18.  The load of the document [a: <text>] against [{a: INT}], the field
    being [n] bytes wide, 1 to 8, at offset 0 of a root of [n] bytes, on a
    machine whose [errno] is not ERANGE and whose allocator does not
    fail.  When [strtoll] converts the text to a value within
    [-2^(8n-1), 2^(8n-1) - 1], the load returns OK, the root it hands over
    holds the value in two's complement in its [n] bytes, no other block is
    allocated and the free routine has not been called.  When no digit is
    converted, the conversion overflows or the value is outside the
    interval, the load returns INVALID_VALUE, the caller's pointer is as it
    was and the free routine has been called once, on the root. *)
Theorem load_int_field (cfg : cyaml_config_t) (text : string)
    (data_out e0 n : Z) :
  let node := scalar_node CYAML_INT 0 n in
  let sch := one_field n node in
  let v := sr_value (strtoll text) in
  1 <= n <= 8 ->
  e0 <> ERANGE ->
  (sr_end (strtoll text) <> 0%nat -> sr_erange (strtoll text) = false ->
   - 2 ^ (8 * n - 1) <= v <= 2 ^ (8 * n - 1) - 1 ->
   exists m',
     cyaml__load cfg sch data_out (a_is text) (start_machine [] e0)
     = Returns (CYAML_OK, block_base 0) m'
     /\ load_le (Z.to_nat n) (block_base 0) (heap_bytes m')
        = Some (v mod 2 ^ (8 * n))
     /\ heap_blocks m' = {[ block_base 0 := n ]}
     /\ free_log m' = [])
  /\ (sr_end (strtoll text) = 0%nat \/ sr_erange (strtoll text) = true
      \/ v < - 2 ^ (8 * n - 1) \/ 2 ^ (8 * n - 1) - 1 < v ->
      exists m',
        cyaml__load cfg sch data_out (a_is text) (start_machine [] e0)
        = Returns (CYAML_ERR_INVALID_VALUE, data_out) m'
        /\ free_log m' = [(sch, block_base 0)]).
Proof.
  intros node sch v Hn He0. subst v.
  set (m0 := start_machine [] e0).
  set (M1 := default m0 (machine_of
                (calloc (data_size sch)
                        (set_ctx (mk_ctx cfg None [] 0 0 (a_is text)) m0)))).
  set (Mp := default m0 (machine_of
                (cyaml__stack_push CYAML_STATE_START sch (block_base 0) M1))).
  set (M2 := default m0 (machine_of
                (update_state (set_data (block_base 0)) Mp))).
  assert (Hc : calloc (data_size sch)
                      (set_ctx (mk_ctx cfg None [] 0 0 (a_is text)) m0)
               = Returns (block_base 0) M1) by (vm_compute; reflexivity).
  assert (Hpush : cyaml__stack_push CYAML_STATE_START sch (block_base 0) M1
                  = Returns CYAML_OK Mp) by (vm_compute; reflexivity).
  assert (Hupd : update_state (set_data (block_base 0)) Mp = Returns tt M2)
    by (vm_compute; reflexivity).
  rewrite load_unfold, Hc.
  replace (block_base 0 =? 0) with false by reflexivity.
  rewrite (load_body_unfold _ _ _ _ _ _ _ Hpush Hupd).
  change (length (a_is text)) with 8%nat.
  do 4 known_round.
  set (M4 := after_step (after_step (after_step (after_step M2)))).
  set (M5 := default M4 (machine_of
                (update_state (set_mapping_state CYAML_MAPPING_STATE_KEY)
                              (parser_advanced M4)))).
  assert (Hcur4 : cur_entry (ctx M4) = Some (current_entry M4))
    by (vm_compute; reflexivity).
  assert (Hf4 : st_mapping_schema (current_entry M4)
                !! Z.to_nat (st_mapping_schema_idx (current_entry M4))
                = Some (mk_schema_mapping "a"%string 0 node))
    by (vm_compute; reflexivity).
  assert (Hp4 : parser (ctx M4)
                = Some (scalar_event text) :: tl (parser (ctx M4)))
    by (vm_compute; reflexivity).
  assert (Hu4 : update_state (set_mapping_state CYAML_MAPPING_STATE_KEY)
                             (parser_advanced M4) = Returns tt M5)
    by (vm_compute; reflexivity).
  assert (Hdat : data (current_entry M4) + 0 = block_base 0)
    by (vm_compute; reflexivity).
  assert (H5 : drive_step M4 = cyaml__read_int node text (block_base 0) M5).
  { rewrite (drive_step_reads_value M4 (current_entry M4) Hcur4)
      by (vm_compute; reflexivity).
    rewrite (read_mapping_value_eq M4 M5 _ _ _ _ Hcur4 Hf4 Hp4
               (or_introl eq_refl) Hu4).
    cbn [value data_offset]. rewrite Hdat.
    apply (read_value_drops_placement_error node (block_base 0) text M5 M5
             CYAML_OK (block_base 0) eq_refl).
    apply data_handle_pointer_inline. reflexivity. }
  assert (Herr : errno M5 <> ERANGE)
    by (replace (errno M5) with e0 by (vm_compute; reflexivity); exact He0).
  assert (Hcur5 : cur_entry (ctx M5) = Some (current_entry M5))
    by (vm_compute; reflexivity).
  assert (Hst5 : state (current_entry M5) <> CYAML_STATE_START)
    by (vm_compute; discriminate).
  split.
  - intros Hend Hov Hrange.
    rewrite (read_int_accepts node text (block_base 0) M5 Hn Herr Hend Hov
               Hrange) in H5.
    change (data_size node) with n in H5.
    match goal with
    | |- exists m', ?L = _ /\ _ =>
        enough (Hgen : forall B : gmap Z Z,
                   drive_step M4 = Returns CYAML_OK (set_heap_bytes B M5) ->
                   exists m', L = Returns (CYAML_OK, block_base 0) m'
                              /\ heap_bytes m' = B
                              /\ heap_blocks m' = {[ block_base 0 := n ]}
                              /\ free_log m' = [])
    end.
    { destruct (Hgen _ H5) as (m' & Hrun & Hb & Hk & Hl). exists m'.
      split; [exact Hrun|].
      split; [rewrite Hb; apply load_le_stored_value; assumption|].
      split; assumption. }
    clear H5. intros B H5.
    assert (Hcur6 : cur_entry (ctx (set_heap_bytes B M5))
                    = Some (current_entry M5))
      by (rewrite ctx_set_heap_bytes; exact Hcur5).
    rewrite (drive_loop_goes_on _ M4 (set_heap_bytes B M5) (current_entry M5)
               H5 Hcur6 Hst5).
    do 2 known_round.
    match goal with
    | |- context [drive_loop (S ?k) ?m] =>
        rewrite (drive_loop_ends k m (after_step m)
                   (current_entry (after_step m)))
          by (vm_compute; reflexivity)
    end.
    cbn [is_err].
    match goal with
    | |- context [cyaml__stack_pop ?m] =>
        replace (cyaml__stack_pop m)
          with (Returns CYAML_OK (default m (machine_of (cyaml__stack_pop m))))
          by (vm_compute; reflexivity)
    end.
    cbn [is_err].
    match goal with
    | |- context [stack_idx (ctx ?m) =? 0] =>
        replace (stack_idx (ctx m) =? 0) with true by (vm_compute; reflexivity)
    end.
    eexists. split; [vm_compute; reflexivity|].
    split; [vm_compute; reflexivity|].
    split; vm_compute; reflexivity.
  - intros Hbad.
    rewrite (read_int_rejects node text (block_base 0) M5 Hn Herr Hbad) in H5.
    rewrite (drive_loop_fails _ M4 _ _ H5) by discriminate.
    cbn [is_err].
    destruct (sr_erange (strtoll text));
      eexists; (split; vm_compute; reflexivity).
Qed.

(** The theorem on the text [-2] and a field of two bytes: the root reads
    [2^16 - 2]. *)
Lemma load_int_field_witness :
  exists m',
    cyaml__load (mk_config 0) (one_field 2 (scalar_node CYAML_INT 0 2)) 0
                (a_is "-2") (start_machine [] 0)
    = Returns (CYAML_OK, block_base 0) m'
    /\ load_le 2 (block_base 0) (heap_bytes m') = Some (2 ^ 16 - 2).
Proof.
  assert (Hn : 1 <= 2 <= 8) by lia.
  assert (He : 0 <> ERANGE) by discriminate.
  assert (Hend : sr_end (strtoll "-2") <> 0%nat) by (vm_compute; discriminate).
  assert (Hov : sr_erange (strtoll "-2") = false) by (vm_compute; reflexivity).
  assert (Hr : - 2 ^ (8 * 2 - 1) <= sr_value (strtoll "-2")
               <= 2 ^ (8 * 2 - 1) - 1) by (vm_compute; split; discriminate).
  destruct (proj1 (load_int_field (mk_config 0) "-2" 0 0 2 Hn He) Hend Hov Hr)
    as (m' & Hrun & Hval & _).
  exists m'. split; [exact Hrun|].
  change (Z.to_nat 2) with 2%nat in Hval. rewrite Hval. vm_compute. reflexivity.
Defined.

(** X19.  The root of a document must be a mapping, whatever the schema
    says.  When the first event of the first document is a scalar or the
    start of a sequence, the load returns UNEXPECTED_EVENT for every schema
    (the schema is not looked at before the root mapping is entered): the
    caller's pointer is as it was, the free routine has been called on the
    root that had been allocated, and the stack is gone. *)
Theorem document_root_must_be_mapping (cfg : cyaml_config_t)
    (sch : cyaml_schema_type_t) (data_out e0 : Z) (event : yaml_event_t)
    (rest : list (option yaml_event_t)) :
  ev_type event = YAML_SCALAR_EVENT
  \/ ev_type event = YAML_SEQUENCE_START_EVENT ->
  exists m',
    cyaml__load cfg sch data_out
                (Some (plain_event YAML_STREAM_START_EVENT)
                 :: Some (plain_event YAML_DOCUMENT_START_EVENT)
                 :: Some event :: rest)
                (start_machine [] e0)
    = Returns (CYAML_ERR_UNEXPECTED_EVENT, data_out) m'
    /\ free_log m' = [(sch, block_base 0)]
    /\ stack (ctx m') = []
    /\ parser (ctx m') = rest.
Proof.
  intros Hk. destruct event as [t v]. simpl in Hk.
  destruct Hk as [-> | ->];
    eexists; (split; [vm_compute; reflexivity|]);
    (split; [reflexivity|]); split; reflexivity.
Qed.

(** The theorem on the document [7] against [{a: INT}]. *)
Lemma document_root_must_be_mapping_witness :
  exists m',
    cyaml__load (mk_config 0) (one_field 4 (scalar_node CYAML_INT 0 4)) 0
                (Some <$> [plain_event YAML_STREAM_START_EVENT;
                           plain_event YAML_DOCUMENT_START_EVENT;
                           scalar_event "7";
                           plain_event YAML_DOCUMENT_END_EVENT;
                           plain_event YAML_STREAM_END_EVENT])
                (start_machine [] 0)
    = Returns (CYAML_ERR_UNEXPECTED_EVENT, 0) m'.
Proof.
  destruct (document_root_must_be_mapping (mk_config 0)
              (one_field 4 (scalar_node CYAML_INT 0 4)) 0 0
              (scalar_event "7")
              (Some <$> [plain_event YAML_DOCUMENT_END_EVENT;
                         plain_event YAML_STREAM_END_EVENT])
              (or_introl eq_refl)) as (m' & Hrun & _).
  exists m'. exact Hrun.
Defined.

(** X20.  A stream without a document loads.  On the events STREAM_START
    and STREAM_END the load returns OK for every schema and hands over a
    root of [data_size] bytes that are all zero: an empty input is not an
    error. *)
Theorem empty_stream_loads_zeroed_root (cfg : cyaml_config_t)
    (sch : cyaml_schema_type_t) (data_out e0 : Z)
    (rest : list (option yaml_event_t)) :
  exists m',
    cyaml__load cfg sch data_out
                (Some (plain_event YAML_STREAM_START_EVENT)
                 :: Some (plain_event YAML_STREAM_END_EVENT) :: rest)
                (start_machine [] e0)
    = Returns (CYAML_OK, block_base 0) m'
    /\ heap_blocks m' = {[ block_base 0 := data_size sch ]}
    /\ (forall x, block_base 0 <= x < block_base 0 + data_size sch ->
                  heap_bytes m' !! x = Some 0)
    /\ free_log m' = []
    /\ parser (ctx m') = rest.
Proof.
  exists (mk_machine (mk_ctx cfg None [] 0 16 rest)
                     (zero_bytes (Z.to_nat (data_size sch)) (block_base 0) ∅)
                     {[ block_base 0 := data_size sch ]} 1 [] e0 []
                     (mk_environment true [])).
  split; [vm_compute; reflexivity|].
  cbn [heap_blocks heap_bytes free_log ctx parser].
  split; [reflexivity|].
  split; [intros x Hx; apply zero_bytes_lookup; lia|].
  split; reflexivity.
Qed.

Lemma drive_step_reads_int (m m1 : machine) (st : cyaml_state_t)
    (f : cyaml_schema_mapping_t) (text : string)
    (rest : list (option yaml_event_t)) :
  cur_entry (ctx m) = Some st ->
  state st = CYAML_STATE_IN_MAPPING ->
  st_mapping_state st = CYAML_MAPPING_STATE_VALUE ->
  st_mapping_schema st !! Z.to_nat (st_mapping_schema_idx st) = Some f ->
  type (value f) = CYAML_INT ->
  has_pointer_flag (value f) = false ->
  parser (ctx m) = Some (scalar_event text) :: rest ->
  update_state (set_mapping_state CYAML_MAPPING_STATE_KEY) (parser_advanced m)
  = Returns tt m1 ->
  drive_step m
  = cyaml__read_int (value f) text (data st + data_offset f) m1.
Proof.
  intros Hcur Hs Hv Hf Ht Hfl Hp Hu.
  rewrite (drive_step_reads_value m st Hcur Hs Hv).
  rewrite (read_mapping_value_eq m m1 _ _ _ _ Hcur Hf Hp (or_introl eq_refl)
             Hu).
  apply (read_value_drops_placement_error (value f) _ text m1 m1 CYAML_OK _ Ht).
  apply data_handle_pointer_inline. exact Hfl.
Qed.

(** X21.  The load does not detect a key that comes twice: the later value
    replaces the earlier one.  In the load of the document
    [a: <first>, a: <second>] against [{a: INT}], the field being [n]
    bytes wide, 1 to 8, with [errno] other than ERANGE and an allocator that
    does not fail, when both texts are converted to values within the
    range of the field the load returns OK and the root holds the second
    value. *)
Theorem load_duplicate_key_last_wins (cfg : cyaml_config_t)
    (first second : string) (data_out e0 n : Z) :
  let node := scalar_node CYAML_INT 0 n in
  let sch := one_field n node in
  let accepted text :=
    sr_end (strtoll text) <> 0%nat /\ sr_erange (strtoll text) = false
    /\ - 2 ^ (8 * n - 1) <= sr_value (strtoll text) <= 2 ^ (8 * n - 1) - 1 in
  1 <= n <= 8 ->
  e0 <> ERANGE ->
  accepted first -> accepted second ->
  exists m',
    cyaml__load cfg sch data_out
                (document [scalar_event "a"; scalar_event first;
                           scalar_event "a"; scalar_event second])
                (start_machine [] e0)
    = Returns (CYAML_OK, block_base 0) m'
    /\ load_le (Z.to_nat n) (block_base 0) (heap_bytes m')
       = Some (sr_value (strtoll second) mod 2 ^ (8 * n))
    /\ free_log m' = [].
Proof.
  intros node sch accepted Hn He0 (Hend1 & Hov1 & Hr1) (Hend2 & Hov2 & Hr2).
  set (doc := document [scalar_event "a"; scalar_event first;
                        scalar_event "a"; scalar_event second]).
  set (m0 := start_machine [] e0).
  set (M1 := default m0 (machine_of
                (calloc (data_size sch)
                        (set_ctx (mk_ctx cfg None [] 0 0 doc) m0)))).
  set (Mp := default m0 (machine_of
                (cyaml__stack_push CYAML_STATE_START sch (block_base 0) M1))).
  set (M2 := default m0 (machine_of
                (update_state (set_data (block_base 0)) Mp))).
  assert (Hc : calloc (data_size sch)
                      (set_ctx (mk_ctx cfg None [] 0 0 doc) m0)
               = Returns (block_base 0) M1) by (vm_compute; reflexivity).
  assert (Hpush : cyaml__stack_push CYAML_STATE_START sch (block_base 0) M1
                  = Returns CYAML_OK Mp) by (vm_compute; reflexivity).
  assert (Hupd : update_state (set_data (block_base 0)) Mp = Returns tt M2)
    by (vm_compute; reflexivity).
  rewrite load_unfold, Hc.
  replace (block_base 0 =? 0) with false by reflexivity.
  rewrite (load_body_unfold _ _ _ _ _ _ _ Hpush Hupd).
  change (length doc) with 10%nat.
  do 4 known_round.
  (* the first value *)
  set (M4 := after_step (after_step (after_step (after_step M2)))).
  set (M5 := default M4 (machine_of
                (update_state (set_mapping_state CYAML_MAPPING_STATE_KEY)
                              (parser_advanced M4)))).
  assert (H5 : drive_step M4
               = cyaml__read_int node first (block_base 0) M5).
  { replace (block_base 0) with (data (current_entry M4) + data_offset
               (mk_schema_mapping "a"%string 0 node)) at 1
      by (vm_compute; reflexivity).
    apply (drive_step_reads_int M4 M5 (current_entry M4)
             (mk_schema_mapping "a"%string 0 node) first
             (tl (parser (ctx M4))));
      vm_compute; reflexivity. }
  assert (Herr5 : errno M5 <> ERANGE)
    by (replace (errno M5) with e0 by (vm_compute; reflexivity); exact He0).
  assert (Hcur5 : cur_entry (ctx M5) = Some (current_entry M5))
    by (vm_compute; reflexivity).
  assert (Hst5 : state (current_entry M5) <> CYAML_STATE_START)
    by (vm_compute; discriminate).
  rewrite (read_int_accepts node first (block_base 0) M5 Hn Herr5 Hend1 Hov1
             Hr1) in H5.
  revert H5.
  generalize (store_le (Z.to_nat (data_size node)) (block_base 0)
                (sr_value (strtoll first) mod 2 ^ 64) (heap_bytes M5)).
  intros B1 H5.
  assert (Hcur6 : cur_entry (ctx (set_heap_bytes B1 M5))
                  = Some (current_entry M5))
    by (rewrite ctx_set_heap_bytes; exact Hcur5).
  rewrite (drive_loop_goes_on _ M4 (set_heap_bytes B1 M5) (current_entry M5)
             H5 Hcur6 Hst5).
  known_round.
  (* the second value *)
  set (M7 := after_step (set_heap_bytes B1 M5)).
  set (M8 := default M7 (machine_of
                (update_state (set_mapping_state CYAML_MAPPING_STATE_KEY)
                              (parser_advanced M7)))).
  assert (H7 : drive_step M7
               = cyaml__read_int node second (block_base 0) M8).
  { replace (block_base 0) with (data (current_entry M7) + data_offset
               (mk_schema_mapping "a"%string 0 node)) at 1
      by (vm_compute; reflexivity).
    apply (drive_step_reads_int M7 M8 (current_entry M7)
             (mk_schema_mapping "a"%string 0 node) second
             (tl (parser (ctx M7))));
      vm_compute; reflexivity. }
  assert (Herr8 : errno M8 <> ERANGE)
    by (replace (errno M8) with e0 by (vm_compute; reflexivity); exact He0).
  assert (Hcur8 : cur_entry (ctx M8) = Some (current_entry M8))
    by (vm_compute; reflexivity).
  assert (Hst8 : state (current_entry M8) <> CYAML_STATE_START)
    by (vm_compute; discriminate).
  rewrite (read_int_accepts node second (block_base 0) M8 Hn Herr8 Hend2 Hov2
             Hr2) in H7.
  change (data_size node) with n in H7.
  match goal with
  | |- exists m', ?L = _ /\ _ =>
      enough (Hgen : forall B : gmap Z Z,
                 drive_step M7 = Returns CYAML_OK (set_heap_bytes B M8) ->
                 exists m', L = Returns (CYAML_OK, block_base 0) m'
                            /\ heap_bytes m' = B /\ free_log m' = [])
  end.
  { destruct (Hgen _ H7) as (m' & Hrun & Hb & Hl). exists m'.
    split; [exact Hrun|].
    split; [rewrite Hb; apply load_le_stored_value; assumption | exact Hl]. }
  clear H7. intros B H7.
  assert (Hcur9 : cur_entry (ctx (set_heap_bytes B M8))
                  = Some (current_entry M8))
    by (rewrite ctx_set_heap_bytes; exact Hcur8).
  rewrite (drive_loop_goes_on _ M7 (set_heap_bytes B M8) (current_entry M8)
             H7 Hcur9 Hst8).
  do 2 known_round.
  match goal with
  | |- context [drive_loop (S ?k) ?m] =>
      rewrite (drive_loop_ends k m (after_step m)
                 (current_entry (after_step m)))
        by (vm_compute; reflexivity)
  end.
  cbn [is_err].
  match goal with
  | |- context [cyaml__stack_pop ?m] =>
      replace (cyaml__stack_pop m)
        with (Returns CYAML_OK (default m (machine_of (cyaml__stack_pop m))))
        by (vm_compute; reflexivity)
  end.
  cbn [is_err].
  match goal with
  | |- context [stack_idx (ctx ?m) =? 0] =>
      replace (stack_idx (ctx m) =? 0) with true by (vm_compute; reflexivity)
  end.
  eexists. split; [vm_compute; reflexivity|].
  split; vm_compute; reflexivity.
Qed.

(** The theorem on the document [a: 1, a: 2] and a field of four bytes. *)
Lemma load_duplicate_key_last_wins_witness :
  exists m',
    cyaml__load (mk_config 0) (one_field 4 (scalar_node CYAML_INT 0 4)) 0
                (document [scalar_event "a"; scalar_event "1";
                           scalar_event "a"; scalar_event "2"])
                (start_machine [] 0)
    = Returns (CYAML_OK, block_base 0) m'
    /\ load_le 4 (block_base 0) (heap_bytes m') = Some 2.
Proof.
  assert (Hn : 1 <= 4 <= 8) by lia.
  assert (He : 0 <> ERANGE) by discriminate.
  assert (H1 : sr_end (strtoll "1") <> 0%nat
               /\ sr_erange (strtoll "1") = false
               /\ - 2 ^ (8 * 4 - 1) <= sr_value (strtoll "1")
                  <= 2 ^ (8 * 4 - 1) - 1)
    by (vm_compute; repeat split; discriminate).
  assert (H2 : sr_end (strtoll "2") <> 0%nat
               /\ sr_erange (strtoll "2") = false
               /\ - 2 ^ (8 * 4 - 1) <= sr_value (strtoll "2")
                  <= 2 ^ (8 * 4 - 1) - 1)
    by (vm_compute; repeat split; discriminate).
  destruct (load_duplicate_key_last_wins (mk_config 0) "1" "2" 0 0 4 Hn He
              H1 H2) as (m' & Hrun & Hval & _).
  exists m'. split; [exact Hrun|].
  change (Z.to_nat 4) with 4%nat in Hval. rewrite Hval.
  vm_compute. reflexivity.
Defined.
